(** * The fast confirmation rule of [confirmation_rule.py], embedded in Rocq

    The development follows the class [ConfRule] method by method.  Python
    integers are [Z], Python floats are the kernel's binary64 floats, the
    [nodes] dictionary is an association list in insertion order, exceptions
    are an error type and the mutable [self] is threaded explicitly. *)

From Stdlib Require Import ZArith QArith Qminmax List Bool Lia Floats Sorted DecimalString.
From stdpp Require Import gmap strings list.

Local Open Scope Z_scope.

(** ** Constants

    [SLOTS_PER_EPOCH] and [SLOT_LEN] are read from the mainnet preset of
    [eth2spec.capella.mainnet], which fixes them to 32 slots and 12 seconds. *)

Definition VALIDATOR_BALANCE : Z := 32 * 10 ^ 9.
Definition PROPOSER_SCORE_BOOST : Z := 40.
Definition SLOTS_PER_EPOCH : Z := 32.
Definition SLOT_LEN : Z := 12.
Definition COMMITTEE_WEIGHT_ESTIMATION_ADJUSTMENT_FACTOR : Z := 5.

(** ** Exceptions *)

Inductive assert_site :=
| SlotOrder   (* the chronological-order check of update_confirmed_head *)
| FfgEpoch.   (* the current-epoch check of __is_ffg_confirmed *)

Inductive error :=
| KeyError
| IndexError
| OverflowError
| AssertionError (site : assert_site)
| OutOfFuel.  (* a loop or recursion that did not finish within the fuel *)

Inductive result (A : Type) :=
| Ok (a : A)
| Err (e : error).
Arguments Ok {A} a.
Arguments Err {A} e.

Definition bind {A B : Type} (m : result A) (k : A -> result B) : result B :=
  match m with
  | Ok a => k a
  | Err e => Err e
  end.

Notation "'do' x <- m ; k" := (bind m (fun x => k))
  (at level 10, x name, m at level 100, k at level 200).

(** ** Python numbers

    [int] is [Z].  A [float] is an IEEE 754 binary64 value.  Converting an
    [int] to a [float] rounds to nearest-even and raises [OverflowError] when
    the rounded value is not finite; this is what the mixed [int]/[float]
    operators of the interpreter do with their [int] operand. *)

Definition float_of_Z (z : Z) : float :=
  SF2Prim (binary_normalize prec emax z 0 false).

Definition py_float (z : Z) : result float :=
  let f := float_of_Z z in
  if PrimFloat.is_infinity f then Err OverflowError else Ok f.

(** [a / b] on two small ints: true division, a correctly rounded float. *)
Definition py_truediv (a b : Z) : float :=
  PrimFloat.div (float_of_Z a) (float_of_Z b).

(** [min(a, b, c)]: the first argument is kept unless a later one is
    strictly smaller. *)
Definition py_min3 (a b c : float) : float :=
  let m := if PrimFloat.ltb b a then b else a in
  if PrimFloat.ltb c m then c else m.

(** ** The snapshot ([conf_info])

    A fork-choice node is held as the beacon node answered it, with [slot] and
    [weight] as decimal numerals; [node_slot] and [node_weight] are their
    [int(...)], which is how the code reads them everywhere but in the sort of
    [__find_head_root]. *)

Record node := {
  node_block_root : string;
  node_slot : Z;
  node_parent_root : string;
  node_weight : Z
}.

Record conf_info := {
  ci_current_slot : Z;
  ci_current_time_in_slot : Z;
  ci_justified_checkpoint : string;   (* conf_info["justified_checkpoint"]["root"] *)
  ci_finalized_checkpoint : string;   (* conf_info["finalized_checkpoint"]["root"] *)
  ci_nodes : list (string * node);    (* conf_info["nodes"], in insertion order *)
  ci_committee_size : Z
}.

Fixpoint dict_get (k : string) (d : list (string * node)) : option node :=
  match d with
  | [] => None
  | (k', v) :: d' => if String.eqb k' k then Some v else dict_get k d'
  end.

(** [nodes[root]] *)
Definition get_node (ci : conf_info) (root : string) : result node :=
  match dict_get root (ci_nodes ci) with
  | Some n => Ok n
  | None => Err KeyError
  end.

(** ** The engine ([self]) *)

Inductive log_event :=
| Warning_head_goes_backwards (old_slot new_slot : Z)
| Error_confirmed_block_forked.

Record ConfRule := {
  confirmation_byzantine_threshold : float;
  confirmation_slashing_threshold : float;
  logger : list log_event;            (* warnings and errors; debug lines carry no state *)
  empty_or_forked_slots : list Z;
  confirmed_head_root : option string;
  confirmed_head_slot : Z;
  ffg_confirmed_checkpoint : option string;
  current_slot : Z;
  time_in_current_slot : Z;
  times_from_confirmed_head : list Z;
  conf_times : list Z;
  processed_slots : gset Z
}.

(** [ConfRule.__init__] *)
Definition init (byzantine slashing : float) : ConfRule := {|
  confirmation_byzantine_threshold := byzantine;
  confirmation_slashing_threshold := slashing;
  logger := [];
  empty_or_forked_slots := [];
  confirmed_head_root := None;
  confirmed_head_slot := 0;
  ffg_confirmed_checkpoint := None;
  current_slot := 0;
  time_in_current_slot := 0;
  times_from_confirmed_head := [];
  conf_times := [];
  processed_slots := ∅
|}.

(** ** Weight estimator *)

(** [spec.compute_epoch_at_slot]: [slot // SLOTS_PER_EPOCH].  The library
    computes on checked unsigned 64-bit integers and raises [ValueError] for
    a slot outside their range, and for [current_epoch - 1] and
    [current_epoch - 2] below zero; here the quotient is taken on [Z], which
    agrees with the library on the slots of a chain from epoch 2 on. *)
Definition compute_epoch_at_slot (slot : Z) : Z := slot / SLOTS_PER_EPOCH.

Definition is_full_validator_set_covered (start_slot end_slot : Z) : bool :=
  let start_epoch := compute_epoch_at_slot start_slot in
  let end_epoch := compute_epoch_at_slot end_slot in
  let at_boundary :=
    (start_slot mod SLOTS_PER_EPOCH =? 0) || ((end_slot + 1) mod SLOTS_PER_EPOCH =? 0) in
  (start_epoch + 1 <? end_epoch)
  || (at_boundary && (start_slot + SLOTS_PER_EPOCH - 1 <=? end_slot)).

Definition ceil_div (numerator denominator : Z) : Z :=
  if numerator mod denominator =? 0
  then numerator / denominator
  else numerator / denominator + 1.

Definition adjust_committee_weight_estimate_to_ensure_safety (estimate : Z) : Z :=
  ceil_div (estimate * (1000 + COMMITTEE_WEIGHT_ESTIMATION_ADJUSTMENT_FACTOR)) 1000.

Definition get_total_active_balance (ci : conf_info) : Z :=
  SLOTS_PER_EPOCH * ci_committee_size ci * VALIDATOR_BALANCE.

Definition get_committee_weight_between_slots
    (ci : conf_info) (start_slot end_slot : Z) : Z :=
  let total_active_balance := get_total_active_balance ci in
  let start_epoch := compute_epoch_at_slot start_slot in
  let end_epoch := compute_epoch_at_slot end_slot in
  if end_slot <? start_slot then 0
  else if is_full_validator_set_covered start_slot end_slot then total_active_balance
  else if start_epoch =? end_epoch then
    ceil_div ((end_slot - start_slot + 1) * total_active_balance) SLOTS_PER_EPOCH
  else
    let num_slots_in_end_epoch := end_slot mod SLOTS_PER_EPOCH + 1 in
    let remaining_slots_in_end_epoch := SLOTS_PER_EPOCH - num_slots_in_end_epoch in
    let num_slots_in_start_epoch := SLOTS_PER_EPOCH - start_slot mod SLOTS_PER_EPOCH in
    let end_epoch_weight_mul_by_slots_per_epoch :=
      num_slots_in_end_epoch * total_active_balance in
    let start_epoch_weight_mul_by_slots_per_epoch :=
      ceil_div
        (num_slots_in_start_epoch * remaining_slots_in_end_epoch * total_active_balance)
        SLOTS_PER_EPOCH in
    adjust_committee_weight_estimate_to_ensure_safety
      (ceil_div
         (start_epoch_weight_mul_by_slots_per_epoch
          + end_epoch_weight_mul_by_slots_per_epoch)
         SLOTS_PER_EPOCH).

Definition get_remaining_weight_in_epoch (self : ConfRule) (ci : conf_info) : Z :=
  let remaining_slots_in_epoch :=
    SLOTS_PER_EPOCH - current_slot self mod SLOTS_PER_EPOCH - 1 in
  remaining_slots_in_epoch * ci_committee_size ci * VALIDATOR_BALANCE.


(** ** State updates of [self] *)

Definition set_logger (l : list log_event) (self : ConfRule) : ConfRule := {|
  confirmation_byzantine_threshold := confirmation_byzantine_threshold self;
  confirmation_slashing_threshold := confirmation_slashing_threshold self;
  logger := l;
  empty_or_forked_slots := empty_or_forked_slots self;
  confirmed_head_root := confirmed_head_root self;
  confirmed_head_slot := confirmed_head_slot self;
  ffg_confirmed_checkpoint := ffg_confirmed_checkpoint self;
  current_slot := current_slot self;
  time_in_current_slot := time_in_current_slot self;
  times_from_confirmed_head := times_from_confirmed_head self;
  conf_times := conf_times self;
  processed_slots := processed_slots self
|}.

Definition set_empty_or_forked_slots (l : list Z) (self : ConfRule) : ConfRule := {|
  confirmation_byzantine_threshold := confirmation_byzantine_threshold self;
  confirmation_slashing_threshold := confirmation_slashing_threshold self;
  logger := logger self;
  empty_or_forked_slots := l;
  confirmed_head_root := confirmed_head_root self;
  confirmed_head_slot := confirmed_head_slot self;
  ffg_confirmed_checkpoint := ffg_confirmed_checkpoint self;
  current_slot := current_slot self;
  time_in_current_slot := time_in_current_slot self;
  times_from_confirmed_head := times_from_confirmed_head self;
  conf_times := conf_times self;
  processed_slots := processed_slots self
|}.

Definition set_confirmed_head (root : string) (slot : Z) (self : ConfRule) : ConfRule := {|
  confirmation_byzantine_threshold := confirmation_byzantine_threshold self;
  confirmation_slashing_threshold := confirmation_slashing_threshold self;
  logger := logger self;
  empty_or_forked_slots := empty_or_forked_slots self;
  confirmed_head_root := Some root;
  confirmed_head_slot := slot;
  ffg_confirmed_checkpoint := ffg_confirmed_checkpoint self;
  current_slot := current_slot self;
  time_in_current_slot := time_in_current_slot self;
  times_from_confirmed_head := times_from_confirmed_head self;
  conf_times := conf_times self;
  processed_slots := processed_slots self
|}.

Definition set_ffg_confirmed_checkpoint (root : string) (self : ConfRule) : ConfRule := {|
  confirmation_byzantine_threshold := confirmation_byzantine_threshold self;
  confirmation_slashing_threshold := confirmation_slashing_threshold self;
  logger := logger self;
  empty_or_forked_slots := empty_or_forked_slots self;
  confirmed_head_root := confirmed_head_root self;
  confirmed_head_slot := confirmed_head_slot self;
  ffg_confirmed_checkpoint := Some root;
  current_slot := current_slot self;
  time_in_current_slot := time_in_current_slot self;
  times_from_confirmed_head := times_from_confirmed_head self;
  conf_times := conf_times self;
  processed_slots := processed_slots self
|}.

(** The three assignments that open [update_confirmed_head]. *)
Definition set_clock (slot time : Z) (self : ConfRule) : ConfRule := {|
  confirmation_byzantine_threshold := confirmation_byzantine_threshold self;
  confirmation_slashing_threshold := confirmation_slashing_threshold self;
  logger := logger self;
  empty_or_forked_slots := empty_or_forked_slots self;
  confirmed_head_root := confirmed_head_root self;
  confirmed_head_slot := confirmed_head_slot self;
  ffg_confirmed_checkpoint := ffg_confirmed_checkpoint self;
  current_slot := slot;
  time_in_current_slot := time;
  times_from_confirmed_head := times_from_confirmed_head self;
  conf_times := conf_times self;
  processed_slots := {[slot]} ∪ processed_slots self
|}.

Definition set_times_from_confirmed_head (l : list Z) (self : ConfRule) : ConfRule := {|
  confirmation_byzantine_threshold := confirmation_byzantine_threshold self;
  confirmation_slashing_threshold := confirmation_slashing_threshold self;
  logger := logger self;
  empty_or_forked_slots := empty_or_forked_slots self;
  confirmed_head_root := confirmed_head_root self;
  confirmed_head_slot := confirmed_head_slot self;
  ffg_confirmed_checkpoint := ffg_confirmed_checkpoint self;
  current_slot := current_slot self;
  time_in_current_slot := time_in_current_slot self;
  times_from_confirmed_head := l;
  conf_times := conf_times self;
  processed_slots := processed_slots self
|}.

Definition set_conf_times (l : list Z) (self : ConfRule) : ConfRule := {|
  confirmation_byzantine_threshold := confirmation_byzantine_threshold self;
  confirmation_slashing_threshold := confirmation_slashing_threshold self;
  logger := logger self;
  empty_or_forked_slots := empty_or_forked_slots self;
  confirmed_head_root := confirmed_head_root self;
  confirmed_head_slot := confirmed_head_slot self;
  ffg_confirmed_checkpoint := ffg_confirmed_checkpoint self;
  current_slot := current_slot self;
  time_in_current_slot := time_in_current_slot self;
  times_from_confirmed_head := times_from_confirmed_head self;
  conf_times := l;
  processed_slots := processed_slots self
|}.

(** [self.<field> == block_root] for a field that starts as [None]. *)
Definition opt_root_eqb (o : option string) (root : string) : bool :=
  match o with
  | Some r => String.eqb r root
  | None => false
  end.

(** ** Head selection *)

(** [node['slot']] as the snapshot holds it.  The collector stores the
    fork-choice nodes as the beacon node answers, and the Beacon API writes a
    slot as its decimal numeral: the field is a string, of which [node_slot]
    is the [int(...)]. *)
Definition raw_slot (n : node) : string :=
  NilZero.string_of_int (Z.to_int (node_slot n)).

Fixpoint insert_by_slot (x : string * node) (l : list (string * node))
    : list (string * node) :=
  match l with
  | [] => [x]
  | y :: l' =>
      if String.leb (raw_slot (snd x)) (raw_slot (snd y))
      then x :: y :: l'
      else y :: insert_by_slot x l'
  end.

(** [sorted(nodes.items(), key=lambda item: item[1]['slot'])]: a stable sort
    on the raw field, which the interpreter orders as strings, character by
    character. *)
Definition sorted_by_slot (d : list (string * node)) : list (string * node) :=
  foldr insert_by_slot [] d.

Definition find_head_root (ci : conf_info) : result string :=
  match last (sorted_by_slot (ci_nodes ci)) with
  | Some (root, _) => Ok root
  | None => Err IndexError
  end.

(** ** LMD safety *)

(** [(PROPOSER_SCORE_BOOST / 100) * ceil_div(total_active_balance, SLOTS_PER_EPOCH)],
    the expression both safety checks compute. *)
Definition proposer_score (ci : conf_info) : result float :=
  let boost := py_truediv PROPOSER_SCORE_BOOST 100 in
  do committee <- py_float (ceil_div (get_total_active_balance ci) SLOTS_PER_EPOCH);
  Ok (boost * committee)%float.

(** The two sides of the comparison of [__is_one_lmd_confirmed]:
    [100 * support_without_proposer_boost] and
    [50 * maximum_support + 50 * proposer_score
     + self.confirmation_byzantine_threshold * 100 * maximum_support]. *)
Definition one_lmd_sides (self : ConfRule) (ci : conf_info)
    (support maximum_support : Z) : result (float * float) :=
  do proposer_score <- proposer_score ci;
  do support_f <- py_float support;
  let support_without_proposer_boost := (support_f - proposer_score)%float in
  let lhs := (100 * support_without_proposer_boost)%float in
  do half_maximum <- py_float (50 * maximum_support);
  let rhs1 := (half_maximum + 50 * proposer_score)%float in
  do maximum_f <- py_float maximum_support;
  let rhs :=
    (rhs1 + confirmation_byzantine_threshold self * 100 * maximum_f)%float in
  Ok (lhs, rhs).

Definition is_one_lmd_confirmed (self : ConfRule) (ci : conf_info) (block_root : string)
    : result bool :=
  do node <- get_node ci block_root;
  let support := node_weight node in
  let parent_root := node_parent_root node in
  do parent <- get_node ci parent_root;
  let parent_slot := node_slot parent in
  let maximum_support :=
    get_committee_weight_between_slots ci (parent_slot + 1) (current_slot self) in
  do sides <- one_lmd_sides self ci support maximum_support;
  Ok (snd sides <? fst sides)%float.

Fixpoint is_lmd_confirmed (fuel : nat) (self : ConfRule) (ci : conf_info)
    (block_root : string) : result bool :=
  match fuel with
  | O => Err OutOfFuel
  | S fuel' =>
      do node <- get_node ci block_root;
      if String.eqb (ci_finalized_checkpoint ci) block_root
         || opt_root_eqb (confirmed_head_root self) block_root
      then Ok true
      else
        let parent_root := node_parent_root node in
        do one <- is_one_lmd_confirmed self ci block_root;
        if one then is_lmd_confirmed fuel' self ci parent_root else Ok false
  end.

(** ** FFG safety *)

(** The [while] loop of [__get_ancestor]; [fuel] bounds its iterations. *)
Fixpoint get_ancestor_loop (fuel : nat) (ci : conf_info) (node : node) (slot : Z)
    : result string :=
  if slot <? node_slot node then
    match fuel with
    | O => Err OutOfFuel
    | S fuel' =>
        do parent <- get_node ci (node_parent_root node);
        get_ancestor_loop fuel' ci parent slot
    end
  else Ok (node_block_root node).

Definition get_ancestor (fuel : nat) (block_root : string) (slot : Z) (ci : conf_info)
    : result string :=
  do node <- get_node ci block_root;
  get_ancestor_loop fuel ci node slot.

Definition get_checkpoint_block (fuel : nat) (block_root : string) (ci : conf_info)
    (block_epoch : Z) : result string :=
  let checkpoint_slot := block_epoch * SLOTS_PER_EPOCH in
  get_ancestor fuel block_root checkpoint_slot ci.

Definition get_checkpoint_ffg_support (fuel : nat) (block_root : string)
    (ci : conf_info) (block_epoch : Z) : result (string * float) :=
  do checkpoint_root <- get_checkpoint_block fuel block_root ci block_epoch;
  do node <- get_node ci checkpoint_root;
  do proposer_boost_weight <- proposer_score ci;
  do weight_f <- py_float (node_weight node);
  Ok (checkpoint_root, (weight_f - proposer_boost_weight)%float).

(** The two sides of the comparison of [__is_ffg_confirmed]:
    [(2 / 3) * total_validators_weight] and
    [checkpoint_ffg_support - max_adversarial_ffg_support
     + (1 - self.confirmation_byzantine_threshold) * remaining_weight_in_epoch]. *)
Definition ffg_sides (self : ConfRule) (ci : conf_info) (checkpoint_ffg_support : float)
    : result (float * float) :=
  let total_validators_weight := get_total_active_balance ci in
  let remaining_weight_in_epoch := get_remaining_weight_in_epoch self ci in
  do cast_f <- py_float (total_validators_weight - remaining_weight_in_epoch);
  do total_f <- py_float total_validators_weight;
  let max_adversarial_ffg_support :=
    py_min3
      (confirmation_byzantine_threshold self * cast_f)%float
      (confirmation_slashing_threshold self * total_f)%float
      checkpoint_ffg_support in
  do remaining_f <- py_float remaining_weight_in_epoch;
  Ok ((py_truediv 2 3 * total_f)%float,
      (checkpoint_ffg_support - max_adversarial_ffg_support
       + (1 - confirmation_byzantine_threshold self) * remaining_f)%float).

(** The value [__is_ffg_confirmed] computes, with the checkpoint it is about,
    before the update of [self.ffg_confirmed_checkpoint]. *)
Definition ffg_check (fuel : nat) (self : ConfRule) (ci : conf_info) (block_root : string)
    : result (string * bool) :=
  do node <- get_node ci block_root;
  let block_slot := node_slot node in
  let block_epoch := compute_epoch_at_slot block_slot in
  let current_epoch := compute_epoch_at_slot (current_slot self) in
  if negb (block_epoch =? current_epoch) then Err (AssertionError FfgEpoch)
  else
    do support <- get_checkpoint_ffg_support fuel block_root ci block_epoch;
    let checkpoint_root := fst support in
    let checkpoint_ffg_support := snd support in
    do sides <- ffg_sides self ci checkpoint_ffg_support;
    let is_confirmed := (fst sides <=? snd sides)%float in
    Ok (checkpoint_root, is_confirmed).

Definition is_ffg_confirmed (fuel : nat) (ci : conf_info) (block_root : string)
    (self : ConfRule) : ConfRule * result bool :=
  match ffg_check fuel self ci block_root with
  | Err e => (self, Err e)
  | Ok (checkpoint_root, is_confirmed) =>
      if is_confirmed && ((current_slot self + 1) mod SLOTS_PER_EPOCH =? 0)
      then (set_ffg_confirmed_checkpoint checkpoint_root self, Ok is_confirmed)
      else (self, Ok is_confirmed)
  end.

(** ** Combining LMD and FFG safety *)

Definition is_confirmed (fuel : nat) (ci : conf_info) (block_root : string)
    (self : ConfRule) : ConfRule * result bool :=
  let current_epoch := compute_epoch_at_slot (current_slot self) in
  match get_node ci block_root with
  | Err e => (self, Err e)
  | Ok block =>
  let block_slot := node_slot block in
  let block_epoch := compute_epoch_at_slot block_slot in
  if String.eqb (ci_finalized_checkpoint ci) block_root
     || opt_root_eqb (confirmed_head_root self) block_root
  then (self, Ok true)
  else
  match get_checkpoint_block fuel block_root ci (current_epoch - 1) with
  | Err e => (self, Err e)
  | Ok second_highest_checkpoint_root =>
  if block_epoch =? current_epoch then
    match is_lmd_confirmed fuel self ci block_root with
    | Err e => (self, Err e)
    | Ok is_lmd_confirmed =>
        if (String.eqb second_highest_checkpoint_root (ci_justified_checkpoint ci)
            || String.eqb second_highest_checkpoint_root (ci_finalized_checkpoint ci))
           && is_lmd_confirmed
        then is_ffg_confirmed fuel ci block_root self
        else (self, Ok false)
    end
  else if block_epoch =? current_epoch - 1 then
    if String.eqb second_highest_checkpoint_root (ci_finalized_checkpoint ci) then
      (self, is_lmd_confirmed fuel self ci block_root)
    else
      match get_checkpoint_block fuel block_root ci (current_epoch - 2) with
      | Err e => (self, Err e)
      | Ok third_highest_checkpoint_root =>
          match is_lmd_confirmed fuel self ci block_root with
          | Err e => (self, Err e)
          | Ok is_lmd_confirmed =>
              (self,
               Ok (opt_root_eqb (ffg_confirmed_checkpoint self)
                     second_highest_checkpoint_root
                   && String.eqb second_highest_checkpoint_root
                        (ci_justified_checkpoint ci)
                   && is_lmd_confirmed
                   && String.eqb third_highest_checkpoint_root
                        (ci_finalized_checkpoint ci)))
          end
      end
  else (self, Ok false)
  end
  end.

(** [fuel] bounds the loops and recursions of each [is_confirmed] call,
    [depth] the recursion of the walk itself. *)
Fixpoint find_confirmed_block_head (fuel depth : nat) (ci : conf_info)
    (block_root : string) (self : ConfRule) : ConfRule * result string :=
  match depth with
  | O => (self, Err OutOfFuel)
  | S depth' =>
      match is_confirmed fuel ci block_root self with
      | (self', Err e) => (self', Err e)
      | (self', Ok true) => (self', Ok block_root)
      | (self', Ok false) =>
          match get_node ci block_root with
          | Err e => (self', Err e)
          | Ok block =>
              find_confirmed_block_head fuel depth' ci (node_parent_root block) self'
          end
      end
  end.

(** ** Confirmation times and empty or forked slots *)

Definition deal_with_empty_or_forked_slot (slot : Z) (self : ConfRule) : ConfRule :=
  set_empty_or_forked_slots (empty_or_forked_slots self ++ [slot]) self.

(** [range(a, b)] *)
Definition py_range (a b : Z) : list Z := seqZ a (b - a).

(** [for slot in range(a, b): self.__deal_with_empty_or_forked_slot(slot)] *)
Definition deal_with_range (a b : Z) (self : ConfRule) : ConfRule :=
  foldl (fun s slot => deal_with_empty_or_forked_slot slot s) self (py_range a b).

(** The [while] loop of [__compute_conf_times]; it returns the final
    [pre_slot] and [conf_times]. *)
Fixpoint compute_conf_times_loop (fuel : nat) (ci : conf_info)
    (old_head_root : option string) (old_head_slot : Z)
    (cur_root : string) (pre_slot : Z) (conf_times : list Z) (self : ConfRule)
    : ConfRule * result (Z * list Z) :=
  if opt_root_eqb old_head_root cur_root then (self, Ok (pre_slot, conf_times))
  else
    match fuel with
    | O => (self, Err OutOfFuel)
    | S fuel' =>
        match get_node ci cur_root with
        | Err e => (self, Err e)
        | Ok cur_node =>
            let cur_slot := node_slot cur_node in
            if cur_slot <=? old_head_slot then
              (set_logger (logger self ++ [Error_confirmed_block_forked]) self,
               Ok (pre_slot, conf_times))
            else
              let self1 :=
                if 1 <? pre_slot - cur_slot
                then deal_with_range (cur_slot + 1) pre_slot self
                else self in
              let time :=
                (current_slot self1 - cur_slot) * SLOT_LEN + time_in_current_slot self1 in
              compute_conf_times_loop fuel' ci old_head_root old_head_slot
                (node_parent_root cur_node) cur_slot (conf_times ++ [time]) self1
        end
    end.

Definition compute_conf_times (fuel : nat) (new_head_root : string) (ci : conf_info)
    (self : ConfRule) : ConfRule * result (list Z) :=
  let old_head_slot := confirmed_head_slot self in
  let old_head_root := confirmed_head_root self in
  match get_node ci new_head_root with
  | Err e => (self, Err e)
  | Ok new_head =>
      match compute_conf_times_loop fuel ci old_head_root old_head_slot
              new_head_root (node_slot new_head) [] self with
      | (self', Err e) => (self', Err e)
      | (self', Ok (pre_slot, conf_times)) =>
          let self'' :=
            if 1 <? pre_slot - old_head_slot
            then deal_with_range (old_head_slot + 1) pre_slot self'
            else self' in
          (self'', Ok conf_times)
      end
  end.

Definition get_time_from_last_confirmed_block (self : ConfRule) : Z :=
  (current_slot self - confirmed_head_slot self) * SLOT_LEN + time_in_current_slot self.

(** ** The public transition *)

(** Lines 74 to 87: what [update_confirmed_head] does with the candidate
    confirmed head once it is found. *)
Definition record_progress (fuel : nat) (record_conf_time : bool) (ci : conf_info)
    (new_head_root : string) (new_head_slot : Z) (self : ConfRule)
    : ConfRule * result unit :=
  let finish (s : ConfRule) :=
    (set_times_from_confirmed_head
       (times_from_confirmed_head s ++ [get_time_from_last_confirmed_block s]) s,
     Ok tt) in
  if confirmed_head_slot self <? new_head_slot then
    if record_conf_time then
      match compute_conf_times fuel new_head_root ci self with
      | (self', Err e) => (self', Err e)
      | (self', Ok times) =>
          finish (set_confirmed_head new_head_root new_head_slot
                    (set_conf_times (conf_times self' ++ times) self'))
      end
    else finish (set_confirmed_head new_head_root new_head_slot self)
  else if new_head_slot =? confirmed_head_slot self then finish self
  else
    finish (set_logger
              (logger self
               ++ [Warning_head_goes_backwards (confirmed_head_slot self) new_head_slot])
              self).

Definition update_confirmed_head (fuel : nat) (ci : conf_info) (self : ConfRule)
    : ConfRule * result unit :=
  let new_slot := ci_current_slot ci in
  if new_slot <? current_slot self then (self, Err (AssertionError SlotOrder))
  else
    let record_conf_time := negb (current_slot self + 1 <? new_slot) in
    let self1 := set_clock new_slot (ci_current_time_in_slot ci) self in
    match find_head_root ci with
    | Err e => (self1, Err e)
    | Ok head_root =>
        match find_confirmed_block_head fuel fuel ci head_root self1 with
        | (self2, Err e) => (self2, Err e)
        | (self2, Ok new_head_root) =>
            match get_node ci new_head_root with
            | Err e => (self2, Err e)
            | Ok new_head =>
                record_progress fuel record_conf_time ci new_head_root
                  (node_slot new_head) self2
            end
        end
    end.

(** [execute_rule] of [analyze_data.py]: the snapshots are applied in order
    and the first exception ends the run. *)
Fixpoint execute_rule (fuel : nat) (snapshots : list conf_info) (rule : ConfRule)
    : ConfRule * result unit :=
  match snapshots with
  | [] => (rule, Ok tt)
  | ci :: rest =>
      match update_confirmed_head fuel ci rule with
      | (rule', Err e) => (rule', Err e)
      | (rule', Ok _) => execute_rule fuel rest rule'
      end
  end.

(** ** Accessors *)

Definition get_conf_times (self : ConfRule) : list Z := conf_times self.

Definition get_num_of_processed_slots (self : ConfRule) : nat :=
  size (processed_slots self).

Definition get_empty_or_forked_slots (self : ConfRule) : list Z :=
  empty_or_forked_slots self.

(** ** The reporting of [analyze_data.py] *)

(** [log_data_collection_time_period]: the days, hours and minutes it logs
    for a number of processed slots. *)
Definition log_data_collection_time_period (num_of_processed_slots : Z) : Z * Z * Z :=
  let data_collection_time := 12 * num_of_processed_slots in
  let data_collection_days := data_collection_time / (60 * 60 * 24) in
  let data_collection_hours := data_collection_time mod (60 * 60 * 24) / (60 * 60) in
  let data_collection_mins := data_collection_time mod (60 * 60) / 60 in
  (data_collection_days, data_collection_hours, data_collection_mins).

(** ** The snapshot assembled by [collect_data.py] *)

(** [d[k] = v] on a dictionary: an existing key keeps its place. *)
Fixpoint dict_set (k : string) (v : node) (d : list (string * node))
    : list (string * node) :=
  match d with
  | [] => [(k, v)]
  | (k', v') :: d' =>
      if String.eqb k' k then (k', v) :: d' else (k', v') :: dict_set k v d'
  end.

(** The loops of [get_confirmation_context] over the answers of the beacon
    node, and the assignment of [current_time_in_slot] in [run]: the
    committee size is the number of validators over all committees of the
    slot, and the fork-choice nodes are keyed by their [block_root].  The
    queries themselves and their failures are not part of this function. *)
Definition get_confirmation_context (current_slot time_in_current_slot : Z)
    (justified_root finalized_root : string) (fork_choice_nodes : list node)
    (head_committee : list (list string)) : conf_info :=
  let committee_size :=
    foldl (fun size comm => size + Z.of_nat (length comm)) 0 head_committee in
  let nodes :=
    foldl (fun nodes node => dict_set (node_block_root node) node nodes)
      [] fork_choice_nodes in
  {| ci_current_slot := current_slot;
     ci_current_time_in_slot := time_in_current_slot;
     ci_justified_checkpoint := justified_root;
     ci_finalized_checkpoint := finalized_root;
     ci_nodes := nodes;
     ci_committee_size := committee_size |}.

(** * Definitions used in the statements

    Predicates, relations and example inputs the properties below are
    stated with. *)

(** The range contains every slot of some epoch [k]. *)
Definition covers_full_epoch (start_slot end_slot : Z) : Prop :=
  exists k : Z,
    start_slot <= k * SLOTS_PER_EPOCH /\ (k + 1) * SLOTS_PER_EPOCH - 1 <= end_slot.

(** The weight of the committee of one slot. *)
Definition slot_weight (ci : conf_info) : Z := ci_committee_size ci * VALIDATOR_BALANCE.

(** A snapshot without blocks, for statements about committee weights only. *)
Definition snapshot_of_committee_size (size : Z) : conf_info := {|
  ci_current_slot := 0;
  ci_current_time_in_slot := 0;
  ci_justified_checkpoint := "";
  ci_finalized_checkpoint := "";
  ci_nodes := [];
  ci_committee_size := size
|}.

(** Whether a float holds an integral value. *)
Definition float_is_integer (f : float) : bool :=
  match Prim2SF f with
  | S754_zero _ => true
  | S754_finite _ m e => (0 <=? e) || (Z.pos m mod 2 ^ (- e) =? 0)
  | _ => false
  end.

(** An engine with the thresholds 0.1 and 0.05. *)
Definition example_rule : ConfRule := init (py_truediv 1 10) (py_truediv 1 20).

(** An entry of [nodes], keyed by its own [block_root]. *)
Definition example_node (root : string) (slot : Z) (parent : string) (weight : Z)
    : string * node :=
  (root,
   {| node_block_root := root; node_slot := slot;
      node_parent_root := parent; node_weight := weight |}).

(** A chain in epoch 2 above the justified checkpoint at slot 32, with empty
    slots between its blocks, seen at slot 77 by 100 validators per slot. *)
Definition example_snapshot : conf_info := {|
  ci_current_slot := 77;
  ci_current_time_in_slot := 3;
  ci_justified_checkpoint := "c1";
  ci_finalized_checkpoint := "c0";
  ci_nodes :=
    [ example_node "c0" 0 "genesis" (3000 * 100 * VALIDATOR_BALANCE);
      example_node "c1" 32 "c0" (3000 * 100 * VALIDATOR_BALANCE);
      example_node "b64" 64 "c1" (14 * 100 * VALIDATOR_BALANCE);
      example_node "b70" 70 "b64" (8 * 100 * VALIDATOR_BALANCE);
      example_node "b73" 73 "b70" (5 * 100 * VALIDATOR_BALANCE);
      example_node "b77" 77 "b73" (1 * 100 * VALIDATOR_BALANCE) ];
  ci_committee_size := 100
|}.

(** The engine at slot 77 with the block of slot 70 confirmed. *)
Definition example_engine : ConfRule :=
  set_clock 77 3 (set_confirmed_head "b70" 70 example_rule).

(** [checkpoint] is the highest ancestor of [root] at or below [slot]: the
    first block on the parent chain of [root] whose slot does not exceed
    [slot]. *)
Inductive highest_ancestor_at_or_below (ci : conf_info) (slot : Z)
    : string -> string -> Prop :=
| ancestor_here (root : string) (n : node) :
    dict_get root (ci_nodes ci) = Some n ->
    node_slot n <= slot ->
    highest_ancestor_at_or_below ci slot root (node_block_root n)
| ancestor_above (root : string) (n : node) (checkpoint : string) :
    dict_get root (ci_nodes ci) = Some n ->
    slot < node_slot n ->
    highest_ancestor_at_or_below ci slot (node_parent_root n) checkpoint ->
    highest_ancestor_at_or_below ci slot root checkpoint.

Definition is_assertion_error {A : Type} (r : result A) : bool :=
  match r with
  | Err (AssertionError _) => true
  | _ => false
  end.

Definition is_ffg_assertion {A : Type} (r : result A) : bool :=
  match r with
  | Err (AssertionError FfgEpoch) => true
  | _ => false
  end.

(** The only field the search for the confirmed head can change is
    [ffg_confirmed_checkpoint]. *)
Definition same_except_ffg (self self' : ConfRule) : Prop :=
  self' = self \/ exists c : string, self' = set_ffg_confirmed_checkpoint c self.

(** [__compute_conf_times] changes only the anomaly list and the log. *)
Definition same_except_anomalies (self self' : ConfRule) : Prop :=
  exists (l : list log_event) (e : list Z),
    self' = set_logger l (set_empty_or_forked_slots e self).

(** The engine at slot 76 whose confirmed head, of slot 75, is a block the
    next snapshot no longer lists. *)
Definition example_engine_ahead : ConfRule :=
  set_clock 76 0 (set_confirmed_head "b75" 75 example_rule).

(** [visited] lists the blocks on the parent chain from [root] down to, and
    without, the block [old_root]. *)
Inductive parent_chain (ci : conf_info) (old_root : string)
    : string -> list node -> Prop :=
| chain_done : parent_chain ci old_root old_root []
| chain_step (root : string) (n : node) (rest : list node) :
    root <> old_root ->
    dict_get root (ci_nodes ci) = Some n ->
    parent_chain ci old_root (node_parent_root n) rest ->
    parent_chain ci old_root root (n :: rest).

(** [(self.current_slot - cur_slot) * SLOT_LEN + self.time_in_current_slot] *)
Definition conf_time (self : ConfRule) (n : node) : Z :=
  (current_slot self - node_slot n) * SLOT_LEN + time_in_current_slot self.

(** The slots the loop reports while it visits blocks of the given slots. *)
Fixpoint loop_gaps (pre_slot : Z) (slots : list Z) : list Z :=
  match slots with
  | [] => []
  | s :: rest => py_range (s + 1) pre_slot ++ loop_gaps s rest
  end.

Fixpoint last_slot (pre_slot : Z) (slots : list Z) : Z :=
  match slots with
  | [] => pre_slot
  | s :: rest => last_slot s rest
  end.

(** All the slots [__compute_conf_times] reports: those of the loop, then
    those between the old head and the last block visited. *)
Fixpoint reported_gaps (pre_slot : Z) (slots : list Z) (old_slot : Z) : list Z :=
  match slots with
  | [] => py_range (old_slot + 1) pre_slot
  | s :: rest => py_range (s + 1) pre_slot ++ reported_gaps s rest old_slot
  end.

(** The confirmed head jumps from slot 10 to slot 13; no block is known at
    the slots 11 and 12. *)
Definition gap_snapshot : conf_info := {|
  ci_current_slot := 13;
  ci_current_time_in_slot := 4;
  ci_justified_checkpoint := "b10";
  ci_finalized_checkpoint := "b10";
  ci_nodes :=
    [ example_node "b10" 10 "b9" (300 * VALIDATOR_BALANCE);
      example_node "b13" 13 "b10" (200 * VALIDATOR_BALANCE) ];
  ci_committee_size := 100
|}.

Definition gap_engine : ConfRule :=
  set_clock 13 4 (set_confirmed_head "b10" 10 example_rule).

(** What the safety checks read in [self], besides the confirmed head and
    the FFG-confirmed checkpoint. *)
Definition agree_clock (a b : ConfRule) : Prop :=
  current_slot a = current_slot b
  /\ confirmation_byzantine_threshold a = confirmation_byzantine_threshold b
  /\ confirmation_slashing_threshold a = confirmation_slashing_threshold b.

(** How a later state [b] of the engine may differ from the state [a] in
    which the walk stopped at [new_root]. *)
Record later_view (ci : conf_info) (new_root : string) (a b : ConfRule) : Prop := {
  later_clock : agree_clock a b;
  later_head :
    confirmed_head_root b = confirmed_head_root a
    \/ confirmed_head_root b = Some new_root;
  later_ffg :
    ffg_confirmed_checkpoint b = ffg_confirmed_checkpoint a
    \/ exists block : node,
         get_node ci new_root = Ok block
         /\ compute_epoch_at_slot (node_slot block)
            = compute_epoch_at_slot (current_slot a)
}.

(** The block [root] has a slot below the slot of the block [new_root]. *)
Definition slot_below (ci : conf_info) (root new_root : string) : Prop :=
  exists block new_head : node,
    get_node ci root = Ok block
    /\ get_node ci new_root = Ok new_head
    /\ node_slot block < node_slot new_head.

(** The engine at slot 76 with the block of slot 70 confirmed. *)
Definition example_engine_before : ConfRule :=
  set_clock 76 0 (set_confirmed_head "b70" 70 example_rule).

(** The entry [sorted(...)[-1]] selects: going through the dictionary from
    its end, the first entry whose raw slot is above all later ones. *)
Fixpoint head_entry (d : list (string * node)) : option (string * node) :=
  match d with
  | [] => None
  | x :: d' =>
      match head_entry d' with
      | None => Some x
      | Some y =>
          if String.ltb (raw_slot (snd y)) (raw_slot (snd x)) then Some x else Some y
      end
  end.

(** The order [sorted] puts the entries in. *)
Definition slot_le (x y : string * node) : Prop :=
  String.leb (raw_slot (snd x)) (raw_slot (snd y)) = true.

(** Two blocks whose slots have numerals of different lengths. *)
Definition numeral_snapshot : conf_info := {|
  ci_current_slot := 10;
  ci_current_time_in_slot := 0;
  ci_justified_checkpoint := "b9";
  ci_finalized_checkpoint := "b9";
  ci_nodes :=
    [ example_node "b9" 9 "b8" (300 * VALIDATOR_BALANCE);
      example_node "b10" 10 "b9" (200 * VALIDATOR_BALANCE) ];
  ci_committee_size := 100
|}.

(** All ancestors of [root] down to the finalized checkpoint or the
    confirmed head are in the snapshot and one-LMD-confirmed. *)
Inductive lmd_chain (self : ConfRule) (ci : conf_info) : string -> Prop :=
| lmd_chain_base (root : string) (n : node) :
    get_node ci root = Ok n ->
    ci_finalized_checkpoint ci = root \/ confirmed_head_root self = Some root ->
    lmd_chain self ci root
| lmd_chain_step (root : string) (n : node) :
    get_node ci root = Ok n ->
    is_one_lmd_confirmed self ci root = Ok true ->
    lmd_chain self ci (node_parent_root n) ->
    lmd_chain self ci root.

(** [stop] is the first block on the parent chain of [root] that
    [__is_confirmed] accepts; the blocks before it are rejected. *)
Inductive first_confirmed (fuel : nat) (ci : conf_info) (self : ConfRule)
    : string -> string -> Prop :=
| first_confirmed_here (root : string) (self' : ConfRule) :
    is_confirmed fuel ci root self = (self', Ok true) ->
    first_confirmed fuel ci self root root
| first_confirmed_above (root stop : string) (n : node) :
    is_confirmed fuel ci root self = (self, Ok false) ->
    get_node ci root = Ok n ->
    first_confirmed fuel ci self (node_parent_root n) stop ->
    first_confirmed fuel ci self root stop.

(** A snapshot whose lowest block, of slot 10, is not the finalized
    checkpoint and has its parent outside the snapshot. *)
Definition orphan_snapshot : conf_info := {|
  ci_current_slot := 13;
  ci_current_time_in_slot := 4;
  ci_justified_checkpoint := "b9";
  ci_finalized_checkpoint := "b9";
  ci_nodes :=
    [ example_node "b10" 10 "b9" (300 * VALIDATOR_BALANCE);
      example_node "b13" 13 "b10" (200 * VALIDATOR_BALANCE) ];
  ci_committee_size := 100
|}.

(** [self'] is [self] with entries appended to the anomaly list and to the
    log. *)
Definition anomalies_appended (self self' : ConfRule) : Prop :=
  exists (l : list log_event) (e : list Z),
    self' = set_logger (logger self ++ l)
              (set_empty_or_forked_slots (empty_or_forked_slots self ++ e) self).

(** The four lists of [self'] extend those of [self]. *)
Definition lists_extended (self self' : ConfRule) : Prop :=
  conf_times self `prefix_of` conf_times self'
  /\ empty_or_forked_slots self `prefix_of` empty_or_forked_slots self'
  /\ times_from_confirmed_head self `prefix_of` times_from_confirmed_head self'
  /\ logger self `prefix_of` logger self'.

(** [visited] lists the blocks on the parent chain from [root], all of a slot
    above [old_slot] and none the old head, down to a block that is not the
    old head either and whose slot is not above [old_slot]. *)
Inductive forked_chain (ci : conf_info) (old_root : option string) (old_slot : Z)
    : string -> list node -> Prop :=
| forked_end (root : string) (n : node) :
    old_root <> Some root ->
    dict_get root (ci_nodes ci) = Some n ->
    node_slot n <= old_slot ->
    forked_chain ci old_root old_slot root []
| forked_step (root : string) (n : node) (rest : list node) :
    old_root <> Some root ->
    dict_get root (ci_nodes ci) = Some n ->
    old_slot < node_slot n ->
    forked_chain ci old_root old_slot (node_parent_root n) rest ->
    forked_chain ci old_root old_slot root (n :: rest).

(** The engine two slots before [example_snapshot], with the block of slot 70
    as confirmed head. *)
Definition example_engine_two_before : ConfRule :=
  set_clock 75 0 (set_confirmed_head "b70" 70 example_rule).

(** [x <= y] on floats, as the interpreter compares them. *)
Definition float_le (x y : float) : Prop := (x <=? y)%float = true.

(** [m] is one of [a], [b] and [c] and is not above any of them. *)
Definition least_of_three (m a b c : float) : Prop :=
  (m = a \/ m = b \/ m = c) /\ float_le m a /\ float_le m b /\ float_le m c.

(** The exact rational value of a finite float. *)
Definition Q_of_float (f : float) : Q :=
  match Prim2SF f with
  | S754_finite s m e => (inject_Z (if s then Z.neg m else Z.pos m) * Qpower (2 # 1) e)%Q
  | _ => 0%Q
  end.

(** The one-LMD condition as the specification states it, over exact
    numbers: [100 * (weight - proposer_score)
              > 50 * maximum_support + 50 * proposer_score
                + byzantine * 100 * maximum_support],
    with [proposer_score] 40% of [ceil_div total SLOTS_PER_EPOCH]. *)
Definition one_lmd_condition_exact (byzantine : Q) (weight total maximum_support : Z)
    : bool :=
  let proposer_score := ((40 # 100) * inject_Z (ceil_div total SLOTS_PER_EPOCH))%Q in
  negb (Qle_bool
          ((100 # 1) * (inject_Z weight - proposer_score))
          ((50 # 1) * inject_Z maximum_support + (50 # 1) * proposer_score
           + byzantine * (100 # 1) * inject_Z maximum_support))%Q.

(** The FFG condition as the specification states it, over exact numbers:
    [(2/3) * total <= support - max_adversarial + (1 - byzantine) * remaining],
    with [support] the checkpoint's weight less the proposer boost and
    [max_adversarial] the minimum of [byzantine * (total - remaining)],
    [slashing * total] and [support]. *)
Definition ffg_condition_exact (byzantine slashing : Q)
    (total remaining checkpoint_weight : Z) : bool :=
  let proposer_boost := ((40 # 100) * inject_Z (ceil_div total SLOTS_PER_EPOCH))%Q in
  let support := (inject_Z checkpoint_weight - proposer_boost)%Q in
  let max_adversarial :=
    Qmin (Qmin (byzantine * inject_Z (total - remaining)) (slashing * inject_Z total))%Q
         support in
  Qle_bool ((2 # 3) * inject_Z total)
           (support - max_adversarial + (1 - byzantine) * inject_Z remaining)%Q.

(** An engine with the thresholds 1/4 and 1/8, which a float holds exactly,
    at the last slot of epoch 2, and a snapshot of that slot with 31250
    validators per slot (a million validators, 3.2e16 Gwei in all): the
    checkpoint of epoch 2 is the block of slot 64, of the given weight. *)
Definition mainnet_rule : ConfRule := init (py_truediv 1 4) (py_truediv 1 8).

Definition mainnet_engine : ConfRule := set_clock 95 0 mainnet_rule.

Definition mainnet_snapshot (checkpoint_weight : Z) : conf_info := {|
  ci_current_slot := 95;
  ci_current_time_in_slot := 0;
  ci_justified_checkpoint := "c1";
  ci_finalized_checkpoint := "c0";
  ci_nodes :=
    [ example_node "c0" 0 "genesis" (3 * 10 ^ 16);
      example_node "c1" 32 "c0" (3 * 10 ^ 16);
      example_node "b64" 64 "c1" checkpoint_weight;
      example_node "b90" 90 "b64" (2 * 10 ^ 16) ];
  ci_committee_size := 31250
|}.

(** * Properties *)

(** ** Ceiling division *)

Lemma ceil_div_spec (n d : Z) :
  0 < d -> d * (ceil_div n d - 1) < n /\ n <= d * ceil_div n d.
Proof.
  intros Hd. unfold ceil_div.
  destruct (Z.eqb_spec (n mod d) 0) as [E | E];
    pose proof (Z.div_mod n d ltac:(lia)) as Hdm;
    pose proof (Z.mod_pos_bound n d Hd) as Hb; nia.
Qed.

Lemma ceil_div_mono (n m d : Z) :
  0 < d -> n <= m -> ceil_div n d <= ceil_div m d.
Proof.
  intros Hd Hnm.
  destruct (ceil_div_spec n d Hd) as [Hn1 Hn2].
  destruct (ceil_div_spec m d Hd) as [Hm1 Hm2].
  nia.
Qed.

Lemma ceil_div_exact (k d : Z) : 0 < d -> ceil_div (k * d) d = k.
Proof.
  intros Hd. unfold ceil_div.
  rewrite Z.mod_mul by lia. simpl. apply Z.div_mul. lia.
Qed.

Lemma ceil_div_nonneg (n d : Z) : 0 < d -> 0 <= n -> 0 <= ceil_div n d.
Proof.
  intros Hd Hn. destruct (ceil_div_spec n d Hd) as [H1 H2]. nia.
Qed.

Lemma adjust_ge (x : Z) :
  0 <= x -> x <= adjust_committee_weight_estimate_to_ensure_safety x.
Proof.
  intros Hx. unfold adjust_committee_weight_estimate_to_ensure_safety,
    COMMITTEE_WEIGHT_ESTIMATION_ADJUSTMENT_FACTOR.
  destruct (ceil_div_spec (x * (1000 + 5)) 1000 ltac:(lia)) as [H1 H2]. lia.
Qed.

Lemma adjust_mono (x y : Z) :
  x <= y ->
  adjust_committee_weight_estimate_to_ensure_safety x
  <= adjust_committee_weight_estimate_to_ensure_safety y.
Proof.
  intros Hxy. unfold adjust_committee_weight_estimate_to_ensure_safety.
  apply ceil_div_mono; unfold COMMITTEE_WEIGHT_ESTIMATION_ADJUSTMENT_FACTOR; lia.
Qed.

(** ** Full coverage of the validator set *)

Lemma is_full_validator_set_covered_iff (s e : Z) :
  is_full_validator_set_covered s e = true <-> covers_full_epoch s e.
Proof.
  unfold is_full_validator_set_covered, covers_full_epoch, compute_epoch_at_slot,
    SLOTS_PER_EPOCH.
  split.
  - intros H. apply orb_true_iff in H as [H | H].
    + apply Z.ltb_lt in H. exists (s / 32 + 1).
      Z.div_mod_to_equations. lia.
    + apply andb_true_iff in H as [Hb Hl]. apply Z.leb_le in Hl.
      apply orb_true_iff in Hb as [Hb | Hb]; apply Z.eqb_eq in Hb.
      * exists (s / 32). Z.div_mod_to_equations. lia.
      * exists ((e + 1) / 32 - 1). Z.div_mod_to_equations. lia.
  - intros [k [Hs He]]. apply orb_true_iff.
    destruct (Z.ltb_spec (s / 32 + 1) (e / 32)) as [Hlt | Hge]; [now left | right].
    apply andb_true_iff. split.
    + apply orb_true_iff.
      destruct (Z.eqb_spec (s mod 32) 0) as [E | E]; [now left | right].
      apply Z.eqb_eq. Z.div_mod_to_equations. lia.
    + apply Z.leb_le. lia.
Qed.

Lemma covers_full_epoch_extend (s e e' : Z) :
  e <= e' -> covers_full_epoch s e -> covers_full_epoch s e'.
Proof. intros Hle [k [Hs He]]. exists k. split; lia. Qed.

(** ** Committee weight, in closed form *)

Lemma total_active_balance_slot_weight (ci : conf_info) :
  get_total_active_balance ci = slot_weight ci * SLOTS_PER_EPOCH.
Proof. unfold get_total_active_balance, slot_weight, SLOTS_PER_EPOCH. lia. Qed.

Lemma committee_weight_closed_form (ci : conf_info) (s e : Z) :
  get_committee_weight_between_slots ci s e =
    if e <? s then 0
    else if is_full_validator_set_covered s e then get_total_active_balance ci
    else if s / 32 =? e / 32 then (e - s + 1) * slot_weight ci
    else adjust_committee_weight_estimate_to_ensure_safety
           (ceil_div (((32 - s mod 32) * (32 - (e mod 32 + 1)) + 32 * (e mod 32 + 1))
                      * slot_weight ci) 32).
Proof.
  unfold get_committee_weight_between_slots, compute_epoch_at_slot.
  rewrite total_active_balance_slot_weight. unfold SLOTS_PER_EPOCH.
  destruct (e <? s); [reflexivity |].
  destruct (is_full_validator_set_covered s e); [reflexivity |].
  destruct (s / 32 =? e / 32).
  - replace ((e - s + 1) * (slot_weight ci * 32))
      with ((e - s + 1) * slot_weight ci * 32) by lia.
    apply ceil_div_exact. lia.
  - replace ((32 - s mod 32) * (32 - (e mod 32 + 1)) * (slot_weight ci * 32))
      with ((32 - s mod 32) * (32 - (e mod 32 + 1)) * slot_weight ci * 32) by lia.
    rewrite ceil_div_exact by lia.
    do 2 f_equal. lia.
Qed.

Lemma closed_form_numerator_nonneg (s e : Z) :
  0 <= (32 - s mod 32) * (32 - (e mod 32 + 1)) + 32 * (e mod 32 + 1).
Proof.
  pose proof (Z.mod_pos_bound s 32 ltac:(lia)).
  pose proof (Z.mod_pos_bound e 32 ltac:(lia)). nia.
Qed.

Lemma committee_weight_nonneg (ci : conf_info) (s e : Z) :
  0 <= ci_committee_size ci -> 0 <= get_committee_weight_between_slots ci s e.
Proof.
  intros Hc. rewrite committee_weight_closed_form.
  assert (HW : 0 <= slot_weight ci) by (unfold slot_weight, VALIDATOR_BALANCE; lia).
  destruct (Z.ltb_spec e s); [lia |].
  destruct (is_full_validator_set_covered s e).
  { rewrite total_active_balance_slot_weight. unfold SLOTS_PER_EPOCH. lia. }
  destruct (s / 32 =? e / 32); [nia |].
  pose proof (closed_form_numerator_nonneg s e) as Hn.
  assert (H0 : 0 <= ceil_div
    (((32 - s mod 32) * (32 - (e mod 32 + 1)) + 32 * (e mod 32 + 1)) * slot_weight ci) 32).
  { apply ceil_div_nonneg; [lia | nia]. }
  pose proof (adjust_ge _ H0). lia.
Qed.

(** ** Committee weight over a range that covers an epoch *)

Lemma committee_weight_covering (ci : conf_info) (s e : Z) :
  covers_full_epoch s e ->
  get_committee_weight_between_slots ci s e = get_total_active_balance ci.
Proof.
  intros Hcov. rewrite committee_weight_closed_form.
  destruct (Z.ltb_spec e s) as [Hlt | _].
  - destruct Hcov as [k [Hs He]]. unfold SLOTS_PER_EPOCH in *. lia.
  - apply is_full_validator_set_covered_iff in Hcov. now rewrite Hcov.
Qed.

(** C3. Whenever the range [start_slot .. end_slot] fully covers an epoch
    [k] (it starts at or before the first slot of the epoch and ends at or
    after its last slot), the committee weight is the total active balance
    itself, with no adjustment; in particular this is so for the single
    epoch [k * SLOTS_PER_EPOCH .. (k + 1) * SLOTS_PER_EPOCH - 1]. *)
Theorem committee_weight_full_epoch (ci : conf_info) (start_slot end_slot k : Z) :
  start_slot <= k * SLOTS_PER_EPOCH ->
  (k + 1) * SLOTS_PER_EPOCH - 1 <= end_slot ->
  get_committee_weight_between_slots ci start_slot end_slot
    = get_total_active_balance ci
  /\ get_committee_weight_between_slots ci
       (k * SLOTS_PER_EPOCH) ((k + 1) * SLOTS_PER_EPOCH - 1)
     = get_total_active_balance ci.
Proof.
  intros Hs He. split; apply committee_weight_covering; exists k.
  - split; assumption.
  - unfold SLOTS_PER_EPOCH. split; lia.
Qed.

Lemma committee_weight_full_epoch_witness :
  get_committee_weight_between_slots (snapshot_of_committee_size 100) 30 70
    = get_total_active_balance (snapshot_of_committee_size 100)
  /\ get_committee_weight_between_slots (snapshot_of_committee_size 100)
       (1 * SLOTS_PER_EPOCH) ((1 + 1) * SLOTS_PER_EPOCH - 1)
     = get_total_active_balance (snapshot_of_committee_size 100).
Proof.
  apply (committee_weight_full_epoch (snapshot_of_committee_size 100) 30 70 1);
    unfold SLOTS_PER_EPOCH; lia.
Defined.

(** ** Committee weight as the end slot grows *)

Lemma committee_weight_empty_range (ci : conf_info) (s e : Z) :
  e < s -> get_committee_weight_between_slots ci s e = 0.
Proof.
  intros H. unfold get_committee_weight_between_slots.
  destruct (Z.ltb_spec e s); [reflexivity | lia].
Qed.

Lemma committee_weight_mono_below_full (ci : conf_info) (s e e' : Z) :
  0 <= ci_committee_size ci ->
  e <= e' ->
  is_full_validator_set_covered s e' = false ->
  get_committee_weight_between_slots ci s e
  <= get_committee_weight_between_slots ci s e'.
Proof.
  intros Hc Hle Hnf.
  destruct (Z.lt_ge_cases e s) as [Hes | Hse].
  { rewrite committee_weight_empty_range by assumption.
    now apply committee_weight_nonneg. }
  assert (Hnf0 : is_full_validator_set_covered s e = false).
  { destruct (is_full_validator_set_covered s e) eqn:E; [| reflexivity].
    apply is_full_validator_set_covered_iff in E.
    apply (covers_full_epoch_extend s e e' Hle) in E.
    apply is_full_validator_set_covered_iff in E. congruence. }
  assert (HW : 0 <= slot_weight ci) by (unfold slot_weight, VALIDATOR_BALANCE; lia).
  rewrite !committee_weight_closed_form, Hnf, Hnf0.
  destruct (Z.ltb_spec e s); [lia |]. destruct (Z.ltb_spec e' s); [lia |].
  (* the range ends in the start epoch or in the next one *)
  assert (Hep : e' / 32 <= s / 32 + 1).
  { unfold is_full_validator_set_covered, compute_epoch_at_slot, SLOTS_PER_EPOCH in Hnf.
    apply orb_false_iff in Hnf as [Hnf _]. apply Z.ltb_ge in Hnf. lia. }
  pose proof (Z.mod_pos_bound s 32 ltac:(lia)) as Hms.
  pose proof (Z.mod_pos_bound e 32 ltac:(lia)) as Hme.
  pose proof (Z.mod_pos_bound e' 32 ltac:(lia)) as Hme'.
  pose proof (Z.div_mod s 32 ltac:(lia)) as Hds.
  pose proof (Z.div_mod e 32 ltac:(lia)) as Hde.
  pose proof (Z.div_mod e' 32 ltac:(lia)) as Hde'.
  assert (Hse_ep : s / 32 <= e / 32) by (apply Z.div_le_mono; lia).
  assert (Hee_ep : e / 32 <= e' / 32) by (apply Z.div_le_mono; lia).
  destruct (Z.eqb_spec (s / 32) (e / 32)) as [E1 | E1];
    destruct (Z.eqb_spec (s / 32) (e' / 32)) as [E2 | E2]; try lia.
  - (* both ends in the start epoch *) nia.
  - (* the longer range crosses the boundary *)
    set (num := ((32 - s mod 32) * (32 - (e' mod 32 + 1)) + 32 * (e' mod 32 + 1))
                * slot_weight ci).
    assert (Hnum : (e - s + 1) * slot_weight ci * 32 <= num) by (unfold num; nia).
    pose proof (ceil_div_mono _ _ 32 ltac:(lia) Hnum) as Hm.
    rewrite ceil_div_exact in Hm by lia.
    assert (Hc0 : 0 <= ceil_div num 32) by nia.
    pose proof (adjust_ge _ Hc0). lia.
  - (* both ranges cross the boundary *)
    apply adjust_mono, ceil_div_mono; [lia |].
    assert (Hmod : e mod 32 <= e' mod 32) by lia.
    assert (Hgain : 0 <= (e' mod 32 - e mod 32) * (s mod 32) * slot_weight ci).
    { apply Z.mul_nonneg_nonneg; [apply Z.mul_nonneg_nonneg |]; lia. }
    lia.
Qed.

Lemma committee_weight_constant_once_full (ci : conf_info) (s e e' : Z) :
  e <= e' ->
  is_full_validator_set_covered s e = true ->
  get_committee_weight_between_slots ci s e = get_total_active_balance ci
  /\ get_committee_weight_between_slots ci s e' = get_total_active_balance ci.
Proof.
  intros Hle Hf.
  apply is_full_validator_set_covered_iff in Hf.
  split; apply committee_weight_covering; [assumption |].
  now apply (covers_full_epoch_extend s e e').
Qed.

Lemma committee_weight_le_adjusted_total (ci : conf_info) (s e : Z) :
  0 <= ci_committee_size ci ->
  get_committee_weight_between_slots ci s e
  <= adjust_committee_weight_estimate_to_ensure_safety (get_total_active_balance ci).
Proof.
  intros Hc.
  assert (HW : 0 <= slot_weight ci) by (unfold slot_weight, VALIDATOR_BALANCE; lia).
  assert (HT : get_total_active_balance ci = 32 * slot_weight ci)
    by (rewrite total_active_balance_slot_weight; unfold SLOTS_PER_EPOCH; lia).
  pose proof (adjust_ge (get_total_active_balance ci) ltac:(lia)) as Htop.
  rewrite committee_weight_closed_form.
  destruct (Z.ltb_spec e s); [lia |].
  destruct (is_full_validator_set_covered s e); [exact Htop |].
  pose proof (Z.mod_pos_bound s 32 ltac:(lia)) as Hms.
  pose proof (Z.mod_pos_bound e 32 ltac:(lia)) as Hme.
  destruct (Z.eqb_spec (s / 32) (e / 32)) as [Hep | Hep].
  - assert (e - s + 1 <= 32) by (Z.div_mod_to_equations; lia).
    assert ((e - s + 1) * slot_weight ci <= 32 * slot_weight ci)
      by (apply Z.mul_le_mono_nonneg_r; lia).
    lia.
  - apply adjust_mono. rewrite HT.
    assert (Hle : ((32 - s mod 32) * (32 - (e mod 32 + 1)) + 32 * (e mod 32 + 1))
                  * slot_weight ci <= 32 * slot_weight ci * 32) by nia.
    pose proof (ceil_div_mono _ _ 32 ltac:(lia) Hle) as Hm.
    rewrite ceil_div_exact in Hm by lia. exact Hm.
Qed.

Lemma committee_weight_mono_from_one_epoch (ci : conf_info) (s e e' : Z) :
  0 <= ci_committee_size ci ->
  s <= e -> e <= e' ->
  compute_epoch_at_slot s = compute_epoch_at_slot e ->
  get_committee_weight_between_slots ci s e
  <= get_committee_weight_between_slots ci s e'.
Proof.
  intros Hc Hse Hle Hep.
  destruct (is_full_validator_set_covered s e') eqn:Hf';
    [| now apply committee_weight_mono_below_full].
  apply is_full_validator_set_covered_iff in Hf'.
  rewrite (committee_weight_covering ci s e' Hf').
  assert (HW : 0 <= slot_weight ci) by (unfold slot_weight, VALIDATOR_BALANCE; lia).
  rewrite committee_weight_closed_form, total_active_balance_slot_weight.
  unfold compute_epoch_at_slot, SLOTS_PER_EPOCH in *.
  destruct (Z.ltb_spec e s); [lia |].
  destruct (is_full_validator_set_covered s e); [lia |].
  rewrite Hep, Z.eqb_refl.
  assert (e - s + 1 <= 32) by (Z.div_mod_to_equations; lia).
  assert ((e - s + 1) * slot_weight ci <= 32 * slot_weight ci)
    by (apply Z.mul_le_mono_nonneg_r; lia).
  lia.
Qed.

(** C4, as the code has it.  For a snapshot with a non-negative committee
    size and a fixed start slot, the committee weight is 0 when the start
    slot is past the end slot.  It does not decrease when the end slot grows,
    provided the shorter range is empty, or lies within one epoch, or covers a
    full epoch, or the longer range covers no full epoch; what is left is a
    shorter range over two epochs that covers none of them and a longer range
    that does.  Once a range covers a full epoch its weight is the total
    active balance, and stays so for every later end slot.  In every case the
    shorter range weighs no more than the longer one after the safety
    adjustment, [ceil_div (weight * 1005) 1000]. *)
Theorem committee_weight_monotone_up_to_adjustment
    (ci : conf_info) (start_slot end_slot end_slot' : Z) :
  0 <= ci_committee_size ci ->
  end_slot <= end_slot' ->
  (end_slot < start_slot ->
   get_committee_weight_between_slots ci start_slot end_slot = 0)
  /\ (end_slot < start_slot
      \/ compute_epoch_at_slot start_slot = compute_epoch_at_slot end_slot
      \/ is_full_validator_set_covered start_slot end_slot = true
      \/ is_full_validator_set_covered start_slot end_slot' = false ->
      get_committee_weight_between_slots ci start_slot end_slot
      <= get_committee_weight_between_slots ci start_slot end_slot')
  /\ (is_full_validator_set_covered start_slot end_slot = true ->
      get_committee_weight_between_slots ci start_slot end_slot
      = get_total_active_balance ci
      /\ get_committee_weight_between_slots ci start_slot end_slot'
         = get_total_active_balance ci)
  /\ get_committee_weight_between_slots ci start_slot end_slot
     <= adjust_committee_weight_estimate_to_ensure_safety
          (get_committee_weight_between_slots ci start_slot end_slot').
Proof.
  intros Hc Hle. split; [| split; [| split]].
  - apply committee_weight_empty_range.
  - intros [Hempty | [Hep | [Hf | Hnf']]].
    + rewrite committee_weight_empty_range by assumption.
      now apply committee_weight_nonneg.
    + destruct (Z.lt_ge_cases end_slot start_slot) as [Hempty | Hse].
      * rewrite committee_weight_empty_range by assumption.
        now apply committee_weight_nonneg.
      * apply committee_weight_mono_from_one_epoch; [assumption | lia | assumption ..].
    + destruct (committee_weight_constant_once_full ci _ _ _ Hle Hf) as [H1 H2]. lia.
    + now apply committee_weight_mono_below_full.
  - intros Hf. exact (committee_weight_constant_once_full ci _ _ _ Hle Hf).
  - destruct (is_full_validator_set_covered start_slot end_slot') eqn:Hf'.
    + apply is_full_validator_set_covered_iff in Hf'.
      rewrite (committee_weight_covering ci start_slot end_slot' Hf').
      now apply committee_weight_le_adjusted_total.
    + pose proof (committee_weight_mono_below_full ci _ _ _ Hc Hle Hf') as Hm.
      pose proof (committee_weight_nonneg ci start_slot end_slot' Hc) as Hn.
      pose proof (adjust_ge _ Hn). lia.
Qed.

Lemma committee_weight_monotone_up_to_adjustment_witness :
  let ci := snapshot_of_committee_size 100 in
  let cw := get_committee_weight_between_slots ci in
  (0 <= ci_committee_size ci /\ 3 <= 40 /\ 20 <= 63 /\ 63 <= 70 /\ 62 <= 63)
  /\ (cw 5 3 = 0 /\ cw 5 3 <= cw 5 40)
  /\ (is_full_validator_set_covered 1 63 = true /\ cw 1 20 <= cw 1 63)
  /\ (cw 1 63 = get_total_active_balance ci /\ cw 1 70 = get_total_active_balance ci)
  /\ (cw 1 63 < cw 1 62
      /\ cw 1 62 <= adjust_committee_weight_estimate_to_ensure_safety (cw 1 63)).
Proof.
  intros ci cw.
  assert (Hc : 0 <= ci_committee_size ci) by (simpl; lia).
  split; [repeat split; simpl; lia |].
  destruct (committee_weight_monotone_up_to_adjustment ci 5 3 40 Hc ltac:(lia))
    as (Hzero & Hmono1 & _ & _).
  destruct (committee_weight_monotone_up_to_adjustment ci 1 20 63 Hc ltac:(lia))
    as (_ & Hmono2 & _ & _).
  destruct (committee_weight_monotone_up_to_adjustment ci 1 63 70 Hc ltac:(lia))
    as (_ & _ & Hfull & _).
  destruct (committee_weight_monotone_up_to_adjustment ci 1 62 63 Hc ltac:(lia))
    as (_ & _ & _ & Hadj).
  split; [split; [apply Hzero; lia | apply Hmono1; left; lia] |].
  split; [split; [reflexivity | apply Hmono2; right; left; reflexivity] |].
  split; [apply Hfull; reflexivity |].
  split; [reflexivity | exact Hadj].
Defined.

(** C4 fails at the transition into full coverage: with one validator per
    slot, the range 1..62 is given 1028115000000 (the inflated estimate of
    1023/32 of an epoch) and the longer range 1..63, which covers epoch 1,
    the total active balance 1024000000000. *)
Lemma committee_weight_drops_at_full_coverage :
  (62 <=? 63) = true
  /\ get_committee_weight_between_slots (snapshot_of_committee_size 1) 1 62
     = 1028115000000
  /\ get_committee_weight_between_slots (snapshot_of_committee_size 1) 1 63
     = 1024000000000
  /\ get_committee_weight_between_slots (snapshot_of_committee_size 1) 1 63
     < get_committee_weight_between_slots (snapshot_of_committee_size 1) 1 62.
Proof. vm_compute. repeat split. Qed.

(** ** Integer and floating-point quantities *)

(** C9 fails on the FFG comparison: with one validator per slot its left
    side, two thirds of the total active balance 1024000000000, is a float
    strictly between 682666666666 and 682666666667. *)
Lemma ffg_left_side_not_integer :
  match ffg_sides example_rule (snapshot_of_committee_size 1) 0%float with
  | Ok (lhs, _) =>
      float_is_integer lhs
      || negb (PrimFloat.ltb (float_of_Z 682666666666) lhs
               && PrimFloat.ltb lhs (float_of_Z 682666666667))
  | Err _ => true
  end = false.
Proof. vm_compute. reflexivity. Qed.

(** C9, as the code has it.  The total active balance, the remaining weight
    in the epoch and the committee weight are integers, and each division in
    the committee weight is a ceiling division: inside one epoch the weight
    [w] is the least integer with [(end - start + 1) * total <= 32 * w], and
    across an epoch boundary it is obtained by three nested ceilings [a], [b]
    and [w] of the pro-rated sum and of its inflation by 1005/1000. *)
Theorem weight_estimator_integer_ceilings
    (self : ConfRule) (ci : conf_info) (start_slot end_slot : Z) :
  start_slot <= end_slot ->
  is_full_validator_set_covered start_slot end_slot = false ->
  let total := get_total_active_balance ci in
  let w := get_committee_weight_between_slots ci start_slot end_slot in
  let num_start := SLOTS_PER_EPOCH - start_slot mod SLOTS_PER_EPOCH in
  let num_end := end_slot mod SLOTS_PER_EPOCH + 1 in
  total = ci_committee_size ci * SLOTS_PER_EPOCH * VALIDATOR_BALANCE
  /\ get_remaining_weight_in_epoch self ci
     = (SLOTS_PER_EPOCH - current_slot self mod SLOTS_PER_EPOCH - 1)
       * ci_committee_size ci * VALIDATOR_BALANCE
  /\ (compute_epoch_at_slot start_slot = compute_epoch_at_slot end_slot ->
      SLOTS_PER_EPOCH * (w - 1) < (end_slot - start_slot + 1) * total
      /\ (end_slot - start_slot + 1) * total <= SLOTS_PER_EPOCH * w)
  /\ (compute_epoch_at_slot start_slot <> compute_epoch_at_slot end_slot ->
      exists a b : Z,
        (SLOTS_PER_EPOCH * (a - 1) < num_start * (SLOTS_PER_EPOCH - num_end) * total
         /\ num_start * (SLOTS_PER_EPOCH - num_end) * total <= SLOTS_PER_EPOCH * a)
        /\ (SLOTS_PER_EPOCH * (b - 1) < a + num_end * total
            /\ a + num_end * total <= SLOTS_PER_EPOCH * b)
        /\ (1000 * (w - 1) < 1005 * b /\ 1005 * b <= 1000 * w)).
Proof.
  intros Hle Hnf total w num_start num_end.
  split; [unfold total, get_total_active_balance; lia |].
  split; [reflexivity |].
  assert (Hw : w = get_committee_weight_between_slots ci start_slot end_slot)
    by reflexivity.
  unfold get_committee_weight_between_slots in Hw. rewrite Hnf in Hw.
  destruct (Z.ltb_spec end_slot start_slot) as [Hlt | _]; [lia |].
  fold total in Hw.
  split; intros Hep.
  - rewrite Hep, Z.eqb_refl in Hw. rewrite Hw.
    apply ceil_div_spec. unfold SLOTS_PER_EPOCH. lia.
  - destruct (Z.eqb_spec (compute_epoch_at_slot start_slot)
                (compute_epoch_at_slot end_slot)) as [E | _]; [contradiction |].
    fold num_start num_end in Hw.
    set (a := ceil_div (num_start * (SLOTS_PER_EPOCH - num_end) * total) SLOTS_PER_EPOCH)
      in Hw.
    set (b := ceil_div (a + num_end * total) SLOTS_PER_EPOCH) in Hw.
    exists a, b. split; [| split].
    + apply ceil_div_spec. unfold SLOTS_PER_EPOCH. lia.
    + apply ceil_div_spec. unfold SLOTS_PER_EPOCH. lia.
    + rewrite Hw. unfold adjust_committee_weight_estimate_to_ensure_safety,
        COMMITTEE_WEIGHT_ESTIMATION_ADJUSTMENT_FACTOR.
      replace (b * (1000 + 5)) with (1005 * b) by lia.
      apply ceil_div_spec. lia.
Qed.

Lemma weight_estimator_integer_ceilings_witness :
  (3 <= 40 /\ is_full_validator_set_covered 3 40 = false)
  /\ let ci := snapshot_of_committee_size 7 in
     let total := get_total_active_balance ci in
     let w := get_committee_weight_between_slots ci 3 40 in
     let num_start := SLOTS_PER_EPOCH - 3 mod SLOTS_PER_EPOCH in
     let num_end := 40 mod SLOTS_PER_EPOCH + 1 in
     total = ci_committee_size ci * SLOTS_PER_EPOCH * VALIDATOR_BALANCE
     /\ get_remaining_weight_in_epoch example_rule ci
        = (SLOTS_PER_EPOCH - current_slot example_rule mod SLOTS_PER_EPOCH - 1)
          * ci_committee_size ci * VALIDATOR_BALANCE
     /\ (compute_epoch_at_slot 3 = compute_epoch_at_slot 40 ->
         SLOTS_PER_EPOCH * (w - 1) < (40 - 3 + 1) * total
         /\ (40 - 3 + 1) * total <= SLOTS_PER_EPOCH * w)
     /\ (compute_epoch_at_slot 3 <> compute_epoch_at_slot 40 ->
         exists a b : Z,
           (SLOTS_PER_EPOCH * (a - 1) < num_start * (SLOTS_PER_EPOCH - num_end) * total
            /\ num_start * (SLOTS_PER_EPOCH - num_end) * total <= SLOTS_PER_EPOCH * a)
           /\ (SLOTS_PER_EPOCH * (b - 1) < a + num_end * total
               /\ a + num_end * total <= SLOTS_PER_EPOCH * b)
           /\ (1000 * (w - 1) < 1005 * b /\ 1005 * b <= 1000 * w)).
Proof.
  split.
  - split; [lia | reflexivity].
  - apply (weight_estimator_integer_ceilings example_rule
             (snapshot_of_committee_size 7) 3 40); [lia | reflexivity].
Defined.

(** ** The one-LMD safety condition *)

Lemma get_node_Some (ci : conf_info) (root : string) (n : node) :
  dict_get root (ci_nodes ci) = Some n -> get_node ci root = Ok n.
Proof. intros H. unfold get_node. now rewrite H. Qed.

(** What [__is_one_lmd_confirmed] computes.  For a block whose parent is in
    the snapshot, and integer quantities within the range of a float, it
    returns the value in binary64 arithmetic of
    [100 * (weight - proposer_score) >
     50 * maximum_support + 50 * proposer_score
     + byzantine_threshold * 100 * maximum_support],
    where [maximum_support] is the committee weight from the slot after the
    parent's to the snapshot's current slot and [proposer_score] is 40/100 of
    [ceil_div total_active_balance SLOTS_PER_EPOCH]; each integer is first
    rounded to the nearest float. *)
Theorem is_one_lmd_confirmed_condition
    (self : ConfRule) (ci : conf_info) (block_root : string) (block parent : node)
    (committee_f weight_f half_maximum_f maximum_f : float) :
  dict_get block_root (ci_nodes ci) = Some block ->
  dict_get (node_parent_root block) (ci_nodes ci) = Some parent ->
  current_slot self = ci_current_slot ci ->
  let maximum_support :=
    get_committee_weight_between_slots ci (node_slot parent + 1) (ci_current_slot ci) in
  py_float (ceil_div (get_total_active_balance ci) SLOTS_PER_EPOCH) = Ok committee_f ->
  py_float (node_weight block) = Ok weight_f ->
  py_float (50 * maximum_support) = Ok half_maximum_f ->
  py_float maximum_support = Ok maximum_f ->
  let proposer_score := (py_truediv 40 100 * committee_f)%float in
  is_one_lmd_confirmed self ci block_root
  = Ok (half_maximum_f + 50 * proposer_score
        + confirmation_byzantine_threshold self * 100 * maximum_f
        <? 100 * (weight_f - proposer_score))%float.
Proof.
  intros Hb Hp Hslot maximum_support Hc Hw Hh Hm proposer.
  unfold is_one_lmd_confirmed.
  rewrite (get_node_Some _ _ _ Hb). cbn [bind].
  rewrite (get_node_Some _ _ _ Hp). cbn [bind].
  rewrite Hslot. fold maximum_support.
  unfold one_lmd_sides, proposer_score, PROPOSER_SCORE_BOOST.
  rewrite Hc. cbn [bind]. rewrite Hw. cbn [bind].
  rewrite Hh. cbn [bind]. rewrite Hm. cbn [bind fst snd].
  reflexivity.
Qed.

Lemma is_one_lmd_confirmed_condition_witness :
  let ci := example_snapshot in
  let block := snd (example_node "b73" 73 "b70" (5 * 100 * VALIDATOR_BALANCE)) in
  let parent := snd (example_node "b70" 70 "b64" (8 * 100 * VALIDATOR_BALANCE)) in
  let maximum_support := get_committee_weight_between_slots ci (70 + 1) 77 in
  let committee_f :=
    float_of_Z (ceil_div (get_total_active_balance ci) SLOTS_PER_EPOCH) in
  let proposer_score := (py_truediv 40 100 * committee_f)%float in
  (dict_get "b73" (ci_nodes ci) = Some block
   /\ dict_get (node_parent_root block) (ci_nodes ci) = Some parent
   /\ current_slot example_engine = ci_current_slot ci
   /\ py_float (ceil_div (get_total_active_balance ci) SLOTS_PER_EPOCH) = Ok committee_f
   /\ py_float (node_weight block) = Ok (float_of_Z (node_weight block))
   /\ py_float (50 * maximum_support) = Ok (float_of_Z (50 * maximum_support))
   /\ py_float maximum_support = Ok (float_of_Z maximum_support))
  /\ is_one_lmd_confirmed example_engine ci "b73"
     = Ok (float_of_Z (50 * maximum_support) + 50 * proposer_score
           + confirmation_byzantine_threshold example_engine * 100
             * float_of_Z maximum_support
           <? 100 * (float_of_Z (node_weight block) - proposer_score))%float.
Proof.
  split.
  - repeat split; reflexivity.
  - apply (is_one_lmd_confirmed_condition example_engine example_snapshot "b73"
             (snd (example_node "b73" 73 "b70" (5 * 100 * VALIDATOR_BALANCE)))
             (snd (example_node "b70" 70 "b64" (8 * 100 * VALIDATOR_BALANCE))));
      reflexivity.
Defined.

(** C1 does not hold of the code.  With a million validators and the
    byzantine threshold 1/4, the block of slot 64 with the weight
    24600000000000001 satisfies the condition over exact numbers
    ([100 * weight] exceeds the right-hand side [2460000000000000000] by
    100), yet [__is_one_lmd_confirmed] returns [False]: the weight is rounded
    to the float 24600000000000000 before the comparison. *)
Lemma is_one_lmd_confirmed_not_exact :
  let ci := mainnet_snapshot 24600000000000001 in
  let total := get_total_active_balance ci in
  let maximum_support := get_committee_weight_between_slots ci (32 + 1) 95 in
  Qeq_bool (Q_of_float (confirmation_byzantine_threshold mainnet_engine)) (1 # 4) = true
  /\ total = 32000000000000000
  /\ maximum_support = total
  /\ one_lmd_condition_exact (1 # 4) 24600000000000001 total maximum_support = true
  /\ is_one_lmd_confirmed mainnet_engine ci "b64" = Ok false.
Proof. vm_compute. repeat split. Qed.


(** ** The FFG safety condition *)

Lemma get_ancestor_enough_fuel (ci : conf_info) (slot : Z) (root checkpoint : string) :
  highest_ancestor_at_or_below ci slot root checkpoint ->
  exists N : nat, forall fuel : nat,
    (N <= fuel)%nat -> get_ancestor fuel root slot ci = Ok checkpoint.
Proof.
  induction 1 as [root n Hn Hs | root n checkpoint Hn Hs _ [N IH]].
  - exists O. intros fuel _. unfold get_ancestor.
    rewrite (get_node_Some _ _ _ Hn). cbn [bind].
    destruct fuel; cbn [get_ancestor_loop];
      (destruct (Z.ltb_spec slot (node_slot n)); [lia | reflexivity]).
  - exists (S N). intros fuel Hfuel. destruct fuel as [| fuel]; [lia |].
    unfold get_ancestor. rewrite (get_node_Some _ _ _ Hn). cbn [bind get_ancestor_loop].
    destruct (Z.ltb_spec slot (node_slot n)); [| lia].
    apply (IH fuel). lia.
Qed.

(** The order of floats that are not NaN. *)

Lemma SFcompare_refl (x : spec_float) :
  x <> S754_nan -> SFcompare x x = Some Eq.
Proof.
  destruct x as [s | s | | s m e]; intros H; try contradiction; cbn.
  - reflexivity.
  - now destruct s.
  - destruct s; rewrite Z.compare_refl;
      change (Pos.compare_cont Eq m m) with (Pos.compare m m);
      now rewrite Pos.compare_refl.
Qed.

Lemma SFcompare_antisym (x y : spec_float) (c : comparison) :
  SFcompare x y = Some c -> SFcompare y x = Some (CompOpp c).
Proof.
  destruct x as [s1 | s1 | | s1 m1 e1], y as [s2 | s2 | | s2 m2 e2]; cbn;
    try discriminate; intros H; injection H as <-;
    try (now destruct s1); try (now destruct s2); try (now destruct s1, s2).
  destruct s1, s2; cbn; try reflexivity;
    rewrite (Z.compare_antisym e1 e2);
    change (Pos.compare_cont Eq m2 m1) with (Pos.compare m2 m1);
    change (Pos.compare_cont Eq m1 m2) with (Pos.compare m1 m2);
    rewrite (Pos.compare_antisym m1 m2);
    destruct (e1 ?= e2); cbn; try reflexivity;
    destruct (m1 ?= m2)%positive; reflexivity.
Qed.

Lemma SFcompare_lt_le_trans (x y z : spec_float) :
  SFcompare x y = Some Lt ->
  (SFcompare y z = Some Lt \/ SFcompare y z = Some Eq) ->
  SFcompare x z = Some Lt.
Proof.
  destruct x as [s1 | s1 | | s1 m1 e1], y as [s2 | s2 | | s2 m2 e2],
    z as [s3 | s3 | | s3 m3 e3]; cbn; intros Hxy [Hyz | Hyz];
    try discriminate;
    try (destruct s1; try discriminate); try (destruct s2; try discriminate);
    try (destruct s3; try discriminate); try reflexivity;
    cbn in *;
    change (Pos.compare_cont Eq) with Pos.compare in *;
    repeat match goal with
           | H : context [Z.compare ?a ?b] |- _ =>
               destruct (Z.compare_spec a b); try discriminate
           | H : context [Pos.compare ?a ?b] |- _ =>
               destruct (Pos.compare_spec a b); try discriminate
           end;
    repeat match goal with
           | |- context [Z.compare ?a ?b] =>
               destruct (Z.compare_spec a b); try lia
           | |- context [Pos.compare ?a ?b] =>
               destruct (Pos.compare_spec a b); try lia
           end; try reflexivity; try discriminate.
Qed.

Lemma is_nan_false (x : float) : PrimFloat.is_nan x = false -> Prim2SF x <> S754_nan.
Proof.
  unfold PrimFloat.is_nan. rewrite FloatAxioms.eqb_spec. intros H E.
  rewrite E in H. discriminate.
Qed.

Lemma float_le_refl (x : float) : PrimFloat.is_nan x = false -> float_le x x.
Proof.
  intros H. unfold float_le. rewrite FloatAxioms.leb_spec. unfold SFleb.
  now rewrite (SFcompare_refl _ (is_nan_false x H)).
Qed.

Lemma float_lt_le (x y : float) : (x <? y)%float = true -> float_le x y.
Proof.
  unfold float_le. rewrite FloatAxioms.ltb_spec, FloatAxioms.leb_spec.
  unfold SFltb, SFleb. now destruct (SFcompare (Prim2SF x) (Prim2SF y)) as [[| |] |].
Qed.

Lemma float_not_lt_le (x y : float) :
  PrimFloat.is_nan x = false -> PrimFloat.is_nan y = false ->
  (y <? x)%float = false -> float_le x y.
Proof.
  intros Hx Hy. unfold float_le. rewrite FloatAxioms.ltb_spec, FloatAxioms.leb_spec.
  unfold SFltb, SFleb.
  apply is_nan_false in Hx, Hy.
  destruct (SFcompare (Prim2SF y) (Prim2SF x)) as [c |] eqn:E.
  - rewrite (SFcompare_antisym _ _ _ E). now destruct c.
  - destruct (Prim2SF x) as [| | |], (Prim2SF y) as [| | |]; cbn in E;
      congruence.
Qed.

Lemma float_lt_le_trans (x y z : float) :
  (x <? y)%float = true -> float_le y z -> float_le x z.
Proof.
  unfold float_le. rewrite FloatAxioms.ltb_spec, !FloatAxioms.leb_spec.
  unfold SFltb, SFleb. intros Hxy Hyz.
  assert (H1 : SFcompare (Prim2SF x) (Prim2SF y) = Some Lt)
    by (now destruct (SFcompare (Prim2SF x) (Prim2SF y)) as [[| |] |]).
  assert (H2 : SFcompare (Prim2SF y) (Prim2SF z) = Some Lt
               \/ SFcompare (Prim2SF y) (Prim2SF z) = Some Eq)
    by (destruct (SFcompare (Prim2SF y) (Prim2SF z)) as [[| |] |]; auto; discriminate).
  now rewrite (SFcompare_lt_le_trans _ _ _ H1 H2).
Qed.

(** [min(a, b, c)] on three floats that are numbers is one of the three and
    is not above any of them. *)
Lemma py_min3_least (a b c : float) :
  PrimFloat.is_nan a = false -> PrimFloat.is_nan b = false ->
  PrimFloat.is_nan c = false ->
  least_of_three (py_min3 a b c) a b c.
Proof.
  intros Ha Hb Hc. unfold py_min3, least_of_three.
  destruct (PrimFloat.ltb b a) eqn:Hba.
  - destruct (PrimFloat.ltb c b) eqn:Hcb.
    + split; [auto |]. split; [| split].
      * apply (float_lt_le_trans c b a Hcb), float_lt_le, Hba.
      * now apply float_lt_le.
      * now apply float_le_refl.
    + split; [auto |]. split; [| split].
      * now apply float_lt_le.
      * now apply float_le_refl.
      * now apply float_not_lt_le.
  - destruct (PrimFloat.ltb c a) eqn:Hca.
    + split; [auto |]. split; [| split].
      * now apply float_lt_le.
      * apply (float_lt_le_trans c a b Hca). now apply float_not_lt_le.
      * now apply float_le_refl.
    + split; [auto |]. split; [| split].
      * now apply float_le_refl.
      * now apply float_not_lt_le.
      * now apply float_not_lt_le.
Qed.

(** C2 fails over exact numbers.  With a million validators, the thresholds
    1/4 and 1/8 and the last slot of epoch 2, a checkpoint of the weight
    25733333333333333 has the exact support 25333333333333333 and the exact
    adversarial bound 4000000000000000, so that the right-hand side
    21333333333333333 is below two thirds of the total, 21333333333333333.33;
    yet [__is_ffg_confirmed] returns [True] and stores the checkpoint: in
    binary64 both sides are 21333333333333332. *)
Lemma is_ffg_confirmed_not_exact :
  let ci := mainnet_snapshot 25733333333333333 in
  let total := get_total_active_balance ci in
  let remaining := get_remaining_weight_in_epoch mainnet_engine ci in
  Qeq_bool (Q_of_float (confirmation_byzantine_threshold mainnet_engine)) (1 # 4) = true
  /\ Qeq_bool (Q_of_float (confirmation_slashing_threshold mainnet_engine)) (1 # 8) = true
  /\ total = 32000000000000000
  /\ remaining = 0
  /\ ffg_condition_exact (1 # 4) (1 # 8) total remaining 25733333333333333 = false
  /\ is_ffg_confirmed 5 ci "b90" mainnet_engine
     = (set_ffg_confirmed_checkpoint "b64" mainnet_engine, Ok true).
Proof. vm_compute. repeat split. Qed.

(** C2, as the code has it.  For a block of the current epoch whose checkpoint
    is in the snapshot, integer quantities within the range of a float and
    bounds that are numbers, [is_ffg_confirmed] returns, once the fuel covers
    the walk to the checkpoint, the value in binary64 arithmetic of
    [(2/3) * total <= support - max_adversarial + (1 - byzantine) * remaining],
    where [support] is the checkpoint's weight minus the proposer boost and
    [max_adversarial] is the least of [byzantine * (total - remaining)],
    [slashing * total] and [support]: one of the three, not above any of
    them. *)
Theorem is_ffg_confirmed_condition
    (self : ConfRule) (ci : conf_info) (block_root checkpoint_root : string)
    (block checkpoint : node)
    (committee_f weight_f cast_f total_f remaining_f : float) :
  dict_get block_root (ci_nodes ci) = Some block ->
  current_slot self = ci_current_slot ci ->
  compute_epoch_at_slot (node_slot block) = compute_epoch_at_slot (ci_current_slot ci) ->
  highest_ancestor_at_or_below ci
    (compute_epoch_at_slot (ci_current_slot ci) * SLOTS_PER_EPOCH)
    block_root checkpoint_root ->
  dict_get checkpoint_root (ci_nodes ci) = Some checkpoint ->
  let total := get_total_active_balance ci in
  let remaining := get_remaining_weight_in_epoch self ci in
  py_float (ceil_div total SLOTS_PER_EPOCH) = Ok committee_f ->
  py_float (node_weight checkpoint) = Ok weight_f ->
  py_float (total - remaining) = Ok cast_f ->
  py_float total = Ok total_f ->
  py_float remaining = Ok remaining_f ->
  let support := (weight_f - py_truediv 40 100 * committee_f)%float in
  let byzantine_bound := (confirmation_byzantine_threshold self * cast_f)%float in
  let slashing_bound := (confirmation_slashing_threshold self * total_f)%float in
  PrimFloat.is_nan byzantine_bound = false ->
  PrimFloat.is_nan slashing_bound = false ->
  PrimFloat.is_nan support = false ->
  exists max_adversarial : float,
    least_of_three max_adversarial byzantine_bound slashing_bound support
    /\ exists N : nat, forall fuel : nat, (N <= fuel)%nat ->
         snd (is_ffg_confirmed fuel ci block_root self)
         = Ok (py_truediv 2 3 * total_f
               <=? support - max_adversarial
                   + (1 - confirmation_byzantine_threshold self) * remaining_f)%float.
Proof.
  intros Hb Hslot Hep Hanc Hc total remaining Hcf Hwf Hcast Htot Hrem
    support byzantine_bound slashing_bound Hn1 Hn2 Hn3.
  exists (py_min3 byzantine_bound slashing_bound support).
  split; [now apply py_min3_least |].
  destruct (get_ancestor_enough_fuel _ _ _ _ Hanc) as [N HN].
  exists N. intros fuel Hfuel.
  unfold is_ffg_confirmed, ffg_check.
  rewrite (get_node_Some _ _ _ Hb). cbn [bind].
  rewrite Hslot, Hep, Z.eqb_refl. cbn [negb].
  unfold get_checkpoint_ffg_support, get_checkpoint_block.
  rewrite (HN fuel Hfuel). cbn [bind].
  rewrite (get_node_Some _ _ _ Hc). cbn [bind].
  unfold proposer_score, PROPOSER_SCORE_BOOST. fold total.
  rewrite Hcf. cbn [bind]. rewrite Hwf. cbn [bind fst snd].
  unfold ffg_sides. fold total remaining.
  rewrite Hcast. cbn [bind]. rewrite Htot. cbn [bind]. rewrite Hrem. cbn [bind fst snd].
  fold support. fold byzantine_bound. fold slashing_bound.
  match goal with |- snd (if ?c then _ else _) = _ => destruct c end; reflexivity.
Qed.

Lemma is_ffg_confirmed_condition_witness :
  let ci := example_snapshot in
  let self := example_engine in
  let block := snd (example_node "b73" 73 "b70" (5 * 100 * VALIDATOR_BALANCE)) in
  let checkpoint := snd (example_node "b64" 64 "c1" (14 * 100 * VALIDATOR_BALANCE)) in
  let total := get_total_active_balance ci in
  let remaining := get_remaining_weight_in_epoch self ci in
  let committee_f := float_of_Z (ceil_div total SLOTS_PER_EPOCH) in
  let support :=
    (float_of_Z (node_weight checkpoint) - py_truediv 40 100 * committee_f)%float in
  let byzantine_bound :=
    (confirmation_byzantine_threshold self * float_of_Z (total - remaining))%float in
  let slashing_bound :=
    (confirmation_slashing_threshold self * float_of_Z total)%float in
  (dict_get "b73" (ci_nodes ci) = Some block
   /\ current_slot self = ci_current_slot ci
   /\ compute_epoch_at_slot (node_slot block)
      = compute_epoch_at_slot (ci_current_slot ci)
   /\ highest_ancestor_at_or_below ci
        (compute_epoch_at_slot (ci_current_slot ci) * SLOTS_PER_EPOCH) "b73" "b64"
   /\ dict_get "b64" (ci_nodes ci) = Some checkpoint
   /\ py_float (ceil_div total SLOTS_PER_EPOCH) = Ok committee_f
   /\ py_float (node_weight checkpoint) = Ok (float_of_Z (node_weight checkpoint))
   /\ py_float (total - remaining) = Ok (float_of_Z (total - remaining))
   /\ py_float total = Ok (float_of_Z total)
   /\ py_float remaining = Ok (float_of_Z remaining)
   /\ PrimFloat.is_nan byzantine_bound = false
   /\ PrimFloat.is_nan slashing_bound = false
   /\ PrimFloat.is_nan support = false)
  /\ exists max_adversarial : float,
       least_of_three max_adversarial byzantine_bound slashing_bound support
       /\ exists N : nat, forall fuel : nat, (N <= fuel)%nat ->
            snd (is_ffg_confirmed fuel ci "b73" self)
            = Ok (py_truediv 2 3 * float_of_Z total
                  <=? support - max_adversarial
                      + (1 - confirmation_byzantine_threshold self)
                        * float_of_Z remaining)%float.
Proof.
  assert (Hanc : highest_ancestor_at_or_below example_snapshot
                   (compute_epoch_at_slot (ci_current_slot example_snapshot)
                    * SLOTS_PER_EPOCH) "b73" "b64").
  { eapply ancestor_above; [reflexivity | reflexivity |].
    eapply ancestor_above; [reflexivity | reflexivity |].
    apply (ancestor_here example_snapshot _ "b64"
             (snd (example_node "b64" 64 "c1" (14 * 100 * VALIDATOR_BALANCE))));
      [reflexivity | discriminate]. }
  split.
  - repeat split; try reflexivity. exact Hanc.
  - apply (is_ffg_confirmed_condition example_engine example_snapshot "b73" "b64"
             (snd (example_node "b73" 73 "b70" (5 * 100 * VALIDATOR_BALANCE)))
             (snd (example_node "b64" 64 "c1" (14 * 100 * VALIDATOR_BALANCE))));
      try reflexivity. exact Hanc.
Defined.

(** ** Which exceptions can be raised *)

Lemma bind_no_assertion {A B : Type} (m : result A) (k : A -> result B) :
  is_assertion_error m = false ->
  (forall a, is_assertion_error (k a) = false) ->
  is_assertion_error (bind m k) = false.
Proof. intros Hm Hk. destruct m as [a | e]; [apply Hk | exact Hm]. Qed.

Lemma get_node_no_assertion (ci : conf_info) (root : string) :
  is_assertion_error (get_node ci root) = false.
Proof. unfold get_node. now destruct (dict_get root (ci_nodes ci)). Qed.

Lemma py_float_no_assertion (z : Z) : is_assertion_error (py_float z) = false.
Proof. unfold py_float. now destruct (PrimFloat.is_infinity (float_of_Z z)). Qed.

Lemma proposer_score_no_assertion (ci : conf_info) :
  is_assertion_error (proposer_score ci) = false.
Proof.
  unfold proposer_score. apply bind_no_assertion;
    [apply py_float_no_assertion | reflexivity].
Qed.

Ltac no_assertion :=
  repeat first
    [ reflexivity
    | apply get_node_no_assertion
    | apply py_float_no_assertion
    | apply proposer_score_no_assertion
    | apply bind_no_assertion; [| intro] ].

Lemma one_lmd_sides_no_assertion (self : ConfRule) (ci : conf_info) (a b : Z) :
  is_assertion_error (one_lmd_sides self ci a b) = false.
Proof. unfold one_lmd_sides. no_assertion. Qed.

Lemma is_one_lmd_confirmed_no_assertion (self : ConfRule) (ci : conf_info) (root : string) :
  is_assertion_error (is_one_lmd_confirmed self ci root) = false.
Proof.
  unfold is_one_lmd_confirmed. no_assertion; apply one_lmd_sides_no_assertion.
Qed.

Lemma is_lmd_confirmed_no_assertion (fuel : nat) (self : ConfRule) (ci : conf_info)
    (root : string) :
  is_assertion_error (is_lmd_confirmed fuel self ci root) = false.
Proof.
  revert root. induction fuel as [| fuel IH]; intros root; [reflexivity |].
  cbn [is_lmd_confirmed]. apply bind_no_assertion; [apply get_node_no_assertion |].
  intros n. destruct (_ || _); [reflexivity |].
  apply bind_no_assertion; [apply is_one_lmd_confirmed_no_assertion |].
  intros [|]; [apply IH | reflexivity].
Qed.

Lemma get_ancestor_loop_no_assertion (fuel : nat) (ci : conf_info) (n : node) (slot : Z) :
  is_assertion_error (get_ancestor_loop fuel ci n slot) = false.
Proof.
  revert n. induction fuel as [| fuel IH]; intros n; cbn [get_ancestor_loop];
    destruct (slot <? node_slot n); try reflexivity.
  apply bind_no_assertion; [apply get_node_no_assertion | intro; apply IH].
Qed.

Lemma get_checkpoint_block_no_assertion (fuel : nat) (root : string) (ci : conf_info)
    (epoch : Z) :
  is_assertion_error (get_checkpoint_block fuel root ci epoch) = false.
Proof.
  unfold get_checkpoint_block, get_ancestor.
  apply bind_no_assertion; [apply get_node_no_assertion |].
  intro. apply get_ancestor_loop_no_assertion.
Qed.

Lemma get_checkpoint_ffg_support_no_assertion (fuel : nat) (root : string)
    (ci : conf_info) (epoch : Z) :
  is_assertion_error (get_checkpoint_ffg_support fuel root ci epoch) = false.
Proof.
  unfold get_checkpoint_ffg_support.
  apply bind_no_assertion; [apply get_checkpoint_block_no_assertion |].
  intro. no_assertion.
Qed.

Lemma ffg_sides_no_assertion (self : ConfRule) (ci : conf_info) (support : float) :
  is_assertion_error (ffg_sides self ci support) = false.
Proof. unfold ffg_sides. no_assertion. Qed.

(** The check of [__is_ffg_confirmed] passes for a block of the current epoch. *)
Lemma ffg_check_no_assertion (fuel : nat) (self : ConfRule) (ci : conf_info)
    (root : string) (block : node) :
  get_node ci root = Ok block ->
  compute_epoch_at_slot (node_slot block) = compute_epoch_at_slot (current_slot self) ->
  is_assertion_error (ffg_check fuel self ci root) = false.
Proof.
  intros Hb Hep. unfold ffg_check. rewrite Hb. cbn [bind].
  rewrite Hep, Z.eqb_refl. cbn [negb].
  apply bind_no_assertion; [apply get_checkpoint_ffg_support_no_assertion |].
  intro. apply bind_no_assertion; [apply ffg_sides_no_assertion | reflexivity].
Qed.

Lemma is_ffg_confirmed_no_assertion (fuel : nat) (self : ConfRule) (ci : conf_info)
    (root : string) (block : node) :
  get_node ci root = Ok block ->
  compute_epoch_at_slot (node_slot block) = compute_epoch_at_slot (current_slot self) ->
  is_assertion_error (snd (is_ffg_confirmed fuel ci root self)) = false.
Proof.
  intros Hb Hep. pose proof (ffg_check_no_assertion fuel self ci root block Hb Hep) as H.
  unfold is_ffg_confirmed. destruct (ffg_check fuel self ci root) as [[c b] | e].
  - now destruct (_ && _).
  - exact H.
Qed.

Lemma is_confirmed_no_assertion (fuel : nat) (ci : conf_info) (root : string)
    (self : ConfRule) :
  is_assertion_error (snd (is_confirmed fuel ci root self)) = false.
Proof.
  unfold is_confirmed.
  destruct (get_node ci root) as [block | e] eqn:Hb.
  2:{ pose proof (get_node_no_assertion ci root) as H. now rewrite Hb in H. }
  destruct (_ || _); [reflexivity |].
  pose proof (get_checkpoint_block_no_assertion fuel root ci
                (compute_epoch_at_slot (current_slot self) - 1)) as H2.
  destruct (get_checkpoint_block fuel root ci _) as [second | e]; [| exact H2].
  pose proof (is_lmd_confirmed_no_assertion fuel self ci root) as Hl.
  destruct (Z.eqb_spec (compute_epoch_at_slot (node_slot block))
              (compute_epoch_at_slot (current_slot self))) as [Hep | _].
  - destruct (is_lmd_confirmed fuel self ci root) as [l | e]; [| exact Hl].
    destruct (_ && _); [| reflexivity].
    now apply (is_ffg_confirmed_no_assertion fuel self ci root block).
  - destruct (_ =? _); [| reflexivity].
    destruct (String.eqb second (ci_finalized_checkpoint ci)); [exact Hl |].
    pose proof (get_checkpoint_block_no_assertion fuel root ci
                  (compute_epoch_at_slot (current_slot self) - 2)) as H3.
    destruct (get_checkpoint_block fuel root ci _) as [third | e]; [| exact H3].
    destruct (is_lmd_confirmed fuel self ci root) as [l | e]; [reflexivity | exact Hl].
Qed.

Lemma find_confirmed_block_head_no_assertion (fuel depth : nat) (ci : conf_info)
    (root : string) (self : ConfRule) :
  is_assertion_error (snd (find_confirmed_block_head fuel depth ci root self)) = false.
Proof.
  revert root self. induction depth as [| depth IH]; intros root self; [reflexivity |].
  cbn [find_confirmed_block_head].
  pose proof (is_confirmed_no_assertion fuel ci root self) as Hc.
  destruct (is_confirmed fuel ci root self) as [self' [[|] | e]];
    [reflexivity | | exact Hc].
  pose proof (get_node_no_assertion ci root) as Hn.
  destruct (get_node ci root) as [block | e]; [apply IH | exact Hn].
Qed.

Lemma compute_conf_times_loop_no_assertion (fuel : nat) (ci : conf_info)
    (old_root : option string) (old_slot : Z) (cur_root : string) (pre_slot : Z)
    (times : list Z) (self : ConfRule) :
  is_assertion_error
    (snd (compute_conf_times_loop fuel ci old_root old_slot cur_root pre_slot times self))
  = false.
Proof.
  revert cur_root pre_slot times self.
  induction fuel as [| fuel IH]; intros cur_root pre_slot times self;
    cbn [compute_conf_times_loop]; destruct (opt_root_eqb old_root cur_root);
    try reflexivity.
  pose proof (get_node_no_assertion ci cur_root) as Hn.
  destruct (get_node ci cur_root) as [n | e]; [| exact Hn].
  destruct (node_slot n <=? old_slot); [reflexivity | apply IH].
Qed.

Lemma compute_conf_times_no_assertion (fuel : nat) (root : string) (ci : conf_info)
    (self : ConfRule) :
  is_assertion_error (snd (compute_conf_times fuel root ci self)) = false.
Proof.
  unfold compute_conf_times.
  pose proof (get_node_no_assertion ci root) as Hn.
  destruct (get_node ci root) as [n | e]; [| exact Hn].
  pose proof (compute_conf_times_loop_no_assertion fuel ci (confirmed_head_root self)
                (confirmed_head_slot self) root (node_slot n) [] self) as Hl.
  destruct (compute_conf_times_loop _ _ _ _ _ _ _ _) as [self' [[pre times] | e]];
    [reflexivity | exact Hl].
Qed.

Lemma record_progress_no_assertion (fuel : nat) (record : bool) (ci : conf_info)
    (root : string) (slot : Z) (self : ConfRule) :
  is_assertion_error (snd (record_progress fuel record ci root slot self)) = false.
Proof.
  unfold record_progress.
  destruct (confirmed_head_slot self <? slot).
  - destruct record; [| reflexivity].
    pose proof (compute_conf_times_no_assertion fuel root ci self) as Hc.
    destruct (compute_conf_times fuel root ci self) as [self' [times | e]];
      [reflexivity | exact Hc].
  - destruct (slot =? confirmed_head_slot self); reflexivity.
Qed.

Lemma update_confirmed_head_no_assertion (fuel : nat) (ci : conf_info) (self : ConfRule) :
  current_slot self <= ci_current_slot ci ->
  is_assertion_error (snd (update_confirmed_head fuel ci self)) = false.
Proof.
  intros Hle. unfold update_confirmed_head.
  destruct (Z.ltb_spec (ci_current_slot ci) (current_slot self)); [lia |].
  unfold find_head_root.
  destruct (last (sorted_by_slot (ci_nodes ci))) as [[head_root ?] |]; [| reflexivity].
  pose proof (find_confirmed_block_head_no_assertion fuel fuel ci head_root
                (set_clock (ci_current_slot ci) (ci_current_time_in_slot ci) self)) as Hf.
  destruct (find_confirmed_block_head _ _ _ _ _) as [self2 [new_root | e]]; [| exact Hf].
  pose proof (get_node_no_assertion ci new_root) as Hn.
  destruct (get_node ci new_root) as [new_head | e]; [| exact Hn].
  apply record_progress_no_assertion.
Qed.

Lemma is_assertion_error_ffg {A : Type} (r : result A) :
  is_assertion_error r = false -> is_ffg_assertion r = false.
Proof. destruct r as [a | [| | | [|] |]]; simpl; congruence. Qed.

(** The epoch check of [__is_ffg_confirmed] does fail when the function is
    applied to a block of an earlier epoch. *)
Example ffg_check_outside_current_epoch :
  ffg_check 10 example_engine example_snapshot "c1" = Err (AssertionError FfgEpoch).
Proof. reflexivity. Qed.

(** C10. The epoch assertion of [__is_ffg_confirmed] is never what
    [update_confirmed_head] raises, nor what the walk for the confirmed head
    or [__is_confirmed] raise: [__is_confirmed] calls [__is_ffg_confirmed]
    only for a block whose epoch is the current one. *)
Theorem ffg_epoch_assertion_unreachable (fuel : nat) (ci : conf_info) (self : ConfRule) :
  is_ffg_assertion (snd (update_confirmed_head fuel ci self)) = false
  /\ (forall (depth : nat) (root : string),
        is_ffg_assertion (snd (find_confirmed_block_head fuel depth ci root self)) = false)
  /\ (forall root : string,
        is_ffg_assertion (snd (is_confirmed fuel ci root self)) = false).
Proof.
  split; [| split].
  - destruct (Z.lt_ge_cases (ci_current_slot ci) (current_slot self)) as [Hlt | Hge].
    + unfold update_confirmed_head.
      destruct (Z.ltb_spec (ci_current_slot ci) (current_slot self)); [reflexivity | lia].
    + apply is_assertion_error_ffg. now apply update_confirmed_head_no_assertion.
  - intros depth root. apply is_assertion_error_ffg.
    apply find_confirmed_block_head_no_assertion.
  - intros root. apply is_assertion_error_ffg. apply is_confirmed_no_assertion.
Qed.

(** ** Snapshots out of order *)

(** C6. A snapshot whose slot is below the engine's current slot makes
    [update_confirmed_head] raise the ordering assertion and leaves the whole
    engine state as it was; a snapshot whose slot is not below it raises no
    assertion at all. *)
Theorem update_confirmed_head_ordering (fuel : nat) (ci : conf_info) (self : ConfRule) :
  (ci_current_slot ci < current_slot self ->
   update_confirmed_head fuel ci self = (self, Err (AssertionError SlotOrder)))
  /\ (current_slot self <= ci_current_slot ci ->
      is_assertion_error (snd (update_confirmed_head fuel ci self)) = false).
Proof.
  split.
  - intros Hlt. unfold update_confirmed_head.
    destruct (Z.ltb_spec (ci_current_slot ci) (current_slot self)); [reflexivity | lia].
  - apply update_confirmed_head_no_assertion.
Qed.

Lemma update_confirmed_head_ordering_witness :
  (ci_current_slot (snapshot_of_committee_size 1) < current_slot example_engine
   /\ update_confirmed_head 10 (snapshot_of_committee_size 1) example_engine
      = (example_engine, Err (AssertionError SlotOrder)))
  /\ (current_slot example_engine <= ci_current_slot example_snapshot
      /\ is_assertion_error (snd (update_confirmed_head 10 example_snapshot example_engine))
         = false).
Proof.
  split; split.
  - reflexivity.
  - apply (proj1 (update_confirmed_head_ordering 10 (snapshot_of_committee_size 1)
                    example_engine)).
    reflexivity.
  - discriminate.
  - apply (proj2 (update_confirmed_head_ordering 10 example_snapshot example_engine)).
    discriminate.
Defined.

(** ** What the methods change in [self] *)

Lemma is_ffg_confirmed_frame (fuel : nat) (ci : conf_info) (root : string)
    (self self' : ConfRule) (r : result bool) :
  is_ffg_confirmed fuel ci root self = (self', r) ->
  self' = self
  \/ (exists c : string, self' = set_ffg_confirmed_checkpoint c self /\ r = Ok true).
Proof.
  unfold is_ffg_confirmed.
  destruct (ffg_check fuel self ci root) as [[c b] | e].
  - destruct b; cbn [andb].
    + destruct (_ =? _); intros [= <- <-]; [right; eauto | now left].
    + intros [= <- <-]. now left.
  - intros [= <- <-]. now left.
Qed.

(** A call of [__is_confirmed] changes [self] only when it returns [True] for
    a block of the current epoch that is neither finalized nor the confirmed
    head. *)
Lemma is_confirmed_frame (fuel : nat) (ci : conf_info) (root : string)
    (self self' : ConfRule) (r : result bool) :
  is_confirmed fuel ci root self = (self', r) ->
  self' = self
  \/ (exists (c : string) (block : node),
        self' = set_ffg_confirmed_checkpoint c self /\ r = Ok true
        /\ get_node ci root = Ok block
        /\ compute_epoch_at_slot (node_slot block)
           = compute_epoch_at_slot (current_slot self)).
Proof.
  unfold is_confirmed.
  destruct (get_node ci root) as [block | e]; [| intros [= <- <-]; now left].
  destruct (_ || _); [intros [= <- <-]; now left |].
  destruct (get_checkpoint_block fuel root ci _) as [second | e];
    [| intros [= <- <-]; now left].
  destruct (Z.eqb_spec (compute_epoch_at_slot (node_slot block))
              (compute_epoch_at_slot (current_slot self))) as [Hep | _].
  - destruct (is_lmd_confirmed fuel self ci root) as [l | e];
      [| intros [= <- <-]; now left].
    destruct (_ && _); [| intros [= <- <-]; now left].
    intros H. apply is_ffg_confirmed_frame in H as [-> | [c [-> ->]]]; [now left |].
    right. exists c, block. auto.
  - destruct (_ =? _); [| intros [= <- <-]; now left].
    destruct (String.eqb second (ci_finalized_checkpoint ci));
      [intros [= <- <-]; now left |].
    destruct (get_checkpoint_block fuel root ci _) as [third | e];
      [| intros [= <- <-]; now left].
    destruct (is_lmd_confirmed fuel self ci root) as [l | e];
      intros [= <- <-]; now left.
Qed.

Lemma is_confirmed_false_frame (fuel : nat) (ci : conf_info) (root : string)
    (self self' : ConfRule) :
  is_confirmed fuel ci root self = (self', Ok false) -> self' = self.
Proof.
  intros H. apply is_confirmed_frame in H as [-> | [c [b [_ [H _]]]]];
    [reflexivity | discriminate].
Qed.

(** The walk changes [self] only in its last step, when it stops at a block
    of the current epoch. *)
Lemma find_confirmed_block_head_frame (fuel depth : nat) (ci : conf_info)
    (root : string) (self self' : ConfRule) (r : result string) :
  find_confirmed_block_head fuel depth ci root self = (self', r) ->
  self' = self
  \/ (exists (c new_root : string) (block : node),
        self' = set_ffg_confirmed_checkpoint c self /\ r = Ok new_root
        /\ get_node ci new_root = Ok block
        /\ compute_epoch_at_slot (node_slot block)
           = compute_epoch_at_slot (current_slot self)).
Proof.
  revert root. induction depth as [| depth IH]; intros root;
    cbn [find_confirmed_block_head].
  - intros [= <- <-]. now left.
  - destruct (is_confirmed fuel ci root self) as [self1 [[|] | e]] eqn:Hc.
    + intros [= <- <-].
      apply is_confirmed_frame in Hc as [-> | [c [b [-> [_ [Hb Hep]]]]]]; [now left |].
      right. exists c, root, b. auto.
    + apply is_confirmed_false_frame in Hc as ->.
      destruct (get_node ci root) as [block | e]; [apply IH |].
      intros [= <- <-]. now left.
    + intros [= <- <-].
      apply is_confirmed_frame in Hc as [-> | [c [b [_ [H _]]]]];
        [now left | discriminate].
Qed.

Lemma same_except_ffg_of_find (fuel depth : nat) (ci : conf_info)
    (root : string) (self self' : ConfRule) (r : result string) :
  find_confirmed_block_head fuel depth ci root self = (self', r) ->
  same_except_ffg self self'.
Proof.
  intros H. apply find_confirmed_block_head_frame in H as [-> | [c [? [? [-> _]]]]];
    [now left | right; eauto].
Qed.

Lemma same_except_anomalies_refl (self : ConfRule) : same_except_anomalies self self.
Proof. exists (logger self), (empty_or_forked_slots self). now destruct self. Qed.

Lemma deal_with_range_spec (a b : Z) (self : ConfRule) :
  deal_with_range a b self
  = set_empty_or_forked_slots (empty_or_forked_slots self ++ py_range a b) self.
Proof.
  unfold deal_with_range. generalize (py_range a b) as l. intros l.
  revert self. induction l as [| x l IH]; intros self; cbn [foldl].
  - rewrite app_nil_r. now destruct self.
  - rewrite IH. unfold deal_with_empty_or_forked_slot, set_empty_or_forked_slots.
    cbn. now rewrite <- app_assoc.
Qed.

Lemma same_except_anomalies_range (a b : Z) (self self' : ConfRule) :
  same_except_anomalies self self' ->
  same_except_anomalies self (deal_with_range a b self').
Proof.
  intros [l [e ->]]. rewrite deal_with_range_spec.
  eexists _, _. reflexivity.
Qed.

Lemma same_except_anomalies_log (l : list log_event) (self self' : ConfRule) :
  same_except_anomalies self self' ->
  same_except_anomalies self (set_logger l self').
Proof. intros [l' [e ->]]. eexists _, _. reflexivity. Qed.

Lemma compute_conf_times_loop_frame (fuel : nat) (ci : conf_info)
    (old_root : option string) (old_slot : Z) (cur_root : string) (pre_slot : Z)
    (times : list Z) (self0 self self' : ConfRule) (r : result (Z * list Z)) :
  same_except_anomalies self0 self ->
  compute_conf_times_loop fuel ci old_root old_slot cur_root pre_slot times self
    = (self', r) ->
  same_except_anomalies self0 self'.
Proof.
  revert cur_root pre_slot times self.
  induction fuel as [| fuel IH]; intros cur_root pre_slot times self Hs;
    cbn [compute_conf_times_loop]; destruct (opt_root_eqb old_root cur_root);
    try (intros [= <- <-]; exact Hs).
  destruct (get_node ci cur_root) as [n | e]; [| intros [= <- <-]; exact Hs].
  destruct (node_slot n <=? old_slot).
  - intros [= <- <-]. now apply same_except_anomalies_log.
  - apply IH. destruct (1 <? pre_slot - node_slot n); [| exact Hs].
    now apply same_except_anomalies_range.
Qed.

Lemma compute_conf_times_frame (fuel : nat) (root : string) (ci : conf_info)
    (self self' : ConfRule) (r : result (list Z)) :
  compute_conf_times fuel root ci self = (self', r) ->
  same_except_anomalies self self'.
Proof.
  unfold compute_conf_times.
  destruct (get_node ci root) as [n | e];
    [| intros [= <- <-]; apply same_except_anomalies_refl].
  destruct (compute_conf_times_loop _ _ _ _ _ _ _ _) as [self1 [[pre times] | e]] eqn:Hl;
    apply (compute_conf_times_loop_frame _ _ _ _ _ _ _ self) in Hl;
    try apply same_except_anomalies_refl.
  - intros [= <- <-]. destruct (1 <? _); [| exact Hl].
    now apply same_except_anomalies_range.
  - intros [= <- <-]. exact Hl.
Qed.

(** ** The confirmed head never moves back *)

Lemma record_progress_head_slot (fuel : nat) (record : bool) (ci : conf_info)
    (root : string) (slot : Z) (self : ConfRule) :
  confirmed_head_slot self
  <= confirmed_head_slot (fst (record_progress fuel record ci root slot self)).
Proof.
  unfold record_progress.
  destruct (Z.ltb_spec (confirmed_head_slot self) slot) as [Hlt | Hge].
  - destruct record; [| cbn; lia].
    destruct (compute_conf_times fuel root ci self) as [self1 [times | e]] eqn:Hc;
      apply compute_conf_times_frame in Hc as [l [e' ->]]; cbn; lia.
  - destruct (slot =? confirmed_head_slot self); cbn; lia.
Qed.

Lemma update_confirmed_head_head_slot (fuel : nat) (ci : conf_info) (self : ConfRule) :
  confirmed_head_slot self
  <= confirmed_head_slot (fst (update_confirmed_head fuel ci self)).
Proof.
  unfold update_confirmed_head.
  destruct (ci_current_slot ci <? current_slot self); [cbn; lia |].
  destruct (find_head_root ci) as [head | e]; [| cbn; lia].
  destruct (find_confirmed_block_head _ _ _ _ _) as [self2 r] eqn:Hf.
  assert (Hs : confirmed_head_slot self2 = confirmed_head_slot self).
  { apply same_except_ffg_of_find in Hf as [-> | [c ->]]; reflexivity. }
  destruct r as [new_root | e]; [| cbn; lia].
  destruct (get_node ci new_root) as [new_head | e]; [| cbn; lia].
  rewrite <- Hs. apply record_progress_head_slot.
Qed.

Lemma execute_rule_head_slot (fuel : nat) (snapshots : list conf_info) (rule : ConfRule) :
  confirmed_head_slot rule
  <= confirmed_head_slot (fst (execute_rule fuel snapshots rule)).
Proof.
  revert rule. induction snapshots as [| ci rest IH]; intros rule;
    cbn [execute_rule]; [cbn; lia |].
  pose proof (update_confirmed_head_head_slot fuel ci rule) as Hu.
  destruct (update_confirmed_head fuel ci rule) as [rule' [[] | e]]; cbn [fst] in *.
  - specialize (IH rule'). lia.
  - exact Hu.
Qed.

(** C7. Along any run of [execute_rule] the confirmed head slot at the end
    is not below the one at the start.  When the head computed for a snapshot
    has a slot below the stored one, the update succeeds, keeps the stored
    confirmed head slot and root, records no confirmation time and no empty
    slot, and appends the warning to the log. *)
Theorem confirmed_head_slot_never_decreases (fuel : nat) :
  (forall (snapshots : list conf_info) (rule : ConfRule),
     (confirmed_head_slot rule
      <=? confirmed_head_slot (fst (execute_rule fuel snapshots rule))) = true)
  /\ (forall (ci : conf_info) (self self1 : ConfRule) (head new_root : string)
             (new_head : node),
        current_slot self <= ci_current_slot ci ->
        find_head_root ci = Ok head ->
        find_confirmed_block_head fuel fuel ci head
          (set_clock (ci_current_slot ci) (ci_current_time_in_slot ci) self)
          = (self1, Ok new_root) ->
        get_node ci new_root = Ok new_head ->
        node_slot new_head < confirmed_head_slot self ->
        let self' := fst (update_confirmed_head fuel ci self) in
        snd (update_confirmed_head fuel ci self) = Ok tt
        /\ confirmed_head_slot self' = confirmed_head_slot self
        /\ confirmed_head_root self' = confirmed_head_root self
        /\ logger self'
           = logger self
             ++ [Warning_head_goes_backwards
                   (confirmed_head_slot self) (node_slot new_head)]
        /\ conf_times self' = conf_times self
        /\ empty_or_forked_slots self' = empty_or_forked_slots self).
Proof.
  split.
  - intros snapshots rule. apply Z.leb_le. apply execute_rule_head_slot.
  - intros ci self self1 head new_root new_head Hle Hhead Hfind Hnode Hlt.
    unfold update_confirmed_head.
    destruct (Z.ltb_spec (ci_current_slot ci) (current_slot self)); [lia |].
    rewrite Hhead, Hfind, Hnode. unfold record_progress.
    assert (Hs : confirmed_head_slot self1 = confirmed_head_slot self)
      by (apply same_except_ffg_of_find in Hfind as [-> | [c ->]]; reflexivity).
    rewrite Hs.
    destruct (Z.ltb_spec (confirmed_head_slot self) (node_slot new_head)); [lia |].
    destruct (Z.eqb_spec (node_slot new_head) (confirmed_head_slot self)); [lia |].
    apply same_except_ffg_of_find in Hfind as [-> | [c ->]]; cbn; auto 10.
Qed.

Lemma confirmed_head_slot_never_decreases_witness :
  let ci := example_snapshot in
  let self := example_engine_ahead in
  let new_head := snd (example_node "c0" 0 "genesis" (3000 * 100 * VALIDATOR_BALANCE)) in
  let self' := fst (update_confirmed_head 10 ci self) in
  (current_slot self <= ci_current_slot ci
   /\ find_head_root ci = Ok "b77"
   /\ find_confirmed_block_head 10 10 ci "b77"
        (set_clock (ci_current_slot ci) (ci_current_time_in_slot ci) self)
      = (set_clock (ci_current_slot ci) (ci_current_time_in_slot ci) self, Ok "c0")
   /\ get_node ci "c0" = Ok new_head
   /\ node_slot new_head < confirmed_head_slot self)
  /\ snd (update_confirmed_head 10 ci self) = Ok tt
  /\ confirmed_head_slot self' = confirmed_head_slot self
  /\ confirmed_head_root self' = confirmed_head_root self
  /\ logger self'
     = logger self
       ++ [Warning_head_goes_backwards (confirmed_head_slot self) (node_slot new_head)]
  /\ conf_times self' = conf_times self
  /\ empty_or_forked_slots self' = empty_or_forked_slots self.
Proof.
  split.
  - repeat split; try reflexivity. discriminate.
  - apply (proj2 (confirmed_head_slot_never_decreases 10) example_snapshot
             example_engine_ahead
             (set_clock (ci_current_slot example_snapshot)
                (ci_current_time_in_slot example_snapshot) example_engine_ahead)
             "b77" "c0"); try reflexivity. discriminate.
Defined.

(** ** Confirmation times and gaps along the newly confirmed chain *)

Lemma set_empty_or_forked_slots_id (self : ConfRule) :
  set_empty_or_forked_slots (empty_or_forked_slots self ++ []) self = self.
Proof. rewrite app_nil_r. now destruct self. Qed.

Lemma guarded_range (a b : Z) (self : ConfRule) :
  (if 1 <? b - a then deal_with_range (a + 1) b self else self)
  = set_empty_or_forked_slots (empty_or_forked_slots self ++ py_range (a + 1) b) self.
Proof.
  destruct (Z.ltb_spec 1 (b - a)) as [Hgap | Hnogap].
  - apply deal_with_range_spec.
  - unfold py_range. rewrite seqZ_nil by lia. symmetry.
    apply set_empty_or_forked_slots_id.
Qed.

Lemma compute_conf_times_loop_chain (ci : conf_info) (old_root : string) (old_slot : Z)
    (visited : list node) :
  forall (fuel : nat) (root : string) (pre_slot : Z) (times : list Z) (self : ConfRule),
    parent_chain ci old_root root visited ->
    Forall (fun n => old_slot < node_slot n) visited ->
    (length visited <= fuel)%nat ->
    compute_conf_times_loop fuel ci (Some old_root) old_slot root pre_slot times self
    = (set_empty_or_forked_slots
         (empty_or_forked_slots self ++ loop_gaps pre_slot (map node_slot visited)) self,
       Ok (last_slot pre_slot (map node_slot visited),
           times ++ map (conf_time self) visited)).
Proof.
  induction visited as [| n rest IH]; intros fuel root pre_slot times self Hchain Habove Hfuel.
  - assert (Hstop : opt_root_eqb (Some old_root) root = true)
      by (inversion Hchain; cbn; apply String.eqb_refl).
    destruct fuel; cbn [compute_conf_times_loop]; rewrite Hstop; cbn [map loop_gaps last_slot];
      now rewrite set_empty_or_forked_slots_id, app_nil_r.
  - inversion Hchain as [| root' n' rest' Hne Hnode Hrest]; subst.
    apply Forall_cons in Habove as [Hn Habove].
    destruct fuel as [| fuel]; [cbn in Hfuel; lia |].
    cbn [compute_conf_times_loop].
    assert (Hgo : opt_root_eqb (Some old_root) root = false).
    { cbn. apply String.eqb_neq. congruence. }
    rewrite Hgo, (get_node_Some _ _ _ Hnode).
    destruct (Z.leb_spec (node_slot n) old_slot); [lia |].
    rewrite guarded_range.
    rewrite (IH fuel (node_parent_root n) (node_slot n)); [| assumption | assumption |].
    2:{ cbn in Hfuel. lia. }
    cbn [map loop_gaps last_slot]. f_equal.
    + unfold set_empty_or_forked_slots. cbn. now rewrite <- app_assoc.
    + do 2 f_equal. rewrite <- app_assoc. reflexivity.
Qed.

Lemma reported_gaps_split (pre_slot : Z) (slots : list Z) (old_slot : Z) :
  loop_gaps pre_slot slots ++ py_range (old_slot + 1) (last_slot pre_slot slots)
  = reported_gaps pre_slot slots old_slot.
Proof.
  revert pre_slot. induction slots as [| s rest IH]; intros pre_slot; cbn.
  - reflexivity.
  - now rewrite <- app_assoc, IH.
Qed.

Lemma elem_of_py_range (x a b : Z) : x ∈ py_range a b <-> a <= x < b.
Proof. unfold py_range. rewrite elem_of_seqZ. lia. Qed.

Lemma reported_gaps_elem_of (slots : list Z) (old_slot : Z) :
  forall pre_slot x,
    StronglySorted Z.gt (slots ++ [old_slot]) ->
    Forall (fun s => s <= pre_slot) slots ->
    x ∈ reported_gaps pre_slot slots old_slot
    <-> (old_slot < x < pre_slot /\ x ∉ slots).
Proof.
  induction slots as [| s rest IH]; intros pre_slot x Hsorted Hbelow; cbn [reported_gaps].
  - rewrite elem_of_py_range. split.
    + intros H. split; [lia |]. apply not_elem_of_nil.
    + intros [H _]. lia.
  - cbn in Hsorted. apply StronglySorted_inv in Hsorted as [Hsorted Hall].
    apply Forall_cons in Hbelow as [Hs Hbelow].
    assert (Hrest : Forall (fun y => y < s) rest /\ old_slot < s).
    { rewrite Forall_app, Forall_singleton in Hall. destruct Hall as [Hr Ho].
      split; [| lia]. eapply Forall_impl; [exact Hr |]. cbn. intros; lia. }
    destruct Hrest as [Hrest Hold].
    assert (Hrest' : Forall (fun y => y <= s) rest)
      by (eapply Forall_impl; [exact Hrest |]; cbn; intros; lia).
    rewrite elem_of_app, elem_of_py_range, (IH s x Hsorted Hrest'), not_elem_of_cons.
    rewrite Forall_forall in Hrest.
    split.
    + intros [Hup | [Hlow Hnot]].
      * split; [lia |]. split; [lia |]. intros Hin. apply Hrest in Hin. lia.
      * split; [lia |]. split; [lia | assumption].
    + intros [Hx [Hne Hnot]].
      destruct (Z.lt_ge_cases s x); [left; lia | right]. split; [lia | assumption].
Qed.

Lemma reported_gaps_NoDup (slots : list Z) (old_slot : Z) :
  forall pre_slot,
    StronglySorted Z.gt (slots ++ [old_slot]) ->
    Forall (fun s => s <= pre_slot) slots ->
    NoDup (reported_gaps pre_slot slots old_slot).
Proof.
  induction slots as [| s rest IH]; intros pre_slot Hsorted Hbelow; cbn [reported_gaps].
  - apply NoDup_seqZ.
  - cbn in Hsorted. pose proof Hsorted as Hsorted0.
    apply StronglySorted_inv in Hsorted as [Hsorted Hall].
    assert (Hrest' : Forall (fun y => y <= s) rest).
    { rewrite Forall_app in Hall. destruct Hall as [Hr _].
      eapply Forall_impl; [exact Hr |]. cbn. intros; lia. }
    apply NoDup_app. split; [apply NoDup_seqZ |]. split; [| now apply IH].
    intros x Hx Hx'. apply elem_of_py_range in Hx.
    apply (reported_gaps_elem_of rest old_slot s x Hsorted Hrest') in Hx'. lia.
Qed.

Lemma sorted_slots_above (slots : list Z) (old_slot : Z) :
  StronglySorted Z.gt (slots ++ [old_slot]) -> Forall (fun s => old_slot < s) slots.
Proof.
  induction slots as [| s rest IH]; cbn; intros Hsorted; [constructor |].
  apply StronglySorted_inv in Hsorted as [Hsorted Hall].
  constructor; [| now apply IH].
  rewrite Forall_app, Forall_singleton in Hall. lia.
Qed.

Lemma sorted_slots_below_first (s : Z) (rest : list Z) (old_slot : Z) :
  StronglySorted Z.gt ((s :: rest) ++ [old_slot]) -> Forall (fun y => y <= s) (s :: rest).
Proof.
  cbn. intros Hsorted. apply StronglySorted_inv in Hsorted as [_ Hall].
  rewrite Forall_app in Hall. destruct Hall as [Hr _].
  constructor; [lia |]. eapply Forall_impl; [exact Hr |]. cbn. intros; lia.
Qed.

(** On a parent chain from the new head to the old head through blocks of
    strictly decreasing slots above the old head slot, [__compute_conf_times]
    returns one confirmation time per visited block and appends the slots at
    which no block was visited; nothing else in [self] changes. *)
Lemma compute_conf_times_chain
    (ci : conf_info) (self : ConfRule) (old_root new_root : string)
    (new_head : node) (visited : list node) (fuel : nat) :
  confirmed_head_root self = Some old_root ->
  dict_get new_root (ci_nodes ci) = Some new_head ->
  parent_chain ci old_root new_root visited ->
  StronglySorted Z.gt (map node_slot visited ++ [confirmed_head_slot self]) ->
  (length visited <= fuel)%nat ->
  compute_conf_times fuel new_root ci self
  = (set_empty_or_forked_slots
       (empty_or_forked_slots self
        ++ reported_gaps (node_slot new_head) (map node_slot visited)
             (confirmed_head_slot self))
       self,
     Ok (map (conf_time self) visited)).
Proof.
  intros Hold Hnew Hchain Hsorted Hfuel.
  set (old_slot := confirmed_head_slot self) in *.
  set (slots := map node_slot visited) in *.
  unfold compute_conf_times.
  rewrite (get_node_Some _ _ _ Hnew), Hold. fold old_slot.
  rewrite (compute_conf_times_loop_chain ci old_root old_slot visited fuel
             new_root (node_slot new_head) [] self Hchain); [| | exact Hfuel].
  2:{ apply sorted_slots_above in Hsorted. unfold slots in Hsorted.
      now rewrite Forall_map in Hsorted. }
  fold slots. rewrite guarded_range. cbn [app].
  unfold set_empty_or_forked_slots at 1 2. cbn.
  now rewrite <- app_assoc, reported_gaps_split.
Qed.

Lemma compute_conf_times_loop_fuel (ci : conf_info) (old_root : string) (old_slot : Z)
    (visited : list node) :
  forall (fuel : nat) (root : string) (pre_slot : Z) (times : list Z)
         (self self' : ConfRule) (r : Z * list Z),
    parent_chain ci old_root root visited ->
    Forall (fun n => old_slot < node_slot n) visited ->
    compute_conf_times_loop fuel ci (Some old_root) old_slot root pre_slot times self
    = (self', Ok r) ->
    (length visited <= fuel)%nat.
Proof.
  induction visited as [| n rest IH];
    intros fuel root pre_slot times self self' r Hchain Habove Hrun; [cbn; lia |].
  inversion Hchain as [| root' n' rest' Hne Hnode Hrest]; subst.
  apply Forall_cons in Habove as [Hn Habove].
  assert (Hgo : opt_root_eqb (Some old_root) root = false).
  { cbn. apply String.eqb_neq. congruence. }
  destruct fuel as [| fuel]; cbn [compute_conf_times_loop] in Hrun; rewrite Hgo in Hrun;
    [discriminate |].
  rewrite (get_node_Some _ _ _ Hnode) in Hrun.
  destruct (Z.leb_spec (node_slot n) old_slot); [lia |].
  apply IH in Hrun; [cbn; lia | assumption | assumption].
Qed.

Example compute_conf_times_jump_10_13 :
  compute_conf_times 5 "b13" gap_snapshot gap_engine
  = (set_empty_or_forked_slots [11; 12] gap_engine, Ok [4]).
Proof. reflexivity. Qed.

(** ** Applying one snapshot twice *)

Lemma is_one_lmd_confirmed_agree (a b : ConfRule) (ci : conf_info) (root : string) :
  agree_clock a b -> is_one_lmd_confirmed a ci root = is_one_lmd_confirmed b ci root.
Proof.
  intros [Hs [Hb _]]. unfold is_one_lmd_confirmed, one_lmd_sides. now rewrite Hs, Hb.
Qed.

Lemma ffg_check_agree (fuel : nat) (a b : ConfRule) (ci : conf_info) (root : string) :
  agree_clock a b -> ffg_check fuel a ci root = ffg_check fuel b ci root.
Proof.
  intros [Hs [Hb Hl]].
  unfold ffg_check, ffg_sides, get_remaining_weight_in_epoch. now rewrite Hs, Hb, Hl.
Qed.

Lemma is_lmd_confirmed_agree (fuel : nat) (a b : ConfRule) (ci : conf_info) (root : string) :
  agree_clock a b ->
  confirmed_head_root a = confirmed_head_root b ->
  is_lmd_confirmed fuel a ci root = is_lmd_confirmed fuel b ci root.
Proof.
  intros Hclock Hhead. revert root.
  induction fuel as [| fuel IH]; intros root; cbn [is_lmd_confirmed]; [reflexivity |].
  rewrite Hhead, (is_one_lmd_confirmed_agree a b ci root Hclock).
  destruct (get_node ci root) as [n | e]; cbn [bind]; [| reflexivity].
  destruct (_ || _); [reflexivity |].
  destruct (is_one_lmd_confirmed b ci root) as [[|] | e]; cbn [bind];
    [apply IH | reflexivity | reflexivity].
Qed.

(** More fuel does not change a result already obtained. *)
Lemma is_lmd_confirmed_more_fuel (self : ConfRule) (ci : conf_info) :
  forall (fuel fuel' : nat) (root : string) (v : bool),
    is_lmd_confirmed fuel self ci root = Ok v ->
    (fuel <= fuel')%nat ->
    is_lmd_confirmed fuel' self ci root = Ok v.
Proof.
  induction fuel as [| fuel IH]; intros fuel' root v H Hle; [discriminate |].
  destruct fuel' as [| fuel']; [lia |].
  cbn [is_lmd_confirmed] in *.
  destruct (get_node ci root) as [n | e]; cbn [bind] in *; [| discriminate].
  destruct (_ || _); [assumption |].
  destruct (is_one_lmd_confirmed self ci root) as [[|] | e]; cbn [bind] in *;
    [| assumption | discriminate].
  apply IH; [assumption | lia].
Qed.

Lemma is_lmd_confirmed_deterministic (self : ConfRule) (ci : conf_info)
    (fuel fuel' : nat) (root : string) (v v' : bool) :
  is_lmd_confirmed fuel self ci root = Ok v ->
  is_lmd_confirmed fuel' self ci root = Ok v' ->
  v = v'.
Proof.
  intros H H'.
  apply (is_lmd_confirmed_more_fuel _ _ _ (Nat.max fuel fuel')) in H; [| lia].
  apply (is_lmd_confirmed_more_fuel _ _ _ (Nat.max fuel fuel')) in H'; [| lia].
  congruence.
Qed.

(** A block [__is_confirmed] accepts is LMD-confirmed. *)
Lemma is_confirmed_true_lmd (fuel : nat) (ci : conf_info) (root : string)
    (self self' : ConfRule) :
  is_confirmed fuel ci root self = (self', Ok true) ->
  exists fuel' : nat, is_lmd_confirmed fuel' self ci root = Ok true.
Proof.
  unfold is_confirmed.
  destruct (get_node ci root) as [block | e] eqn:Hb; [| discriminate].
  destruct (_ || _) eqn:Hfast.
  { intros _. exists 1%nat. cbn [is_lmd_confirmed]. rewrite Hb. cbn [bind].
    now rewrite Hfast. }
  destruct (get_checkpoint_block fuel root ci _) as [second | e]; [| discriminate].
  destruct (_ =? _).
  - destruct (is_lmd_confirmed fuel self ci root) as [l | e] eqn:Hl; [| discriminate].
    destruct l; [eauto |]. rewrite andb_false_r. discriminate.
  - destruct (_ =? _); [| discriminate].
    destruct (String.eqb second (ci_finalized_checkpoint ci)).
    + intros [= _ H]. eauto.
    + destruct (get_checkpoint_block fuel root ci _) as [third | e]; [| discriminate].
      destruct (is_lmd_confirmed fuel self ci root) as [l | e] eqn:Hl; [| discriminate].
      destruct l; [eauto |]. rewrite andb_false_r. cbn. discriminate.
Qed.

(** One step of the walk for the confirmed head. *)
Lemma find_confirmed_block_head_step (fuel depth : nat) (ci : conf_info)
    (root new_root : string) (self self' : ConfRule) :
  find_confirmed_block_head fuel (S depth) ci root self = (self', Ok new_root) ->
  (is_confirmed fuel ci root self = (self', Ok true) /\ new_root = root)
  \/ (is_confirmed fuel ci root self = (self, Ok false)
      /\ exists block : node,
           get_node ci root = Ok block
           /\ find_confirmed_block_head fuel depth ci (node_parent_root block) self
              = (self', Ok new_root)).
Proof.
  cbn [find_confirmed_block_head].
  destruct (is_confirmed fuel ci root self) as [self1 [[|] | e]] eqn:Hc.
  - intros [= <- <-]. now left.
  - pose proof (is_confirmed_false_frame _ _ _ _ _ Hc) as ->.
    destruct (get_node ci root) as [block | e]; [| discriminate].
    intros H. right. eauto.
  - discriminate.
Qed.

Lemma find_confirmed_block_head_end (fuel : nat) (ci : conf_info) (new_root : string)
    (self : ConfRule) :
  forall (depth : nat) (root : string) (self' : ConfRule),
    find_confirmed_block_head fuel depth ci root self = (self', Ok new_root) ->
    is_confirmed fuel ci new_root self = (self', Ok true).
Proof.
  induction depth as [| depth IH]; intros root self' H; [discriminate |].
  apply find_confirmed_block_head_step in H as [[H ->] | [_ [block [_ H]]]];
    [assumption | eauto].
Qed.

Lemma opt_root_eqb_true (o : option string) (root : string) :
  opt_root_eqb o root = true <-> o = Some root.
Proof.
  destruct o as [r |]; cbn; [| split; discriminate].
  rewrite String.eqb_eq. split; congruence.
Qed.

(** Once the walk has stopped at [new_root], taking [new_root] as the
    confirmed head does not change which blocks above it are LMD-confirmed. *)
Lemma is_lmd_confirmed_new_head (fuel : nat) (ci : conf_info) (new_root : string)
    (a b : ConfRule) (fuel0 : nat) :
  agree_clock a b ->
  confirmed_head_root b = Some new_root ->
  is_lmd_confirmed fuel0 a ci new_root = Ok true ->
  forall (fuel2 depth : nat) (root : string) (a' : ConfRule) (v : bool),
    find_confirmed_block_head fuel depth ci root a = (a', Ok new_root) ->
    is_lmd_confirmed fuel2 a ci root = Ok v ->
    is_lmd_confirmed fuel2 b ci root = Ok v.
Proof.
  intros Hclock Hhead Hnew.
  induction fuel2 as [| fuel2 IH]; intros depth root a' v Hwalk Hlmd; [discriminate |].
  cbn [is_lmd_confirmed] in *.
  destruct (get_node ci root) as [n | e] eqn:Hn; cbn [bind] in *; [| discriminate].
  destruct depth as [| depth]; [discriminate |].
  apply find_confirmed_block_head_step in Hwalk as [[Hc ->] | [Hc [n' [Hn' Hwalk]]]].
  - (* the walk stops here: [root] is the new head *)
    rewrite Hhead. cbn [opt_root_eqb]. rewrite String.eqb_refl, orb_true_r.
    f_equal. apply (is_lmd_confirmed_deterministic a ci fuel0 (S fuel2) root true v Hnew).
    cbn [is_lmd_confirmed]. rewrite Hn. cbn [bind]. exact Hlmd.
  - assert (n' = n) by congruence. subst n'.
    (* [root] is not confirmed in [a], so it is neither finalized nor a head *)
    assert (Hfast : String.eqb (ci_finalized_checkpoint ci) root
                    || opt_root_eqb (confirmed_head_root a) root = false).
    { unfold is_confirmed in Hc. rewrite Hn in Hc.
      destruct (_ || _); [discriminate | reflexivity]. }
    rewrite Hfast in Hlmd. apply orb_false_iff in Hfast as [Hfin _]. rewrite Hfin.
    assert (Hne : opt_root_eqb (confirmed_head_root b) root = false).
    { destruct (opt_root_eqb (confirmed_head_root b) root) eqn:E; [| reflexivity].
      apply opt_root_eqb_true in E. assert (new_root = root) by congruence. subst.
      apply find_confirmed_block_head_end in Hwalk. congruence. }
    rewrite Hne. cbn [orb].
    rewrite <- (is_one_lmd_confirmed_agree a b ci root Hclock).
    destruct (is_one_lmd_confirmed a ci root) as [[|] | e]; cbn [bind] in *;
      [| assumption | discriminate].
    eapply IH; eassumption.
Qed.

Lemma is_lmd_confirmed_later (fuel : nat) (ci : conf_info) (new_root : string)
    (a b : ConfRule) (fuel0 : nat) :
  later_view ci new_root a b ->
  is_lmd_confirmed fuel0 a ci new_root = Ok true ->
  forall (fuel2 depth : nat) (root : string) (a' : ConfRule) (v : bool),
    find_confirmed_block_head fuel depth ci root a = (a', Ok new_root) ->
    is_lmd_confirmed fuel2 a ci root = Ok v ->
    is_lmd_confirmed fuel2 b ci root = Ok v.
Proof.
  intros [Hclock [Hhead | Hhead] _] Hnew fuel2 depth root a' v Hwalk Hlmd.
  - now rewrite <- (is_lmd_confirmed_agree fuel2 a b ci root Hclock (eq_sym Hhead)).
  - eapply is_lmd_confirmed_new_head; eassumption.
Qed.

Lemma is_ffg_confirmed_value (fuel : nat) (ci : conf_info) (root : string)
    (self self' : ConfRule) (v : bool) :
  is_ffg_confirmed fuel ci root self = (self', Ok v) ->
  exists c : string, ffg_check fuel self ci root = Ok (c, v).
Proof.
  unfold is_ffg_confirmed.
  destruct (ffg_check fuel self ci root) as [[c b] | e]; [| discriminate].
  destruct (_ && _); intros [= _ ->]; eauto.
Qed.

Lemma is_ffg_confirmed_of_check (fuel : nat) (ci : conf_info) (root c : string)
    (self : ConfRule) (v : bool) :
  ffg_check fuel self ci root = Ok (c, v) ->
  exists self' : ConfRule,
    is_ffg_confirmed fuel ci root self = (self', Ok v)
    /\ same_except_ffg self self'
    /\ (v = false -> self' = self).
Proof.
  intros H. unfold is_ffg_confirmed. rewrite H.
  destruct v; cbn [andb].
  - destruct (_ =? _); eexists; (split; [reflexivity |]); split;
      try discriminate; [right; eauto | now left].
  - eexists; split; [reflexivity |]. split; [now left | reflexivity].
Qed.

Lemma opt_root_eqb_later_head (ci : conf_info) (new_root root : string) (a b : ConfRule) :
  later_view ci new_root a b ->
  root <> new_root ->
  opt_root_eqb (confirmed_head_root b) root = opt_root_eqb (confirmed_head_root a) root
  \/ opt_root_eqb (confirmed_head_root b) root = false.
Proof.
  intros [_ [Hhead | Hhead] _] Hne; rewrite Hhead; [now left | right].
  cbn. apply String.eqb_neq. congruence.
Qed.

(** A block the first walk passed as not confirmed is still not confirmed in
    the later state, unless it is a block of the previous epoch that the
    checkpoint FFG-confirmed in between now confirms; the first walk then
    stopped in the current epoch, at a higher slot. *)
Lemma is_confirmed_false_later (fuel : nat) (ci : conf_info) (new_root : string)
    (a b : ConfRule) (fuel0 : nat) :
  later_view ci new_root a b ->
  is_lmd_confirmed fuel0 a ci new_root = Ok true ->
  forall (depth : nat) (root : string) (a' : ConfRule),
    find_confirmed_block_head fuel (S depth) ci root a = (a', Ok new_root) ->
    is_confirmed fuel ci root a = (a, Ok false) ->
    is_confirmed fuel ci root b = (b, Ok false)
    \/ (is_confirmed fuel ci root b = (b, Ok true) /\ slot_below ci root new_root).
Proof.
  intros Hlater Hnew depth root a' Hwalk Hc.
  assert (Hne : root <> new_root).
  { intros ->. apply find_confirmed_block_head_end in Hwalk. congruence. }
  pose proof (fun v => is_lmd_confirmed_later fuel ci new_root a b fuel0 Hlater Hnew
                         fuel (S depth) root a' v Hwalk) as Hlmd.
  pose proof (opt_root_eqb_later_head ci new_root root a b Hlater Hne) as Hhead.
  pose proof (later_clock _ _ _ _ Hlater) as Hclock.
  pose proof (later_ffg _ _ _ _ Hlater) as Hffg.
  pose proof Hclock as [Hslot _].
  unfold slot_below. unfold is_confirmed in *. rewrite <- Hslot.
  destruct (get_node ci root) as [block | e] eqn:Hb; [| discriminate].
  destruct (String.eqb (ci_finalized_checkpoint ci) root
            || opt_root_eqb (confirmed_head_root a) root) eqn:Hfast; [discriminate |].
  assert (Hfast' : String.eqb (ci_finalized_checkpoint ci) root
                   || opt_root_eqb (confirmed_head_root b) root = false).
  { destruct Hhead as [-> | ->]; [assumption |].
    apply orb_false_iff in Hfast as [-> _]. reflexivity. }
  rewrite Hfast'.
  destruct (get_checkpoint_block fuel root ci _) as [second | e]; [| discriminate].
  destruct (Z.eqb_spec (compute_epoch_at_slot (node_slot block))
              (compute_epoch_at_slot (current_slot a))) as [Hep | Hep].
  - left.
    destruct (is_lmd_confirmed fuel a ci root) as [l | e] eqn:Hl; [| discriminate].
    rewrite (Hlmd l eq_refl).
    destruct (_ && _); [| reflexivity].
    apply is_ffg_confirmed_value in Hc as [c Hcheck].
    rewrite (ffg_check_agree fuel a b ci root Hclock) in Hcheck.
    destruct (is_ffg_confirmed_of_check _ _ _ _ _ _ Hcheck) as [b' [Hb' [_ Hsame]]].
    rewrite Hb'. now rewrite Hsame.
  - destruct (Z.eqb_spec (compute_epoch_at_slot (node_slot block))
                (compute_epoch_at_slot (current_slot a) - 1)) as [Hprev | _];
      [| now left].
    destruct (String.eqb second (ci_finalized_checkpoint ci)).
    + left. injection Hc as Hc. now rewrite (Hlmd false Hc).
    + destruct (get_checkpoint_block fuel root ci _) as [third | e]; [| discriminate].
      destruct (is_lmd_confirmed fuel a ci root) as [l | e] eqn:Hl; [| discriminate].
      rewrite (Hlmd l eq_refl).
      destruct Hffg as [-> | [new_head [Hnh Hnew_epoch]]].
      * left. injection Hc as Hc. now rewrite Hc.
      * (* the first walk stopped in the current epoch *)
        clear Hc.
        match goal with |- (_, Ok ?c) = _ \/ _ => destruct c end; [right | now left].
        split; [reflexivity |]. exists block, new_head.
        split; [reflexivity |]. split; [assumption |].
        destruct (Z.lt_ge_cases (node_slot block) (node_slot new_head)) as [Hlt | Hge];
          [assumption | exfalso].
        unfold compute_epoch_at_slot, SLOTS_PER_EPOCH in *.
        assert (node_slot new_head / 32 <= node_slot block / 32)
          by (apply Z.div_le_mono; lia).
        lia.
Qed.

(** The block the first walk stopped at is confirmed in the later state too. *)
Lemma is_confirmed_true_later (fuel : nat) (ci : conf_info) (new_root : string)
    (a a' b : ConfRule) :
  later_view ci new_root a b ->
  is_confirmed fuel ci new_root a = (a', Ok true) ->
  exists b' : ConfRule,
    is_confirmed fuel ci new_root b = (b', Ok true) /\ same_except_ffg b b'.
Proof.
  intros Hlater Hc.
  pose proof (later_clock _ _ _ _ Hlater) as Hclock.
  pose proof Hclock as [Hslot _].
  unfold is_confirmed in *. rewrite <- Hslot.
  destruct (get_node ci new_root) as [block | e] eqn:Hb; [| discriminate].
  destruct (String.eqb (ci_finalized_checkpoint ci) new_root
            || opt_root_eqb (confirmed_head_root b) new_root) eqn:Hfast'.
  { exists b. split; [reflexivity | now left]. }
  assert (Hhead : confirmed_head_root b = confirmed_head_root a).
  { destruct (later_head _ _ _ _ Hlater) as [H | H]; [assumption |].
    rewrite H in Hfast'. cbn in Hfast'. rewrite String.eqb_refl, orb_true_r in Hfast'.
    discriminate. }
  rewrite <- Hhead, Hfast' in Hc.
  destruct (get_checkpoint_block fuel new_root ci _) as [second | e]; [| discriminate].
  rewrite <- (is_lmd_confirmed_agree fuel a b ci new_root Hclock (eq_sym Hhead)).
  destruct (Z.eqb_spec (compute_epoch_at_slot (node_slot block))
              (compute_epoch_at_slot (current_slot a))) as [Hep | Hep].
  - destruct (is_lmd_confirmed fuel a ci new_root) as [l | e]; [| discriminate].
    destruct (_ && _); [| discriminate].
    apply is_ffg_confirmed_value in Hc as [c Hcheck].
    rewrite (ffg_check_agree fuel a b ci new_root Hclock) in Hcheck.
    destruct (is_ffg_confirmed_of_check _ _ _ _ _ _ Hcheck) as [b' [Hb' [Hsame _]]].
    eauto.
  - assert (Hffg : ffg_confirmed_checkpoint b = ffg_confirmed_checkpoint a).
    { destruct (later_ffg _ _ _ _ Hlater) as [H | [block' [Hb' Hep']]]; [assumption |].
      assert (block' = block) by congruence. subst. contradiction. }
    rewrite Hffg.
    destruct (_ =? _); [| discriminate].
    destruct (String.eqb second (ci_finalized_checkpoint ci)).
    + injection Hc as _ Hc. exists b. split; [now rewrite Hc | now left].
    + destruct (get_checkpoint_block fuel new_root ci _) as [third | e]; [| discriminate].
      destruct (is_lmd_confirmed fuel a ci new_root) as [l | e]; [| discriminate].
      injection Hc as _ Hc. exists b. split; [now rewrite Hc | now left].
Qed.

(** In the later state the walk succeeds again, and stops at the same block
    or, before it, at a block of a lower slot. *)
Lemma find_confirmed_block_head_later (fuel : nat) (ci : conf_info) (new_root : string)
    (a b : ConfRule) (fuel0 : nat) :
  later_view ci new_root a b ->
  is_lmd_confirmed fuel0 a ci new_root = Ok true ->
  forall (depth : nat) (root : string) (a' : ConfRule),
    find_confirmed_block_head fuel depth ci root a = (a', Ok new_root) ->
    exists (b' : ConfRule) (stop : string),
      find_confirmed_block_head fuel depth ci root b = (b', Ok stop)
      /\ same_except_ffg b b'
      /\ (stop = new_root \/ slot_below ci stop new_root).
Proof.
  intros Hlater Hnew.
  induction depth as [| depth IH]; intros root a' Hwalk; [discriminate |].
  pose proof Hwalk as Hwalk0.
  apply find_confirmed_block_head_step in Hwalk as [[Hc ->] | [Hc [block [Hb Hrest]]]].
  - destruct (is_confirmed_true_later _ _ _ _ _ _ Hlater Hc) as [b' [Hb' Hsame]].
    exists b', root. cbn [find_confirmed_block_head]. rewrite Hb'. auto.
  - destruct (is_confirmed_false_later fuel ci new_root a b fuel0 Hlater Hnew
                depth root a' Hwalk0 Hc) as [Hc' | [Hc' Hbelow]];
      cbn [find_confirmed_block_head]; rewrite Hc'.
    + rewrite Hb. eauto.
    + exists b, root. split; [reflexivity |]. split; [now left | now right].
Qed.

(** What a successful [record_progress] leaves in [self]. *)
Lemma record_progress_ok (fuel : nat) (record : bool) (ci : conf_info)
    (root : string) (slot : Z) (self self' : ConfRule) :
  record_progress fuel record ci root slot self = (self', Ok tt) ->
  agree_clock self self'
  /\ time_in_current_slot self' = time_in_current_slot self
  /\ processed_slots self' = processed_slots self
  /\ ffg_confirmed_checkpoint self' = ffg_confirmed_checkpoint self
  /\ (confirmed_head_root self' = confirmed_head_root self
      \/ confirmed_head_root self' = Some root)
  /\ slot <= confirmed_head_slot self'.
Proof.
  unfold record_progress, agree_clock.
  destruct (Z.ltb_spec (confirmed_head_slot self) slot) as [Hlt | Hge].
  - destruct record.
    + destruct (compute_conf_times fuel root ci self) as [self1 [times | e]] eqn:Hc;
        [| discriminate].
      apply compute_conf_times_frame in Hc as [l [e ->]].
      intros [= <-]. cbn. repeat split; auto. lia.
    + intros [= <-]. cbn. repeat split; auto. lia.
  - destruct (Z.eqb_spec slot (confirmed_head_slot self));
      intros [= <-]; cbn; repeat split; auto; lia.
Qed.

(** Without progress, [record_progress] succeeds and keeps the confirmed
    head, the confirmation times, the anomaly list and the processed slots. *)
Lemma record_progress_no_progress (fuel : nat) (record : bool) (ci : conf_info)
    (root : string) (slot : Z) (self : ConfRule) :
  slot <= confirmed_head_slot self ->
  exists self' : ConfRule,
    record_progress fuel record ci root slot self = (self', Ok tt)
    /\ confirmed_head_slot self' = confirmed_head_slot self
    /\ confirmed_head_root self' = confirmed_head_root self
    /\ conf_times self' = conf_times self
    /\ empty_or_forked_slots self' = empty_or_forked_slots self
    /\ processed_slots self' = processed_slots self.
Proof.
  intros Hle. unfold record_progress.
  destruct (Z.ltb_spec (confirmed_head_slot self) slot); [lia |].
  destruct (slot =? confirmed_head_slot self); eexists; (split; [reflexivity |]);
    cbn; auto.
Qed.

Lemma same_except_ffg_fields (self self' : ConfRule) :
  same_except_ffg self self' ->
  agree_clock self self'
  /\ time_in_current_slot self' = time_in_current_slot self
  /\ processed_slots self' = processed_slots self
  /\ confirmed_head_root self' = confirmed_head_root self
  /\ confirmed_head_slot self' = confirmed_head_slot self
  /\ conf_times self' = conf_times self
  /\ empty_or_forked_slots self' = empty_or_forked_slots self.
Proof. unfold agree_clock. intros [-> | [c ->]]; cbn; auto 10. Qed.

(** C5. A successful [update_confirmed_head] followed by a second one with
    the same snapshot succeeds again and leaves the confirmed head slot and
    root, the confirmation times, the anomaly list and the set of processed
    slots, hence its size, as the first application left them. *)
Theorem update_confirmed_head_idempotent
    (fuel : nat) (ci : conf_info) (self self1 : ConfRule) :
  current_slot self <= ci_current_slot ci ->
  update_confirmed_head fuel ci self = (self1, Ok tt) ->
  exists self2 : ConfRule,
    update_confirmed_head fuel ci self1 = (self2, Ok tt)
    /\ confirmed_head_slot self2 = confirmed_head_slot self1
    /\ confirmed_head_root self2 = confirmed_head_root self1
    /\ conf_times self2 = conf_times self1
    /\ empty_or_forked_slots self2 = empty_or_forked_slots self1
    /\ processed_slots self2 = processed_slots self1
    /\ size (processed_slots self2) = size (processed_slots self1).
Proof.
  intros Hle Hfirst. unfold update_confirmed_head in Hfirst.
  destruct (Z.ltb_spec (ci_current_slot ci) (current_slot self)); [lia |].
  destruct (find_head_root ci) as [head | e] eqn:Hhead; [| discriminate].
  set (a := set_clock (ci_current_slot ci) (ci_current_time_in_slot ci) self) in *.
  destruct (find_confirmed_block_head fuel fuel ci head a) as [a2 [new_root | e]] eqn:Hwalk;
    [| discriminate].
  destruct (get_node ci new_root) as [new_head | e] eqn:Hnew_head; [| discriminate].
  apply record_progress_ok in Hfirst
    as [[Hslot1 [Hbyz1 Hsl1]] [Htime1 [Hproc1 [Hffg1 [Hroot1 Hnew_slot]]]]].
  pose proof (same_except_ffg_fields _ _ (same_except_ffg_of_find _ _ _ _ _ _ _ Hwalk))
    as [[Hslot2 [Hbyz2 Hsl2]] [Htime2 [Hproc2 [Hroot2 [Hhs2 _]]]]].
  (* the second application starts from a later view of the first walk *)
  set (b := set_clock (ci_current_slot ci) (ci_current_time_in_slot ci) self1).
  assert (Hlater : later_view ci new_root a b).
  { constructor.
    - unfold agree_clock. unfold a in Hbyz2, Hsl2. cbn in *.
      split; [reflexivity |]. split; congruence.
    - unfold a in Hroot2. cbn in *.
      destruct Hroot1 as [H1 | H1]; [left; congruence | now right].
    - cbn. rewrite Hffg1.
      apply find_confirmed_block_head_frame in Hwalk
        as [-> | [c [r [block [-> [Hr [Hblock Hep]]]]]]]; [now left | right].
      injection Hr as <-. eauto. }
  assert (Hlmd : exists fuel0, is_lmd_confirmed fuel0 a ci new_root = Ok true).
  { apply find_confirmed_block_head_end in Hwalk.
    now apply is_confirmed_true_lmd in Hwalk. }
  destruct Hlmd as [fuel0 Hlmd].
  destruct (find_confirmed_block_head_later fuel ci new_root a b fuel0 Hlater Hlmd
              fuel head a2 Hwalk) as [b1 [stop [Hwalk' [Hsame Hstop]]]].
  apply same_except_ffg_fields in Hsame
    as [_ [_ [Hproc3 [Hroot3 [Hhs3 [Hct3 Hef3]]]]]].
  (* the block the second walk stops at has a slot not above the stored one *)
  assert (Hstop_node : exists stop_node : node,
            get_node ci stop = Ok stop_node
            /\ node_slot stop_node <= confirmed_head_slot b1).
  { rewrite Hhs3. cbn. destruct Hstop as [-> | [block [new_head' [Hb [Hn Hlt]]]]].
    - eauto.
    - assert (new_head' = new_head) by congruence. subst. exists block.
      split; [assumption | lia]. }
  destruct Hstop_node as [stop_node [Hstop_node Hstop_slot]].
  destruct (record_progress_no_progress fuel
              (negb (current_slot self1 + 1 <? ci_current_slot ci)) ci stop
              (node_slot stop_node) b1 Hstop_slot)
    as [self2 [Hsecond [Hhs [Hroot [Hct [Hef Hproc]]]]]].
  assert (Hclock : current_slot self1 = ci_current_slot ci)
    by (rewrite <- Hslot1, <- Hslot2; reflexivity).
  assert (Hsame_set : processed_slots self2 = processed_slots self1).
  { rewrite Hproc, Hproc3. cbn. rewrite Hproc1, Hproc2. cbn.
    now rewrite (assoc_L (∪)), union_idemp_L. }
  exists self2. split.
  - unfold update_confirmed_head. rewrite Hclock, Z.ltb_irrefl, Hhead.
    fold b. rewrite Hwalk', Hstop_node. rewrite <- Hclock at 1. exact Hsecond.
  - rewrite Hhs, Hroot, Hct, Hef, Hhs3, Hroot3, Hct3, Hef3, Hsame_set. cbn. auto 10.
Qed.

Example update_confirmed_head_example :
  let self1 := fst (update_confirmed_head 10 example_snapshot example_engine_before) in
  snd (update_confirmed_head 10 example_snapshot example_engine_before) = Ok tt
  /\ confirmed_head_root self1 = Some "b73"
  /\ confirmed_head_slot self1 = 73
  /\ conf_times self1 = [51]
  /\ empty_or_forked_slots self1 = [71; 72].
Proof. repeat split. Qed.

Lemma update_confirmed_head_idempotent_witness :
  let ci := example_snapshot in
  let self1 := fst (update_confirmed_head 10 ci example_engine_before) in
  (current_slot example_engine_before <= ci_current_slot ci
   /\ update_confirmed_head 10 ci example_engine_before = (self1, Ok tt))
  /\ exists self2 : ConfRule,
       update_confirmed_head 10 ci self1 = (self2, Ok tt)
       /\ confirmed_head_slot self2 = confirmed_head_slot self1
       /\ confirmed_head_root self2 = confirmed_head_root self1
       /\ conf_times self2 = conf_times self1
       /\ empty_or_forked_slots self2 = empty_or_forked_slots self1
       /\ processed_slots self2 = processed_slots self1
       /\ size (processed_slots self2) = size (processed_slots self1).
Proof.
  split.
  - split; [discriminate | reflexivity].
  - apply (update_confirmed_head_idempotent 10 example_snapshot example_engine_before
             (fst (update_confirmed_head 10 example_snapshot example_engine_before)));
      [discriminate | reflexivity].
Defined.

(** ** Gaps and confirmation times recorded by an update *)

(** C8 fails without a condition on the snapshots: the engine last saw slot
    75 with the block of slot 70 as confirmed head, and the next snapshot is
    of slot 77.  The update succeeds and the confirmed head advances from slot
    70 to the block of slot 73, whose parent is the old head, yet no slot is
    appended to [empty_or_forked_slots] and no confirmation time is
    recorded. *)
Lemma update_confirmed_head_gap_not_recorded :
  let self' := fst (update_confirmed_head 5 example_snapshot example_engine_two_before) in
  snd (update_confirmed_head 5 example_snapshot example_engine_two_before) = Ok tt
  /\ confirmed_head_root example_engine_two_before = Some "b70"
  /\ confirmed_head_slot example_engine_two_before = 70
  /\ confirmed_head_root self' = Some "b73"
  /\ confirmed_head_slot self' = 73
  /\ option_map node_parent_root (dict_get "b73" (ci_nodes example_snapshot)) = Some "b70"
  /\ empty_or_forked_slots example_engine_two_before = []
  /\ empty_or_forked_slots self' = []
  /\ conf_times self' = [].
Proof. vm_compute. repeat split. Qed.

(** C8, as the code has it.  When a snapshot is at most one slot after the
    slot the engine held, and a successful [update_confirmed_head] advances
    the confirmed head from the old head to a new head whose parent chain
    reaches the old head through blocks of strictly decreasing slots above the
    old head slot, the update appends one confirmation time per visited block,
    [(current_slot - slot) * SLOT_LEN + time_in_current_slot] with the slot
    and time of the snapshot, in the order of the walk, and appends to
    [empty_or_forked_slots], each once, exactly the slots strictly between
    the old and the new head slot at which no block was visited. *)
Theorem update_confirmed_head_gap_detection
    (fuel : nat) (ci : conf_info) (self self' : ConfRule) (old_root new_root : string)
    (new_head : node) (rest : list node) :
  update_confirmed_head fuel ci self = (self', Ok tt) ->
  ci_current_slot ci <= current_slot self + 1 ->
  confirmed_head_root self = Some old_root ->
  confirmed_head_root self' = Some new_root ->
  parent_chain ci old_root new_root (new_head :: rest) ->
  StronglySorted Z.gt
    (map node_slot (new_head :: rest) ++ [confirmed_head_slot self]) ->
  confirmed_head_slot self' = node_slot new_head
  /\ conf_times self'
     = conf_times self
       ++ map (fun n => (ci_current_slot ci - node_slot n) * SLOT_LEN
                        + ci_current_time_in_slot ci)
            (new_head :: rest)
  /\ exists gaps : list Z,
       empty_or_forked_slots self' = empty_or_forked_slots self ++ gaps
       /\ NoDup gaps
       /\ (forall x : Z,
             x ∈ gaps
             <-> (confirmed_head_slot self < x < node_slot new_head
                  /\ x ∉ map node_slot (new_head :: rest))).
Proof.
  intros Hrun Hnext Hold Hnew Hchain Hsorted.
  assert (Hne : new_root <> old_root) by (inversion Hchain; assumption).
  assert (Hhead : dict_get new_root (ci_nodes ci) = Some new_head)
    by (inversion Hchain; assumption).
  unfold update_confirmed_head in Hrun.
  destruct (Z.ltb_spec (ci_current_slot ci) (current_slot self)); [discriminate |].
  destruct (Z.ltb_spec (current_slot self + 1) (ci_current_slot ci)); [lia |].
  cbn [negb] in Hrun.
  destruct (find_head_root ci) as [head_root | ?]; [| discriminate].
  set (self1 := set_clock (ci_current_slot ci) (ci_current_time_in_slot ci) self) in *.
  destruct (find_confirmed_block_head fuel fuel ci head_root self1)
    as [self2 [found | ?]] eqn:Hfind; [| discriminate].
  apply same_except_ffg_of_find, same_except_ffg_fields in Hfind
    as ([Hslot2 _] & Htime2 & _ & Hroot2 & Hhslot2 & Htimes2 & Hgaps2).
  cbn in Hslot2, Htime2, Hroot2, Hhslot2, Htimes2, Hgaps2.
  destruct (get_node ci found) as [found_node | ?] eqn:Hfound; [| discriminate].
  unfold record_progress in Hrun.
  destruct (Z.ltb_spec (confirmed_head_slot self2) (node_slot found_node)) as [Hprog | Hno].
  - destruct (compute_conf_times fuel found ci self2) as [self3 [times | ?]] eqn:Hcct;
      [| discriminate].
    injection Hrun as <-. cbn in Hnew |- *.
    assert (found = new_root) by congruence. subst found.
    assert (found_node = new_head).
    { unfold get_node in Hfound. rewrite Hhead in Hfound. congruence. }
    subst found_node.
    assert (Hold2 : confirmed_head_root self2 = Some old_root) by congruence.
    assert (Hsorted2 : StronglySorted Z.gt
                         (map node_slot (new_head :: rest) ++ [confirmed_head_slot self2]))
      by (rewrite Hhslot2; exact Hsorted).
    assert (Hfuel : (length (new_head :: rest) <= fuel)%nat).
    { unfold compute_conf_times in Hcct. rewrite Hfound, Hold2 in Hcct.
      destruct (compute_conf_times_loop fuel ci (Some old_root) (confirmed_head_slot self2)
                  new_root (node_slot new_head) [] self2) as [s [r | ?]] eqn:Hloop;
        [| discriminate].
      apply (compute_conf_times_loop_fuel ci old_root (confirmed_head_slot self2)
               (new_head :: rest) fuel new_root _ _ _ _ _ Hchain) in Hloop;
        [exact Hloop |].
      apply sorted_slots_above in Hsorted2. now rewrite Forall_map in Hsorted2. }
    rewrite (compute_conf_times_chain ci self2 old_root new_root new_head
               (new_head :: rest) fuel Hold2 Hhead Hchain Hsorted2 Hfuel) in Hcct.
    injection Hcct as <- <-. cbn.
    split; [reflexivity |]. split.
    + rewrite Htimes2. f_equal. unfold conf_time. rewrite <- Hslot2, Htime2.
      reflexivity.
    + exists (reported_gaps (node_slot new_head) (map node_slot (new_head :: rest))
                (confirmed_head_slot self)).
      rewrite Hgaps2, Hhslot2.
      assert (Hbelow : Forall (fun s => s <= node_slot new_head)
                         (map node_slot (new_head :: rest)))
        by (apply (sorted_slots_below_first _ _ (confirmed_head_slot self) Hsorted)).
      split; [reflexivity |]. split.
      * now apply reported_gaps_NoDup.
      * intros x. now apply reported_gaps_elem_of.
  - exfalso.
    destruct (Z.eqb_spec (node_slot found_node) (confirmed_head_slot self2));
      injection Hrun as <-; cbn in Hnew; congruence.
Qed.

Lemma update_confirmed_head_gap_detection_witness :
  let new_head := snd (example_node "b73" 73 "b70" (5 * 100 * VALIDATOR_BALANCE)) in
  let self' := fst (update_confirmed_head 5 example_snapshot example_engine_before) in
  (update_confirmed_head 5 example_snapshot example_engine_before = (self', Ok tt)
   /\ ci_current_slot example_snapshot <= current_slot example_engine_before + 1
   /\ confirmed_head_root example_engine_before = Some "b70"
   /\ confirmed_head_root self' = Some "b73"
   /\ parent_chain example_snapshot "b70" "b73" [new_head]
   /\ StronglySorted Z.gt
        (map node_slot [new_head] ++ [confirmed_head_slot example_engine_before]))
  /\ (empty_or_forked_slots self' = [71; 72] /\ conf_times self' = [51])
  /\ confirmed_head_slot self' = node_slot new_head
  /\ conf_times self'
     = conf_times example_engine_before
       ++ map (fun n => (ci_current_slot example_snapshot - node_slot n) * SLOT_LEN
                        + ci_current_time_in_slot example_snapshot)
            [new_head]
  /\ exists gaps : list Z,
       empty_or_forked_slots self' = empty_or_forked_slots example_engine_before ++ gaps
       /\ NoDup gaps
       /\ (forall x : Z,
             x ∈ gaps
             <-> (confirmed_head_slot example_engine_before < x < node_slot new_head
                  /\ x ∉ map node_slot [new_head])).
Proof.
  intros new_head self'.
  assert (Hrun : update_confirmed_head 5 example_snapshot example_engine_before
                 = (self', Ok tt))
    by (vm_compute; reflexivity).
  assert (Hchain : parent_chain example_snapshot "b70" "b73" [new_head]).
  { apply chain_step; [discriminate | reflexivity | apply chain_done]. }
  assert (Hsorted : StronglySorted Z.gt
                      (map node_slot [new_head]
                       ++ [confirmed_head_slot example_engine_before])).
  { repeat constructor. }
  assert (Hroot : confirmed_head_root self' = Some "b73") by (vm_compute; reflexivity).
  split; [repeat split; try assumption; (reflexivity || (vm_compute; discriminate)) |].
  split; [split; vm_compute; reflexivity |].
  exact (update_confirmed_head_gap_detection 5 example_snapshot example_engine_before self'
           "b70" "b73" new_head [] Hrun ltac:(vm_compute; discriminate) eq_refl
           Hroot Hchain Hsorted).
Defined.

(** * Further properties of the code *)

(** ** Head selection *)

Lemma ascii_compare_refl (x : Ascii.ascii) : Ascii.compare x x = Eq.
Proof. unfold Ascii.compare. apply N.compare_refl. Qed.

Lemma ascii_compare_lt_trans (x y z : Ascii.ascii) :
  Ascii.compare x y = Lt -> Ascii.compare y z = Lt -> Ascii.compare x z = Lt.
Proof.
  unfold Ascii.compare. intros H1 H2.
  apply N.compare_lt_iff in H1. apply N.compare_lt_iff in H2.
  apply N.compare_lt_iff. eapply N.lt_trans; eassumption.
Qed.

Lemma string_compare_refl (a : string) : String.compare a a = Eq.
Proof.
  induction a as [| x a IH]; cbn; [reflexivity | now rewrite ascii_compare_refl].
Qed.

Lemma string_compare_lt_trans (a b d : string) :
  String.compare a b = Lt -> String.compare b d = Lt -> String.compare a d = Lt.
Proof.
  revert b d. induction a as [| x a IH]; intros [| y b] [| z d]; cbn;
    try discriminate; try reflexivity.
  destruct (Ascii.compare x y) eqn:Hxy; try discriminate;
    destruct (Ascii.compare y z) eqn:Hyz; try discriminate; intros H1 H2.
  - apply Ascii.compare_eq_iff in Hxy, Hyz. subst.
    rewrite ascii_compare_refl. now apply (IH b d).
  - apply Ascii.compare_eq_iff in Hxy. subst. now rewrite Hyz.
  - apply Ascii.compare_eq_iff in Hyz. subst. now rewrite Hxy.
  - now rewrite (ascii_compare_lt_trans x y z Hxy Hyz).
Qed.

Lemma string_leb_trans (a b d : string) :
  String.leb a b = true -> String.leb b d = true -> String.leb a d = true.
Proof.
  unfold String.leb.
  destruct (String.compare a b) eqn:Hab; try discriminate;
    destruct (String.compare b d) eqn:Hbd; try discriminate; intros _ _.
  - apply String.compare_eq_iff in Hab, Hbd. subst.
    now rewrite string_compare_refl.
  - apply String.compare_eq_iff in Hab. subst. now rewrite Hbd.
  - apply String.compare_eq_iff in Hbd. subst. now rewrite Hab.
  - now rewrite (string_compare_lt_trans a b d Hab Hbd).
Qed.

Lemma string_leb_false (a b : string) : String.leb a b = false -> String.ltb b a = true.
Proof.
  unfold String.leb, String.ltb. rewrite (String.compare_antisym b a).
  destruct (String.compare a b); cbn; intros H; (reflexivity || discriminate).
Qed.

Lemma string_ltb_false (a b : string) : String.ltb a b = false -> String.leb b a = true.
Proof.
  unfold String.leb, String.ltb. rewrite (String.compare_antisym b a).
  destruct (String.compare a b); cbn; intros H; (reflexivity || discriminate).
Qed.

Lemma string_leb_not_ltb (a b : string) : String.leb a b = true -> String.ltb b a = false.
Proof.
  unfold String.leb, String.ltb. rewrite (String.compare_antisym b a).
  destruct (String.compare a b); cbn; intros H; (reflexivity || discriminate).
Qed.

Lemma string_ltb_leb (a b : string) : String.ltb a b = true -> String.leb a b = true.
Proof.
  unfold String.leb, String.ltb.
  destruct (String.compare a b); intros H; (reflexivity || discriminate).
Qed.

Lemma string_leb_ltb_trans (a b d : string) :
  String.leb a b = true -> String.ltb b d = true -> String.ltb a d = true.
Proof.
  unfold String.leb, String.ltb.
  destruct (String.compare a b) eqn:Hab; try discriminate;
    destruct (String.compare b d) eqn:Hbd; try discriminate; intros _ _.
  - apply String.compare_eq_iff in Hab. subst. now rewrite Hbd.
  - now rewrite (string_compare_lt_trans a b d Hab Hbd).
Qed.

Lemma insert_by_slot_sorted (x : string * node) (l : list (string * node)) :
  StronglySorted slot_le l -> StronglySorted slot_le (insert_by_slot x l).
Proof.
  induction 1 as [| y l Hsorted IH Hall]; cbn [insert_by_slot].
  - repeat constructor.
  - destruct (String.leb (raw_slot (snd x)) (raw_slot (snd y))) eqn:Hxy.
    + constructor; [now constructor |].
      constructor; [exact Hxy |].
      eapply Forall_impl; [exact Hall |]. unfold slot_le. cbn. intros z Hz.
      now apply (string_leb_trans _ _ _ Hxy).
    + constructor; [exact IH |].
      assert (Hin : forall z, In z (insert_by_slot x l) -> z = x \/ In z l).
      { clear. induction l as [| w l IHl]; cbn; intros z Hz.
        - destruct Hz as [-> | []]. now left.
        - destruct (String.leb _ _); cbn in Hz.
          + destruct Hz as [-> | Hz]; [now left | now right].
          + destruct Hz as [-> | Hz]; [right; now left |].
            destruct (IHl _ Hz) as [-> | H]; [now left | right; now right]. }
      rewrite List.Forall_forall. intros z Hz.
      destruct (Hin z Hz) as [-> | Hz'].
      * unfold slot_le. now apply string_ltb_leb, string_leb_false.
      * rewrite List.Forall_forall in Hall. now apply Hall.
Qed.

Lemma sorted_by_slot_sorted (d : list (string * node)) :
  StronglySorted slot_le (sorted_by_slot d).
Proof.
  induction d as [| x d IH]; cbn; [constructor | now apply insert_by_slot_sorted].
Qed.

Lemma last_insert_by_slot (x : string * node) (l : list (string * node)) :
  StronglySorted slot_le l ->
  last (insert_by_slot x l)
  = match last l with
    | None => Some x
    | Some y =>
        if String.ltb (raw_slot (snd y)) (raw_slot (snd x)) then Some x else Some y
    end.
Proof.
  induction 1 as [| y l Hsorted IH Hall]; cbn [insert_by_slot]; [reflexivity |].
  destruct (String.leb (raw_slot (snd x)) (raw_slot (snd y))) eqn:Hxy.
  - (* [x] goes in front: the last entry stays, and it is not below [x] *)
    change (last (x :: y :: l)) with (last (y :: l)).
    destruct (last (y :: l)) as [z |] eqn:Hlast;
      [| apply last_None in Hlast; discriminate].
    assert (Hz : slot_le y z).
    { destruct l as [| w l].
      - cbn in Hlast. injection Hlast as <-. unfold slot_le, String.leb.
        now rewrite string_compare_refl.
      - assert (Hin : In z (w :: l)).
        { apply list_elem_of_In. change (last (y :: w :: l)) with (last (w :: l)) in Hlast.
          now apply last_Some_elem_of. }
        rewrite List.Forall_forall in Hall. now apply Hall. }
    now rewrite (string_leb_not_ltb _ _ (string_leb_trans _ _ _ Hxy Hz)).
  - destruct l as [| w l].
    + cbn. now rewrite (string_leb_false _ _ Hxy).
    + change (last (y :: insert_by_slot x (w :: l))) with
        (match insert_by_slot x (w :: l) with
         | [] => Some y | _ => last (insert_by_slot x (w :: l)) end).
      change (last (y :: w :: l)) with (last (w :: l)).
      rewrite IH. cbn [insert_by_slot].
      destruct (String.leb (raw_slot (snd x)) (raw_slot (snd w))); reflexivity.
Qed.

Lemma last_sorted_by_slot (d : list (string * node)) :
  last (sorted_by_slot d) = head_entry d.
Proof.
  induction d as [| x d IH]; cbn [sorted_by_slot foldr head_entry]; [reflexivity |].
  fold (sorted_by_slot d). rewrite last_insert_by_slot by apply sorted_by_slot_sorted.
  now rewrite IH.
Qed.

Lemma head_entry_split (d : list (string * node)) (x : string * node) :
  head_entry d = Some x ->
  exists l1 l2 : list (string * node),
    d = l1 ++ x :: l2
    /\ Forall (fun y => String.leb (raw_slot (snd y)) (raw_slot (snd x)) = true) l1
    /\ Forall (fun y => String.ltb (raw_slot (snd y)) (raw_slot (snd x)) = true) l2.
Proof.
  revert x. induction d as [| y d IH]; intros x; cbn [head_entry]; [discriminate |].
  destruct (head_entry d) as [z |] eqn:Hd.
  - destruct (IH z eq_refl) as [l1 [l2 [-> [H1 H2]]]].
    destruct (String.ltb (raw_slot (snd z)) (raw_slot (snd y))) eqn:Hzy;
      intros [= <-].
    + exists [], (l1 ++ z :: l2). split; [reflexivity |]. split; [constructor |].
      rewrite Forall_app, Forall_cons. repeat split.
      * eapply Forall_impl; [exact H1 |]. cbn. intros e He.
        now apply (string_leb_ltb_trans _ _ _ He).
      * exact Hzy.
      * eapply Forall_impl; [exact H2 |]. cbn. intros e He.
        now apply (string_leb_ltb_trans _ _ _ (string_ltb_leb _ _ He)).
    + exists (y :: l1), l2. split; [reflexivity |]. split; [| exact H2].
      constructor; [now apply string_ltb_false | exact H1].
  - intros [= <-]. destruct d as [| w d].
    2:{ cbn in Hd. destruct (head_entry d); [destruct (String.ltb _ _) in Hd |];
        discriminate. }
    exists [], []. repeat split; constructor.
Qed.

(** X1. [__find_head_root] raises [IndexError] exactly on an empty
    dictionary; otherwise it returns the key of an entry whose raw [slot]
    field, a decimal numeral, is not below any other in the order of strings,
    and among the entries of that numeral the one inserted last.  This is the
    block of the highest slot only when the numerals compare as the numbers
    do: of the slots 9 and 10 it selects 9. *)
Theorem find_head_root_greatest_numeral (ci : conf_info) :
  (find_head_root ci = Err IndexError <-> ci_nodes ci = [])
  /\ (forall root : string,
        find_head_root ci = Ok root ->
        exists (n : node) (l1 l2 : list (string * node)),
          ci_nodes ci = l1 ++ (root, n) :: l2
          /\ Forall (fun y => String.leb (raw_slot (snd y)) (raw_slot n) = true) l1
          /\ Forall (fun y => String.ltb (raw_slot (snd y)) (raw_slot n) = true) l2).
Proof.
  unfold find_head_root. rewrite last_sorted_by_slot. split.
  - destruct (ci_nodes ci) as [| x d] eqn:Hd; [split; reflexivity |].
    split; [| discriminate]. cbn [head_entry].
    destruct (head_entry d) as [z |]; [destruct (String.ltb _ _) |];
      repeat match goal with |- context [let (_, _) := ?p in _] => destruct p end;
      discriminate.
  - intros root. destruct (head_entry (ci_nodes ci)) as [[r n] |] eqn:Hhead; [| discriminate].
    intros [= ->]. destruct (head_entry_split _ _ Hhead) as [l1 [l2 [Hd [H1 H2]]]].
    exists n, l1, l2. auto.
Qed.

Lemma find_head_root_greatest_numeral_witness :
  (find_head_root example_snapshot = Ok "b77"
   /\ find_head_root numeral_snapshot = Ok "b9"
   /\ raw_slot (snd (example_node "b10" 10 "b9" (200 * VALIDATOR_BALANCE))) = "10")
  /\ exists (n : node) (l1 l2 : list (string * node)),
       ci_nodes numeral_snapshot = l1 ++ ("b9", n) :: l2
       /\ Forall (fun y => String.leb (raw_slot (snd y)) (raw_slot n) = true) l1
       /\ Forall (fun y => String.ltb (raw_slot (snd y)) (raw_slot n) = true) l2.
Proof.
  split; [repeat split; reflexivity |].
  apply (proj2 (find_head_root_greatest_numeral numeral_snapshot) "b9"). reflexivity.
Defined.

(** ** Blocks that are confirmed without a check, and blocks that are missing *)

(** X2. A block that is absent from the snapshot makes [__is_lmd_confirmed]
    and [__is_confirmed] raise [KeyError], even when it is the finalized
    checkpoint.  A block of the snapshot that is the finalized checkpoint or
    the confirmed head is accepted by both at once, whatever its weight and
    whether or not its parent is in the snapshot.  Any other block whose
    parent is absent makes [__is_lmd_confirmed] raise [KeyError]. *)
Theorem confirmed_without_check (fuel : nat) (self : ConfRule) (ci : conf_info)
    (root : string) :
  (dict_get root (ci_nodes ci) = None ->
   is_lmd_confirmed (S fuel) self ci root = Err KeyError
   /\ is_confirmed fuel ci root self = (self, Err KeyError))
  /\ (forall n : node,
        dict_get root (ci_nodes ci) = Some n ->
        ci_finalized_checkpoint ci = root \/ confirmed_head_root self = Some root ->
        is_lmd_confirmed (S fuel) self ci root = Ok true
        /\ is_confirmed fuel ci root self = (self, Ok true))
  /\ (forall n : node,
        dict_get root (ci_nodes ci) = Some n ->
        ci_finalized_checkpoint ci <> root ->
        confirmed_head_root self <> Some root ->
        dict_get (node_parent_root n) (ci_nodes ci) = None ->
        is_lmd_confirmed (S fuel) self ci root = Err KeyError).
Proof.
  split; [| split].
  - intros Hnone. cbn [is_lmd_confirmed]. unfold is_confirmed, get_node.
    now rewrite Hnone.
  - intros n Hn Hbase.
    assert (Hfast : String.eqb (ci_finalized_checkpoint ci) root
                    || opt_root_eqb (confirmed_head_root self) root = true).
    { apply orb_true_iff. destruct Hbase as [H | H].
      - left. now apply String.eqb_eq.
      - right. now apply opt_root_eqb_true. }
    cbn [is_lmd_confirmed]. unfold is_confirmed.
    rewrite (get_node_Some _ _ _ Hn). cbn [bind]. now rewrite Hfast.
  - intros n Hn Hfin Hhead Hparent.
    assert (Hfast : String.eqb (ci_finalized_checkpoint ci) root
                    || opt_root_eqb (confirmed_head_root self) root = false).
    { apply orb_false_iff. split.
      - now apply String.eqb_neq.
      - destruct (opt_root_eqb (confirmed_head_root self) root) eqn:E; [| reflexivity].
        apply opt_root_eqb_true in E. contradiction. }
    cbn [is_lmd_confirmed]. rewrite (get_node_Some _ _ _ Hn). cbn [bind].
    rewrite Hfast. unfold is_one_lmd_confirmed.
    rewrite (get_node_Some _ _ _ Hn). cbn [bind]. unfold get_node. now rewrite Hparent.
Qed.

Lemma confirmed_without_check_witness :
  (dict_get "b75" (ci_nodes example_snapshot) = None
   /\ is_lmd_confirmed 1 example_engine example_snapshot "b75" = Err KeyError
   /\ is_confirmed 0 example_snapshot "b75" example_engine
      = (example_engine, Err KeyError))
  /\ ((ci_finalized_checkpoint example_snapshot = "c0"
       \/ confirmed_head_root example_engine = Some "c0")
      /\ is_lmd_confirmed 1 example_engine example_snapshot "c0" = Ok true
      /\ is_confirmed 0 example_snapshot "c0" example_engine = (example_engine, Ok true))
  /\ (dict_get "b9" (ci_nodes orphan_snapshot) = None
      /\ is_lmd_confirmed 1 example_rule orphan_snapshot "b10" = Err KeyError).
Proof.
  split; [| split].
  - split; [reflexivity |].
    apply (proj1 (confirmed_without_check 0 example_engine example_snapshot "b75")).
    reflexivity.
  - split; [now left |].
    apply (proj1 (proj2 (confirmed_without_check 0 example_engine example_snapshot "c0"))
             (snd (example_node "c0" 0 "genesis" (3000 * 100 * VALIDATOR_BALANCE))));
      [reflexivity | now left].
  - split; [reflexivity |].
    apply (proj2 (proj2 (confirmed_without_check 0 example_rule orphan_snapshot "b10"))
             (snd (example_node "b10" 10 "b9" (300 * VALIDATOR_BALANCE))));
      [reflexivity | discriminate | discriminate | reflexivity].
Defined.

(** ** LMD confirmation along the chain *)

Lemma lmd_chain_of_is_lmd_confirmed (self : ConfRule) (ci : conf_info) :
  forall (fuel : nat) (root : string),
    is_lmd_confirmed fuel self ci root = Ok true -> lmd_chain self ci root.
Proof.
  induction fuel as [| fuel IH]; intros root H; [discriminate |].
  cbn [is_lmd_confirmed] in H.
  destruct (get_node ci root) as [n | e] eqn:Hn; cbn [bind] in H; [| discriminate].
  destruct (String.eqb (ci_finalized_checkpoint ci) root
            || opt_root_eqb (confirmed_head_root self) root) eqn:Hfast.
  - apply (lmd_chain_base self ci root n Hn).
    apply orb_true_iff in Hfast as [Hf | Hh].
    + left. now apply String.eqb_eq.
    + right. now apply opt_root_eqb_true.
  - destruct (is_one_lmd_confirmed self ci root) as [[|] | e] eqn:Hone;
      cbn [bind] in H; try discriminate.
    apply (lmd_chain_step self ci root n Hn Hone). now apply IH.
Qed.

(** X3. [__is_lmd_confirmed] returns [True] for a block, once the fuel
    covers the recursion, exactly when the block and its ancestors down to the
    finalized checkpoint or the confirmed head are all in the snapshot and
    one-LMD-confirmed. *)
Theorem is_lmd_confirmed_iff_chain (self : ConfRule) (ci : conf_info) (root : string) :
  (exists fuel : nat, is_lmd_confirmed fuel self ci root = Ok true)
  <-> lmd_chain self ci root.
Proof.
  split.
  - intros [fuel H]. exact (lmd_chain_of_is_lmd_confirmed self ci fuel root H).
  - induction 1 as [root n Hn Hbase | root n Hn Hone _ [fuel IH]].
    + exists 1%nat. cbn [is_lmd_confirmed]. rewrite Hn. cbn [bind].
      assert (Hfast : String.eqb (ci_finalized_checkpoint ci) root
                      || opt_root_eqb (confirmed_head_root self) root = true).
      { apply orb_true_iff. destruct Hbase as [H | H].
        - left. now apply String.eqb_eq.
        - right. now apply opt_root_eqb_true. }
      now rewrite Hfast.
    + exists (S fuel). cbn [is_lmd_confirmed]. rewrite Hn. cbn [bind].
      destruct (_ || _); [reflexivity |]. rewrite Hone. cbn [bind]. exact IH.
Qed.

(** ** The ancestor at or below a slot *)

Lemma get_node_Ok_inv (ci : conf_info) (root : string) (n : node) :
  get_node ci root = Ok n -> dict_get root (ci_nodes ci) = Some n.
Proof.
  unfold get_node. destruct (dict_get root (ci_nodes ci)); [congruence | discriminate].
Qed.

Lemma get_ancestor_loop_sound (ci : conf_info) (slot : Z) (checkpoint : string) :
  forall (fuel : nat) (root : string) (n : node),
    dict_get root (ci_nodes ci) = Some n ->
    get_ancestor_loop fuel ci n slot = Ok checkpoint ->
    highest_ancestor_at_or_below ci slot root checkpoint.
Proof.
  induction fuel as [| fuel IH]; intros root n Hn; cbn [get_ancestor_loop];
    destruct (Z.ltb_spec slot (node_slot n)) as [Hlt | Hge]; try discriminate.
  - intros [= <-]. now apply ancestor_here.
  - destruct (get_node ci (node_parent_root n)) as [p | e] eqn:Hp; cbn [bind];
      [| discriminate].
    intros H. apply (ancestor_above ci slot root n checkpoint Hn Hlt).
    apply (IH _ p); [| exact H]. now apply get_node_Ok_inv.
  - intros [= <-]. now apply ancestor_here.
Qed.

(** X4. [__get_ancestor] returns a root, once the fuel covers the walk,
    exactly when that root is the [block_root] of the first block on the
    parent chain whose slot is not above the requested slot, all blocks before
    it being in the snapshot with a slot above it. *)
Theorem get_ancestor_iff_highest_ancestor (ci : conf_info) (slot : Z)
    (root checkpoint : string) :
  (exists fuel : nat, get_ancestor fuel root slot ci = Ok checkpoint)
  <-> highest_ancestor_at_or_below ci slot root checkpoint.
Proof.
  split.
  - intros [fuel H]. unfold get_ancestor, get_node in H.
    destruct (dict_get root (ci_nodes ci)) as [n |] eqn:Hn; cbn [bind] in H;
      [| discriminate].
    exact (get_ancestor_loop_sound ci slot checkpoint fuel root n Hn H).
  - intros H. destruct (get_ancestor_enough_fuel ci slot root checkpoint H) as [N HN].
    exists N. apply HN. lia.
Qed.

(** ** The first confirmed ancestor *)

(** X6. [__find_confirmed_block_head] returns a root, once the depth covers
    the walk, exactly when that root is the first block on the parent chain of
    the start that [__is_confirmed] accepts, every block before it being
    rejected without an exception. *)
Theorem find_confirmed_block_head_iff_first (fuel : nat) (ci : conf_info)
    (self : ConfRule) (root stop : string) :
  (exists (depth : nat) (self' : ConfRule),
     find_confirmed_block_head fuel depth ci root self = (self', Ok stop))
  <-> first_confirmed fuel ci self root stop.
Proof.
  split.
  - intros [depth [self' H]]. revert root H.
    induction depth as [| depth IH]; intros root H; [discriminate |].
    apply find_confirmed_block_head_step in H as [[Hc ->] | [Hc [n [Hn H]]]].
    + now apply (first_confirmed_here fuel ci self root self').
    + apply (first_confirmed_above fuel ci self root stop n Hc Hn). now apply IH.
  - induction 1 as [root self' Hc | root stop n Hc Hn _ [depth [self' IH]]].
    + exists 1%nat, self'. cbn [find_confirmed_block_head]. now rewrite Hc.
    + exists (S depth), self'. cbn [find_confirmed_block_head]. now rewrite Hc, Hn.
Qed.

(** ** What a confirmed block satisfies *)

(** X5. A block [__is_confirmed] accepts is in the snapshot and
    LMD-confirmed, and it is the finalized checkpoint, or the confirmed head,
    or a block of the current epoch whose checkpoint of the previous epoch is
    the justified or the finalized checkpoint and which passes the FFG check,
    or a block of the previous epoch whose checkpoint of that epoch is
    finalized, or is the justified and FFG-confirmed checkpoint above a
    finalized checkpoint of the epoch before.  A block of an older or of a
    later epoch is never accepted otherwise. *)
Theorem is_confirmed_true_conditions (fuel : nat) (ci : conf_info) (root : string)
    (self self' : ConfRule) :
  is_confirmed fuel ci root self = (self', Ok true) ->
  let current_epoch := compute_epoch_at_slot (current_slot self) in
  exists block : node,
    dict_get root (ci_nodes ci) = Some block
    /\ lmd_chain self ci root
    /\ (ci_finalized_checkpoint ci = root
        \/ confirmed_head_root self = Some root
        \/ (compute_epoch_at_slot (node_slot block) = current_epoch
            /\ exists second checkpoint : string,
                 get_checkpoint_block fuel root ci (current_epoch - 1) = Ok second
                 /\ (second = ci_justified_checkpoint ci
                     \/ second = ci_finalized_checkpoint ci)
                 /\ ffg_check fuel self ci root = Ok (checkpoint, true))
        \/ (compute_epoch_at_slot (node_slot block) = current_epoch - 1
            /\ exists second : string,
                 get_checkpoint_block fuel root ci (current_epoch - 1) = Ok second
                 /\ (second = ci_finalized_checkpoint ci
                     \/ (ffg_confirmed_checkpoint self = Some second
                         /\ second = ci_justified_checkpoint ci
                         /\ get_checkpoint_block fuel root ci (current_epoch - 2)
                            = Ok (ci_finalized_checkpoint ci))))).
Proof.
  intros Hc current_epoch.
  assert (Hchain : lmd_chain self ci root).
  { destruct (is_confirmed_true_lmd _ _ _ _ _ Hc) as [fuel' Hl].
    exact (lmd_chain_of_is_lmd_confirmed self ci fuel' root Hl). }
  unfold is_confirmed in Hc. fold current_epoch in Hc.
  destruct (get_node ci root) as [block | e] eqn:Hb; [| discriminate].
  exists block. split; [now apply get_node_Ok_inv |]. split; [exact Hchain |].
  destruct (String.eqb (ci_finalized_checkpoint ci) root
            || opt_root_eqb (confirmed_head_root self) root) eqn:Hfast.
  { apply orb_true_iff in Hfast as [Hf | Hh].
    - left. now apply String.eqb_eq.
    - right. left. now apply opt_root_eqb_true. }
  right. right.
  destruct (get_checkpoint_block fuel root ci (current_epoch - 1)) as [second | e];
    [| discriminate].
  destruct (Z.eqb_spec (compute_epoch_at_slot (node_slot block)) current_epoch)
    as [Hep | Hep].
  - left. split; [exact Hep |].
    destruct (is_lmd_confirmed fuel self ci root) as [l | e]; [| discriminate].
    destruct ((String.eqb second (ci_justified_checkpoint ci)
               || String.eqb second (ci_finalized_checkpoint ci)) && l) eqn:Hcond;
      [| discriminate].
    apply andb_true_iff in Hcond as [Hcp _].
    apply is_ffg_confirmed_value in Hc as [c Hcheck].
    exists second, c. split; [reflexivity |]. split; [| exact Hcheck].
    apply orb_true_iff in Hcp as [H | H]; apply String.eqb_eq in H; auto.
  - right.
    destruct (Z.eqb_spec (compute_epoch_at_slot (node_slot block)) (current_epoch - 1))
      as [Hprev | _]; [| discriminate].
    split; [exact Hprev |]. exists second. split; [reflexivity |].
    destruct (String.eqb second (ci_finalized_checkpoint ci)) eqn:Hfin.
    + left. now apply String.eqb_eq.
    + right.
      destruct (get_checkpoint_block fuel root ci (current_epoch - 2)) as [third | e];
        [| discriminate].
      destruct (is_lmd_confirmed fuel self ci root) as [l | e]; [| discriminate].
      injection Hc as _ Hc.
      apply andb_true_iff in Hc as [Hc Hthird].
      apply andb_true_iff in Hc as [Hc _].
      apply andb_true_iff in Hc as [Hffg Hjust].
      apply opt_root_eqb_true in Hffg. apply String.eqb_eq in Hjust, Hthird.
      subst third. auto.
Qed.

Lemma is_confirmed_true_conditions_witness :
  is_confirmed 10 example_snapshot "b73" example_engine = (example_engine, Ok true)
  /\ let current_epoch := compute_epoch_at_slot (current_slot example_engine) in
     exists block : node,
       dict_get "b73" (ci_nodes example_snapshot) = Some block
       /\ lmd_chain example_engine example_snapshot "b73"
       /\ (ci_finalized_checkpoint example_snapshot = "b73"
           \/ confirmed_head_root example_engine = Some "b73"
           \/ (compute_epoch_at_slot (node_slot block) = current_epoch
               /\ exists second checkpoint : string,
                    get_checkpoint_block 10 "b73" example_snapshot (current_epoch - 1)
                    = Ok second
                    /\ (second = ci_justified_checkpoint example_snapshot
                        \/ second = ci_finalized_checkpoint example_snapshot)
                    /\ ffg_check 10 example_engine example_snapshot "b73"
                       = Ok (checkpoint, true))
           \/ (compute_epoch_at_slot (node_slot block) = current_epoch - 1
               /\ exists second : string,
                    get_checkpoint_block 10 "b73" example_snapshot (current_epoch - 1)
                    = Ok second
                    /\ (second = ci_finalized_checkpoint example_snapshot
                        \/ (ffg_confirmed_checkpoint example_engine = Some second
                            /\ second = ci_justified_checkpoint example_snapshot
                            /\ get_checkpoint_block 10 "b73" example_snapshot
                                 (current_epoch - 2)
                               = Ok (ci_finalized_checkpoint example_snapshot))))).
Proof.
  split; [reflexivity |].
  apply (is_confirmed_true_conditions 10 example_snapshot "b73" example_engine
           example_engine).
  reflexivity.
Defined.

(** ** What a successful update records *)

Lemma record_progress_times (fuel : nat) (record : bool) (ci : conf_info)
    (root : string) (slot : Z) (self self' : ConfRule) :
  record_progress fuel record ci root slot self = (self', Ok tt) ->
  times_from_confirmed_head self'
  = times_from_confirmed_head self ++ [get_time_from_last_confirmed_block self'].
Proof.
  unfold record_progress.
  destruct (confirmed_head_slot self <? slot).
  - destruct record.
    + destruct (compute_conf_times fuel root ci self) as [self1 [times | e]] eqn:Hc;
        [| discriminate].
      apply compute_conf_times_frame in Hc as [l [e ->]].
      intros [= <-]. reflexivity.
    + intros [= <-]. reflexivity.
  - destruct (slot =? confirmed_head_slot self); intros [= <-]; reflexivity.
Qed.

Lemma update_confirmed_head_ok (fuel : nat) (ci : conf_info) (self self' : ConfRule) :
  update_confirmed_head fuel ci self = (self', Ok tt) ->
  current_slot self <= ci_current_slot ci
  /\ current_slot self' = ci_current_slot ci
  /\ time_in_current_slot self' = ci_current_time_in_slot ci
  /\ processed_slots self' = {[ci_current_slot ci]} ∪ processed_slots self
  /\ times_from_confirmed_head self'
     = times_from_confirmed_head self ++ [get_time_from_last_confirmed_block self'].
Proof.
  unfold update_confirmed_head.
  destruct (Z.ltb_spec (ci_current_slot ci) (current_slot self)); [discriminate |].
  destruct (find_head_root ci) as [head | e]; [| discriminate].
  destruct (find_confirmed_block_head _ _ _ _ _) as [self2 [new_root | e]] eqn:Hwalk;
    [| discriminate].
  destruct (get_node ci new_root) as [new_head | e]; [| discriminate].
  intros Hrec.
  pose proof (record_progress_times _ _ _ _ _ _ _ Hrec) as Htimes.
  apply record_progress_ok in Hrec as [[Hslot _] [Htime [Hproc _]]].
  split; [assumption |].
  rewrite <- Hslot, Htime, Hproc, Htimes.
  apply same_except_ffg_of_find in Hwalk as [-> | [c ->]]; cbn; auto.
Qed.

(** X8. A successful [update_confirmed_head] takes over the slot and the
    time of the snapshot, which is not below the slot stored before, and
    appends exactly one entry to [times_from_confirmed_head]: the time from
    the slot of the confirmed head, as it is after the update, to the
    snapshot. *)
Theorem update_confirmed_head_clock (fuel : nat) (ci : conf_info)
    (self self' : ConfRule) :
  update_confirmed_head fuel ci self = (self', Ok tt) ->
  current_slot self <= ci_current_slot ci
  /\ current_slot self' = ci_current_slot ci
  /\ time_in_current_slot self' = ci_current_time_in_slot ci
  /\ times_from_confirmed_head self'
     = times_from_confirmed_head self
       ++ [(ci_current_slot ci - confirmed_head_slot self') * SLOT_LEN
           + ci_current_time_in_slot ci].
Proof.
  intros H. apply update_confirmed_head_ok in H as [Hle [Hslot [Htime [_ Htimes]]]].
  unfold get_time_from_last_confirmed_block in Htimes.
  rewrite Hslot, Htime in Htimes. auto.
Qed.

Lemma update_confirmed_head_clock_witness :
  let self' := fst (update_confirmed_head 10 example_snapshot example_engine_before) in
  update_confirmed_head 10 example_snapshot example_engine_before = (self', Ok tt)
  /\ current_slot example_engine_before <= ci_current_slot example_snapshot
  /\ current_slot self' = ci_current_slot example_snapshot
  /\ time_in_current_slot self' = ci_current_time_in_slot example_snapshot
  /\ times_from_confirmed_head self'
     = times_from_confirmed_head example_engine_before
       ++ [(ci_current_slot example_snapshot - confirmed_head_slot self') * SLOT_LEN
           + ci_current_time_in_slot example_snapshot].
Proof.
  split; [reflexivity |].
  apply (update_confirmed_head_clock 10 example_snapshot example_engine_before
           (fst (update_confirmed_head 10 example_snapshot example_engine_before))).
  reflexivity.
Defined.

(** ** Runs over several snapshots *)

Lemma execute_rule_cons_ok (fuel : nat) (ci : conf_info) (rest : list conf_info)
    (rule rule' : ConfRule) :
  execute_rule fuel (ci :: rest) rule = (rule', Ok tt) ->
  exists rule1 : ConfRule,
    update_confirmed_head fuel ci rule = (rule1, Ok tt)
    /\ execute_rule fuel rest rule1 = (rule', Ok tt).
Proof.
  cbn [execute_rule].
  destruct (update_confirmed_head fuel ci rule) as [rule1 [[] | e]]; [eauto | discriminate].
Qed.

(** X7. After a successful run the set of processed slots is the set held
    before joined with the slots of the snapshots, so that for an engine that
    had processed nothing [get_num_of_processed_slots] is the number of
    distinct snapshot slots; [times_from_confirmed_head] has one more entry
    per snapshot. *)
Theorem execute_rule_processed_slots (fuel : nat) (snapshots : list conf_info)
    (rule rule' : ConfRule) :
  execute_rule fuel snapshots rule = (rule', Ok tt) ->
  processed_slots rule'
  = list_to_set (map ci_current_slot snapshots) ∪ processed_slots rule
  /\ (processed_slots rule = ∅ ->
      get_num_of_processed_slots rule'
      = size (list_to_set (C := gset Z) (map ci_current_slot snapshots)))
  /\ length (times_from_confirmed_head rule')
     = (length (times_from_confirmed_head rule) + length snapshots)%nat.
Proof.
  intros H.
  assert (Hmain : processed_slots rule'
                  = list_to_set (map ci_current_slot snapshots) ∪ processed_slots rule
                  /\ length (times_from_confirmed_head rule')
                     = (length (times_from_confirmed_head rule) + length snapshots)%nat).
  { revert rule H. induction snapshots as [| ci rest IH]; intros rule H.
    - injection H as <-. cbn. split; [| lia]. now rewrite (left_id_L ∅ (∪)).
    - apply execute_rule_cons_ok in H as [rule1 [Hup Hrest]].
      apply update_confirmed_head_ok in Hup as [_ [_ [_ [Hproc Htimes]]]].
      destruct (IH _ Hrest) as [IHp IHt]. rewrite IHp, IHt, Hproc, Htimes.
      split.
      + cbn [map list_to_set].
        now rewrite (assoc_L (∪)), (comm_L (∪) (list_to_set _) {[ci_current_slot ci]}).
      + rewrite length_app. cbn. lia. }
  destruct Hmain as [Hproc Hlen]. split; [exact Hproc |]. split; [| exact Hlen].
  intros Hempty. unfold get_num_of_processed_slots.
  now rewrite Hproc, Hempty, (right_id_L ∅ (∪)).
Qed.

Lemma execute_rule_processed_slots_witness :
  let rule' :=
    fst (execute_rule 10 [example_snapshot; example_snapshot] example_rule) in
  execute_rule 10 [example_snapshot; example_snapshot] example_rule = (rule', Ok tt)
  /\ processed_slots rule'
     = list_to_set (map ci_current_slot [example_snapshot; example_snapshot])
       ∪ processed_slots example_rule
  /\ (processed_slots example_rule = ∅ ->
      get_num_of_processed_slots rule'
      = size (list_to_set (C := gset Z)
                (map ci_current_slot [example_snapshot; example_snapshot])))
  /\ length (times_from_confirmed_head rule')
     = (length (times_from_confirmed_head example_rule)
        + length [example_snapshot; example_snapshot])%nat.
Proof.
  split; [reflexivity |].
  apply (execute_rule_processed_slots 10 [example_snapshot; example_snapshot]
           example_rule
           (fst (execute_rule 10 [example_snapshot; example_snapshot] example_rule))).
  reflexivity.
Defined.

(** X9. A run succeeds only on snapshots in chronological order: the slot
    the engine held before and the slots of the snapshots, in the order they
    were applied, never decrease. *)
Theorem execute_rule_ok_sorted (fuel : nat) (snapshots : list conf_info)
    (rule rule' : ConfRule) :
  execute_rule fuel snapshots rule = (rule', Ok tt) ->
  Sorted Z.le (current_slot rule :: map ci_current_slot snapshots).
Proof.
  revert rule. induction snapshots as [| ci rest IH]; intros rule H.
  - repeat constructor.
  - apply execute_rule_cons_ok in H as [rule1 [Hup Hrest]].
    apply update_confirmed_head_ok in Hup as [Hle [Hslot _]].
    specialize (IH _ Hrest). rewrite Hslot in IH.
    cbn [map]. constructor; [exact IH |]. constructor. exact Hle.
Qed.

Lemma execute_rule_ok_sorted_witness :
  execute_rule 10 [example_snapshot; example_snapshot] example_rule
  = (fst (execute_rule 10 [example_snapshot; example_snapshot] example_rule), Ok tt)
  /\ Sorted Z.le
       (current_slot example_rule
        :: map ci_current_slot [example_snapshot; example_snapshot]).
Proof.
  split; [reflexivity |].
  apply (execute_rule_ok_sorted 10 [example_snapshot; example_snapshot] example_rule
           (fst (execute_rule 10 [example_snapshot; example_snapshot] example_rule))).
  reflexivity.
Defined.

(** ** Snapshots after a gap *)

(** X10. When the snapshot is more than one slot after the slot the engine
    held, [update_confirmed_head] records no confirmation time and no empty or
    forked slot, whatever progress the confirmed head makes and whether or not
    the update succeeds. *)
Theorem update_confirmed_head_after_gap (fuel : nat) (ci : conf_info) (self : ConfRule) :
  current_slot self + 1 < ci_current_slot ci ->
  conf_times (fst (update_confirmed_head fuel ci self)) = conf_times self
  /\ empty_or_forked_slots (fst (update_confirmed_head fuel ci self))
     = empty_or_forked_slots self.
Proof.
  intros Hgap. unfold update_confirmed_head.
  destruct (Z.ltb_spec (ci_current_slot ci) (current_slot self)); [lia |].
  destruct (Z.ltb_spec (current_slot self + 1) (ci_current_slot ci)); [| lia].
  cbn [negb].
  destruct (find_head_root ci) as [head | e]; [| now cbn].
  destruct (find_confirmed_block_head _ _ _ _ _) as [self2 r] eqn:Hwalk.
  assert (Hsame : conf_times self2 = conf_times self
                  /\ empty_or_forked_slots self2 = empty_or_forked_slots self)
    by (apply same_except_ffg_of_find in Hwalk as [-> | [c ->]]; now cbn).
  destruct r as [new_root | e]; [| exact Hsame].
  destruct (get_node ci new_root) as [new_head | e]; [| exact Hsame].
  unfold record_progress.
  destruct (confirmed_head_slot self2 <? node_slot new_head); [exact Hsame |].
  destruct (node_slot new_head =? confirmed_head_slot self2); exact Hsame.
Qed.

Lemma update_confirmed_head_after_gap_witness :
  let self' := fst (update_confirmed_head 10 example_snapshot example_engine_two_before) in
  (current_slot example_engine_two_before + 1 < ci_current_slot example_snapshot
   /\ confirmed_head_slot example_engine_two_before = 70
   /\ confirmed_head_slot self' = 73)
  /\ conf_times self' = conf_times example_engine_two_before
  /\ empty_or_forked_slots self' = empty_or_forked_slots example_engine_two_before.
Proof.
  intros self'. split; [repeat split; vm_compute; reflexivity |].
  apply (update_confirmed_head_after_gap 10 example_snapshot example_engine_two_before).
  reflexivity.
Defined.

(** ** The lists of the engine only grow *)

Lemma anomalies_appended_refl (self : ConfRule) : anomalies_appended self self.
Proof. exists [], []. rewrite !app_nil_r. now destruct self. Qed.

Lemma anomalies_appended_range (a b : Z) (self self' : ConfRule) :
  anomalies_appended self self' ->
  anomalies_appended self (deal_with_range a b self').
Proof.
  intros [l [e ->]]. rewrite deal_with_range_spec.
  exists l, (e ++ py_range a b). cbn. now rewrite app_assoc.
Qed.

Lemma anomalies_appended_log (ev : log_event) (self self' : ConfRule) :
  anomalies_appended self self' ->
  anomalies_appended self (set_logger (logger self' ++ [ev]) self').
Proof.
  intros [l [e ->]]. exists (l ++ [ev]), e. cbn. now rewrite app_assoc.
Qed.

Lemma compute_conf_times_loop_appends (fuel : nat) (ci : conf_info)
    (old_root : option string) (old_slot : Z) (self0 : ConfRule) :
  forall (cur_root : string) (pre_slot : Z) (times : list Z) (self self' : ConfRule)
         (r : result (Z * list Z)),
    anomalies_appended self0 self ->
    compute_conf_times_loop fuel ci old_root old_slot cur_root pre_slot times self
      = (self', r) ->
    anomalies_appended self0 self'.
Proof.
  induction fuel as [| fuel IH]; intros cur_root pre_slot times self self' r Hs;
    cbn [compute_conf_times_loop]; destruct (opt_root_eqb old_root cur_root);
    try (intros [= <- <-]; exact Hs).
  destruct (get_node ci cur_root) as [n | e]; [| intros [= <- <-]; exact Hs].
  destruct (node_slot n <=? old_slot).
  - intros [= <- <-]. now apply anomalies_appended_log.
  - apply IH. destruct (1 <? pre_slot - node_slot n); [| exact Hs].
    now apply anomalies_appended_range.
Qed.

Lemma compute_conf_times_appends (fuel : nat) (root : string) (ci : conf_info)
    (self self' : ConfRule) (r : result (list Z)) :
  compute_conf_times fuel root ci self = (self', r) ->
  anomalies_appended self self'.
Proof.
  unfold compute_conf_times.
  destruct (get_node ci root) as [n | e];
    [| intros [= <- <-]; apply anomalies_appended_refl].
  destruct (compute_conf_times_loop _ _ _ _ _ _ _ _) as [self1 [[pre times] | e]] eqn:Hl;
    apply (compute_conf_times_loop_appends _ _ _ _ self) in Hl;
    try apply anomalies_appended_refl.
  - intros [= <- <-]. destruct (1 <? _); [| exact Hl].
    now apply anomalies_appended_range.
  - intros [= <- <-]. exact Hl.
Qed.

Lemma lists_extended_refl (self : ConfRule) : lists_extended self self.
Proof. repeat split; reflexivity. Qed.

Lemma lists_extended_trans (a b c : ConfRule) :
  lists_extended a b -> lists_extended b c -> lists_extended a c.
Proof.
  intros [H1 [H2 [H3 H4]]] [G1 [G2 [G3 G4]]].
  repeat split; etransitivity; eassumption.
Qed.

Lemma record_progress_extends (fuel : nat) (record : bool) (ci : conf_info)
    (root : string) (slot : Z) (self : ConfRule) :
  lists_extended self (fst (record_progress fuel record ci root slot self)).
Proof.
  unfold record_progress, lists_extended.
  destruct (confirmed_head_slot self <? slot).
  - destruct record.
    + destruct (compute_conf_times fuel root ci self) as [self1 [times | e]] eqn:Hc;
        apply compute_conf_times_appends in Hc as [l [e' ->]]; cbn;
        repeat split; try reflexivity; apply prefix_app_r; reflexivity.
    + cbn. repeat split; try reflexivity. apply prefix_app_r. reflexivity.
  - destruct (slot =? confirmed_head_slot self); cbn;
      repeat split; try reflexivity; apply prefix_app_r; reflexivity.
Qed.

Lemma update_confirmed_head_extends (fuel : nat) (ci : conf_info) (self : ConfRule) :
  lists_extended self (fst (update_confirmed_head fuel ci self)).
Proof.
  unfold update_confirmed_head.
  destruct (ci_current_slot ci <? current_slot self); [apply lists_extended_refl |].
  destruct (find_head_root ci) as [head | e];
    [| unfold lists_extended; cbn; repeat split; reflexivity].
  destruct (find_confirmed_block_head _ _ _ _ _) as [self2 r] eqn:Hwalk.
  assert (Hsame : lists_extended self self2)
    by (apply same_except_ffg_of_find in Hwalk as [-> | [c ->]];
        unfold lists_extended; cbn; repeat split; reflexivity).
  destruct r as [new_root | e]; [| exact Hsame].
  destruct (get_node ci new_root) as [new_head | e]; [| exact Hsame].
  eapply lists_extended_trans; [exact Hsame | apply record_progress_extends].
Qed.

(** X11. Whatever the snapshots and however the run ends, the confirmation
    times, the empty or forked slots, the times from the confirmed head and
    the log held at the start are kept as the beginning of the lists held at
    the end: entries are appended and never removed or changed. *)
Theorem execute_rule_lists_grow (fuel : nat) (snapshots : list conf_info)
    (rule : ConfRule) :
  let rule' := fst (execute_rule fuel snapshots rule) in
  (exists added, get_conf_times rule' = get_conf_times rule ++ added)
  /\ (exists added,
        get_empty_or_forked_slots rule' = get_empty_or_forked_slots rule ++ added)
  /\ (exists added,
        times_from_confirmed_head rule' = times_from_confirmed_head rule ++ added)
  /\ (exists added, logger rule' = logger rule ++ added).
Proof.
  assert (H : lists_extended rule (fst (execute_rule fuel snapshots rule))).
  { revert rule. induction snapshots as [| ci rest IH]; intros rule;
      cbn [execute_rule]; [apply lists_extended_refl |].
    pose proof (update_confirmed_head_extends fuel ci rule) as Hu.
    destruct (update_confirmed_head fuel ci rule) as [rule1 [[] | e]]; cbn [fst] in *.
    - eapply lists_extended_trans; [exact Hu | apply IH].
    - exact Hu. }
  destruct H as [H1 [H2 [H3 H4]]]. cbn zeta.
  unfold get_conf_times, get_empty_or_forked_slots. auto.
Qed.

(** ** When the FFG-confirmed checkpoint is set *)

Lemma is_ffg_confirmed_sets (fuel : nat) (ci : conf_info) (root : string)
    (self self' : ConfRule) (r : result bool) :
  is_ffg_confirmed fuel ci root self = (self', r) ->
  self' = self
  \/ ((current_slot self + 1) mod SLOTS_PER_EPOCH = 0
      /\ exists c : string,
           self' = set_ffg_confirmed_checkpoint c self
           /\ ffg_check fuel self ci root = Ok (c, true)).
Proof.
  unfold is_ffg_confirmed.
  destruct (ffg_check fuel self ci root) as [[c b] | e].
  - destruct b; cbn [andb].
    + destruct (Z.eqb_spec ((current_slot self + 1) mod SLOTS_PER_EPOCH) 0);
        intros [= <- <-]; [right; eauto | now left].
    + intros [= <- <-]. now left.
  - intros [= <- <-]. now left.
Qed.

Lemma is_confirmed_sets (fuel : nat) (ci : conf_info) (root : string)
    (self self' : ConfRule) (r : result bool) :
  is_confirmed fuel ci root self = (self', r) ->
  self' = self
  \/ ((current_slot self + 1) mod SLOTS_PER_EPOCH = 0
      /\ exists c : string,
           self' = set_ffg_confirmed_checkpoint c self
           /\ ffg_check fuel self ci root = Ok (c, true)).
Proof.
  unfold is_confirmed.
  destruct (get_node ci root) as [block | e]; [| intros [= <- <-]; now left].
  destruct (_ || _); [intros [= <- <-]; now left |].
  destruct (get_checkpoint_block fuel root ci _) as [second | e];
    [| intros [= <- <-]; now left].
  destruct (_ =? _).
  - destruct (is_lmd_confirmed fuel self ci root) as [l | e];
      [| intros [= <- <-]; now left].
    destruct (_ && _); [| intros [= <- <-]; now left].
    apply is_ffg_confirmed_sets.
  - destruct (_ =? _); [| intros [= <- <-]; now left].
    destruct (String.eqb second (ci_finalized_checkpoint ci));
      [intros [= <- <-]; now left |].
    destruct (get_checkpoint_block fuel root ci _) as [third | e];
      [| intros [= <- <-]; now left].
    destruct (is_lmd_confirmed fuel self ci root) as [l | e];
      intros [= <- <-]; now left.
Qed.

Lemma find_confirmed_block_head_sets (fuel depth : nat) (ci : conf_info)
    (root : string) (self self' : ConfRule) (r : result string) :
  find_confirmed_block_head fuel depth ci root self = (self', r) ->
  self' = self
  \/ ((current_slot self + 1) mod SLOTS_PER_EPOCH = 0
      /\ exists c new_root : string,
           self' = set_ffg_confirmed_checkpoint c self
           /\ r = Ok new_root
           /\ ffg_check fuel self ci new_root = Ok (c, true)).
Proof.
  revert root. induction depth as [| depth IH]; intros root;
    cbn [find_confirmed_block_head].
  - intros [= <- <-]. now left.
  - destruct (is_confirmed fuel ci root self) as [self1 [[|] | e]] eqn:Hc.
    + intros [= <- <-].
      apply is_confirmed_sets in Hc as [-> | [Hlast [c [-> Hcheck]]]]; [now left |].
      right. split; [exact Hlast |]. exists c, root. auto.
    + apply is_confirmed_false_frame in Hc as ->.
      destruct (get_node ci root) as [block | e]; [apply IH |].
      intros [= <- <-]. now left.
    + intros [= <- <-].
      apply is_confirmed_frame in Hc as [-> | [c [b [_ [H _]]]]];
        [now left | discriminate].
Qed.

Lemma record_progress_ffg (fuel : nat) (record : bool) (ci : conf_info)
    (root : string) (slot : Z) (self : ConfRule) :
  ffg_confirmed_checkpoint (fst (record_progress fuel record ci root slot self))
  = ffg_confirmed_checkpoint self.
Proof.
  unfold record_progress.
  destruct (confirmed_head_slot self <? slot).
  - destruct record; [| reflexivity].
    destruct (compute_conf_times fuel root ci self) as [self1 [times | e]] eqn:Hc;
      apply compute_conf_times_frame in Hc as [l [e' ->]]; reflexivity.
  - destruct (slot =? confirmed_head_slot self); reflexivity.
Qed.

(** X19. [update_confirmed_head] changes [ffg_confirmed_checkpoint] only
    for a snapshot at the last slot of an epoch, and then to the checkpoint of
    a block of the snapshot that passes the FFG check at that slot; for any
    other snapshot, and whenever it raises the ordering assertion, the field
    is left as it was. *)
Theorem update_confirmed_head_ffg_checkpoint (fuel : nat) (ci : conf_info)
    (self : ConfRule) :
  let self' := fst (update_confirmed_head fuel ci self) in
  ffg_confirmed_checkpoint self' = ffg_confirmed_checkpoint self
  \/ ((ci_current_slot ci + 1) mod SLOTS_PER_EPOCH = 0
      /\ exists c root : string,
           ffg_confirmed_checkpoint self' = Some c
           /\ ffg_check fuel
                (set_clock (ci_current_slot ci) (ci_current_time_in_slot ci) self)
                ci root
              = Ok (c, true)).
Proof.
  cbn zeta. unfold update_confirmed_head.
  destruct (ci_current_slot ci <? current_slot self); [now left |].
  destruct (find_head_root ci) as [head | e]; [| now left].
  destruct (find_confirmed_block_head _ _ _ _ _) as [self2 r] eqn:Hwalk.
  assert (Hset :
    ffg_confirmed_checkpoint self2 = ffg_confirmed_checkpoint self
    \/ ((ci_current_slot ci + 1) mod SLOTS_PER_EPOCH = 0
        /\ exists c root : string,
             ffg_confirmed_checkpoint self2 = Some c
             /\ ffg_check fuel
                  (set_clock (ci_current_slot ci) (ci_current_time_in_slot ci) self)
                  ci root
                = Ok (c, true))).
  { apply find_confirmed_block_head_sets in Hwalk
      as [-> | [Hlast [c [new_root [-> [_ Hcheck]]]]]]; [now left | right].
    split; [exact Hlast |]. exists c, new_root. auto. }
  destruct r as [new_root | e]; [| exact Hset].
  destruct (get_node ci new_root) as [new_head | e]; [| exact Hset].
  now rewrite record_progress_ffg.
Qed.

(** ** Confirmation times when the old head is not on the chain *)

Lemma opt_root_eqb_false (o : option string) (root : string) :
  o <> Some root -> opt_root_eqb o root = false.
Proof.
  intros H. destruct (opt_root_eqb o root) eqn:E; [| reflexivity].
  apply opt_root_eqb_true in E. contradiction.
Qed.

Lemma compute_conf_times_loop_forked (ci : conf_info) (old_root : option string)
    (old_slot : Z) (visited : list node) :
  forall (fuel : nat) (root : string) (pre_slot : Z) (times : list Z) (self : ConfRule),
    forked_chain ci old_root old_slot root visited ->
    (length visited < fuel)%nat ->
    compute_conf_times_loop fuel ci old_root old_slot root pre_slot times self
    = (set_logger (logger self ++ [Error_confirmed_block_forked])
         (set_empty_or_forked_slots
            (empty_or_forked_slots self ++ loop_gaps pre_slot (map node_slot visited))
            self),
       Ok (last_slot pre_slot (map node_slot visited),
           times ++ map (conf_time self) visited)).
Proof.
  induction visited as [| n rest IH]; intros fuel root pre_slot times self Hchain Hfuel;
    (destruct fuel as [| fuel]; [cbn in Hfuel; lia |]);
    cbn [compute_conf_times_loop].
  - inversion Hchain as [root' n Hne Hnode Hslot |]; subst.
    rewrite (opt_root_eqb_false _ _ Hne), (get_node_Some _ _ _ Hnode).
    destruct (Z.leb_spec (node_slot n) old_slot); [| lia].
    cbn [map loop_gaps last_slot]. rewrite !app_nil_r. reflexivity.
  - inversion Hchain as [| root' n' rest' Hne Hnode Hslot Hrest]; subst.
    rewrite (opt_root_eqb_false _ _ Hne), (get_node_Some _ _ _ Hnode).
    destruct (Z.leb_spec (node_slot n) old_slot); [lia |].
    rewrite guarded_range.
    rewrite (IH fuel (node_parent_root n) (node_slot n)); [| assumption |].
    2:{ cbn in Hfuel. lia. }
    cbn [map loop_gaps last_slot]. f_equal.
    + unfold set_logger, set_empty_or_forked_slots. cbn. now rewrite <- app_assoc.
    + do 2 f_equal. rewrite <- app_assoc. reflexivity.
Qed.

(** X13. When the parent chain from the new head, through blocks of a slot
    above the old head slot, reaches a block that is not the old head and whose
    slot is not above the old head slot, [__compute_conf_times] stops there: it
    logs that a confirmed block is forked, returns the confirmation times of
    the blocks visited before, and still records the gaps between the visited
    slots and between the old head slot and the last visited slot. *)
Theorem compute_conf_times_forked
    (ci : conf_info) (self : ConfRule) (new_root : string) (new_head : node)
    (visited : list node) :
  dict_get new_root (ci_nodes ci) = Some new_head ->
  forked_chain ci (confirmed_head_root self) (confirmed_head_slot self)
    new_root visited ->
  forall fuel : nat, (length visited < fuel)%nat ->
    compute_conf_times fuel new_root ci self
    = (set_logger (logger self ++ [Error_confirmed_block_forked])
         (set_empty_or_forked_slots
            (empty_or_forked_slots self
             ++ reported_gaps (node_slot new_head) (map node_slot visited)
                  (confirmed_head_slot self))
            self),
       Ok (map (conf_time self) visited)).
Proof.
  intros Hnew Hchain fuel Hfuel. unfold compute_conf_times.
  rewrite (get_node_Some _ _ _ Hnew).
  rewrite (compute_conf_times_loop_forked ci _ _ visited fuel new_root
             (node_slot new_head) [] self Hchain Hfuel).
  rewrite guarded_range. cbn [app].
  unfold set_logger, set_empty_or_forked_slots. cbn.
  now rewrite <- app_assoc, reported_gaps_split.
Qed.

Lemma compute_conf_times_forked_witness :
  let self := set_clock 77 3 (set_confirmed_head "b70x" 70 example_rule) in
  let new_head := snd (example_node "b73" 73 "b70" (5 * 100 * VALIDATOR_BALANCE)) in
  (dict_get "b73" (ci_nodes example_snapshot) = Some new_head
   /\ forked_chain example_snapshot (confirmed_head_root self) (confirmed_head_slot self)
        "b73" [new_head])
  /\ forall fuel : nat, (length [new_head] < fuel)%nat ->
       compute_conf_times fuel "b73" example_snapshot self
       = (set_logger (logger self ++ [Error_confirmed_block_forked])
            (set_empty_or_forked_slots
               (empty_or_forked_slots self
                ++ reported_gaps (node_slot new_head) (map node_slot [new_head])
                     (confirmed_head_slot self))
               self),
          Ok (map (conf_time self) [new_head])).
Proof.
  assert (Hchain : forked_chain example_snapshot (Some "b70x") 70 "b73"
                     [snd (example_node "b73" 73 "b70" (5 * 100 * VALIDATOR_BALANCE))]).
  { eapply forked_step; [discriminate | reflexivity | reflexivity |].
    eapply (forked_end example_snapshot (Some "b70x") 70 "b70");
      [discriminate | reflexivity | discriminate]. }
  split.
  - split; [reflexivity | exact Hchain].
  - exact (compute_conf_times_forked example_snapshot
             (set_clock 77 3 (set_confirmed_head "b70x" 70 example_rule)) "b73"
             (snd (example_node "b73" 73 "b70" (5 * 100 * VALIDATOR_BALANCE)))
             [snd (example_node "b73" 73 "b70" (5 * 100 * VALIDATOR_BALANCE))]
             eq_refl Hchain).
Defined.

Lemma compute_conf_times_loop_no_head (ci : conf_info) (old_slot : Z) :
  forall (fuel : nat) (cur_root : string) (pre_slot : Z) (times : list Z)
         (self self' : ConfRule) (r : Z * list Z),
    compute_conf_times_loop fuel ci None old_slot cur_root pre_slot times self
      = (self', Ok r) ->
    logger self' = logger self ++ [Error_confirmed_block_forked].
Proof.
  induction fuel as [| fuel IH]; intros cur_root pre_slot times self self' r;
    cbn [compute_conf_times_loop opt_root_eqb]; [discriminate |].
  destruct (get_node ci cur_root) as [n | e]; [| discriminate].
  destruct (node_slot n <=? old_slot).
  - intros [= <- _]. reflexivity.
  - rewrite guarded_range. intros H. apply IH in H. exact H.
Qed.

(** X12. As long as the engine has no confirmed head, a call of
    [__compute_conf_times] that returns without an exception has logged that a
    confirmed block is forked, and nothing else: the walk never meets the old
    head, so it can only end at a block whose slot is not above the stored
    head slot. *)
Theorem compute_conf_times_without_head (fuel : nat) (new_root : string)
    (ci : conf_info) (self self' : ConfRule) (times : list Z) :
  confirmed_head_root self = None ->
  compute_conf_times fuel new_root ci self = (self', Ok times) ->
  logger self' = logger self ++ [Error_confirmed_block_forked].
Proof.
  intros Hnone. unfold compute_conf_times. rewrite Hnone.
  destruct (get_node ci new_root) as [n | e]; [| discriminate].
  destruct (compute_conf_times_loop _ _ _ _ _ _ _ _) as [self1 [[pre ts] | e]] eqn:Hl;
    [| discriminate].
  apply compute_conf_times_loop_no_head in Hl.
  intros [= <- _]. rewrite guarded_range. exact Hl.
Qed.

Lemma compute_conf_times_without_head_witness :
  let self := set_clock 77 3 example_rule in
  let outcome := compute_conf_times 10 "b73" example_snapshot self in
  (confirmed_head_root self = None
   /\ outcome = (fst outcome, Ok [51; 87; 159; 543]))
  /\ logger (fst outcome) = logger self ++ [Error_confirmed_block_forked].
Proof.
  assert (Hrun : compute_conf_times 10 "b73" example_snapshot (set_clock 77 3 example_rule)
                 = (fst (compute_conf_times 10 "b73" example_snapshot
                           (set_clock 77 3 example_rule)),
                    Ok [51; 87; 159; 543]))
    by (vm_compute; reflexivity).
  split; [split; [reflexivity | exact Hrun] |].
  exact (compute_conf_times_without_head 10 "b73" example_snapshot
           (set_clock 77 3 example_rule) _ [51; 87; 159; 543] eq_refl Hrun).
Defined.

(** ** More on the weight estimator *)

(** X14. For every non-zero denominator, of either sign, [__ceil_div] is
    the ceiling of the quotient: the negated floor division of the negated
    numerator. *)
Theorem ceil_div_negated_floor (numerator denominator : Z) :
  denominator <> 0 ->
  ceil_div numerator denominator = - ((- numerator) / denominator).
Proof.
  intros Hd. unfold ceil_div.
  pose proof (Z.div_mod numerator denominator Hd) as Hn.
  pose proof (Z.div_mod (- numerator) denominator Hd) as Hm.
  destruct (Z.eqb_spec (numerator mod denominator) 0) as [E | E].
  - rewrite Z.div_opp_l_z by assumption. lia.
  - rewrite Z.div_opp_l_nz by assumption. lia.
Qed.

Lemma ceil_div_negated_floor_witness :
  (-3 <> 0 /\ ceil_div 7 (-3) = - ((- 7) / (-3)))
  /\ ceil_div 7 (-3) = -2
  /\ ceil_div 7 3 = 3.
Proof.
  split; [split; [discriminate |] | split; reflexivity].
  apply (ceil_div_negated_floor 7 (-3)). discriminate.
Defined.

(** X15. With a non-negative committee size the remaining weight in the
    epoch is not negative, it is the total active balance less the weight of
    the slots of the epoch up to and including the current one, and it is 0 at
    the last slot of an epoch. *)
Theorem remaining_weight_in_epoch_bounds (self : ConfRule) (ci : conf_info) :
  0 <= ci_committee_size ci ->
  0 <= get_remaining_weight_in_epoch self ci
  /\ get_remaining_weight_in_epoch self ci
     = get_total_active_balance ci
       - (current_slot self mod SLOTS_PER_EPOCH + 1)
         * ci_committee_size ci * VALIDATOR_BALANCE
  /\ ((current_slot self + 1) mod SLOTS_PER_EPOCH = 0 ->
      get_remaining_weight_in_epoch self ci = 0).
Proof.
  intros Hc.
  unfold get_remaining_weight_in_epoch, get_total_active_balance, SLOTS_PER_EPOCH,
    VALIDATOR_BALANCE.
  pose proof (Z.mod_pos_bound (current_slot self) 32 ltac:(lia)) as Hb.
  split; [| split].
  - apply Z.mul_nonneg_nonneg; [apply Z.mul_nonneg_nonneg |]; lia.
  - lia.
  - intros Hlast.
    assert (current_slot self mod 32 = 31) by (Z.div_mod_to_equations; lia).
    replace (32 - current_slot self mod 32 - 1) with 0 by lia. lia.
Qed.

Lemma remaining_weight_in_epoch_bounds_witness :
  0 <= ci_committee_size example_snapshot
  /\ 0 <= get_remaining_weight_in_epoch example_engine example_snapshot
  /\ get_remaining_weight_in_epoch example_engine example_snapshot
     = get_total_active_balance example_snapshot
       - (current_slot example_engine mod SLOTS_PER_EPOCH + 1)
         * ci_committee_size example_snapshot * VALIDATOR_BALANCE
  /\ ((current_slot example_engine + 1) mod SLOTS_PER_EPOCH = 0 ->
      get_remaining_weight_in_epoch example_engine example_snapshot = 0).
Proof.
  split; [discriminate |].
  apply (remaining_weight_in_epoch_bounds example_engine example_snapshot). discriminate.
Defined.

(** X16. With a non-negative committee size the committee weight of any
    range is not negative and never exceeds the total active balance inflated
    by the safety factor, [ceil_div (total * 1005) 1000]. *)
Theorem committee_weight_bounds (ci : conf_info) (start_slot end_slot : Z) :
  0 <= ci_committee_size ci ->
  0 <= get_committee_weight_between_slots ci start_slot end_slot
  /\ get_committee_weight_between_slots ci start_slot end_slot
     <= adjust_committee_weight_estimate_to_ensure_safety (get_total_active_balance ci).
Proof.
  intros Hc. split; [now apply committee_weight_nonneg |].
  assert (HW : 0 <= slot_weight ci) by (unfold slot_weight, VALIDATOR_BALANCE; lia).
  assert (HT : get_total_active_balance ci = 32 * slot_weight ci)
    by (rewrite total_active_balance_slot_weight; unfold SLOTS_PER_EPOCH; lia).
  assert (Htop : get_total_active_balance ci
                 <= adjust_committee_weight_estimate_to_ensure_safety
                      (get_total_active_balance ci))
    by (apply adjust_ge; lia).
  rewrite committee_weight_closed_form.
  destruct (Z.ltb_spec end_slot start_slot); [lia |].
  destruct (is_full_validator_set_covered start_slot end_slot) eqn:Hfull; [exact Htop |].
  pose proof (Z.mod_pos_bound start_slot 32 ltac:(lia)) as Hms.
  pose proof (Z.mod_pos_bound end_slot 32 ltac:(lia)) as Hme.
  destruct (Z.eqb_spec (start_slot / 32) (end_slot / 32)) as [Hep | Hep].
  - (* inside one epoch: at most 32 slots *)
    assert (end_slot - start_slot + 1 <= 32) by (Z.div_mod_to_equations; lia).
    assert (Hmul : (end_slot - start_slot + 1) * slot_weight ci <= 32 * slot_weight ci)
      by (apply Z.mul_le_mono_nonneg_r; lia).
    lia.
  - apply adjust_mono. rewrite HT.
    set (num := (32 - start_slot mod 32) * (32 - (end_slot mod 32 + 1))
                + 32 * (end_slot mod 32 + 1)).
    assert (Hnum : num <= 32 * 32) by (unfold num; nia).
    assert (Hle : num * slot_weight ci <= 32 * slot_weight ci * 32) by nia.
    pose proof (ceil_div_mono _ _ 32 ltac:(lia) Hle) as Hm.
    rewrite ceil_div_exact in Hm by lia. exact Hm.
Qed.

Lemma committee_weight_bounds_witness :
  0 <= ci_committee_size (snapshot_of_committee_size 1)
  /\ 0 <= get_committee_weight_between_slots (snapshot_of_committee_size 1) 1 62
  /\ get_committee_weight_between_slots (snapshot_of_committee_size 1) 1 62
     <= adjust_committee_weight_estimate_to_ensure_safety
          (get_total_active_balance (snapshot_of_committee_size 1)).
Proof.
  split; [discriminate |].
  apply (committee_weight_bounds (snapshot_of_committee_size 1) 1 62). discriminate.
Defined.

(** ** The collection period *)

(** X17. For a non-negative number of processed slots,
    [log_data_collection_time_period] logs hours below 24 and minutes below
    60, and the days, hours and minutes it logs account for the 12 seconds per
    slot up to less than a minute. *)
Theorem log_data_collection_time_period_decomposes (num_of_processed_slots : Z) :
  0 <= num_of_processed_slots ->
  let '(days, hours, mins) := log_data_collection_time_period num_of_processed_slots in
  0 <= days /\ 0 <= hours < 24 /\ 0 <= mins < 60
  /\ 0 <= 12 * num_of_processed_slots - (days * 86400 + hours * 3600 + mins * 60) < 60.
Proof.
  intros Hn. unfold log_data_collection_time_period. cbn zeta.
  change (60 * 60 * 24) with 86400. change (60 * 60) with 3600.
  Z.div_mod_to_equations. lia.
Qed.

Lemma log_data_collection_time_period_decomposes_witness :
  0 <= 7500
  /\ log_data_collection_time_period 7500 = (1, 1, 0)
  /\ let '(days, hours, mins) := log_data_collection_time_period 7500 in
     0 <= days /\ 0 <= hours < 24 /\ 0 <= mins < 60
     /\ 0 <= 12 * 7500 - (days * 86400 + hours * 3600 + mins * 60) < 60.
Proof.
  split; [discriminate |]. split; [reflexivity |].
  apply (log_data_collection_time_period_decomposes 7500). discriminate.
Defined.

(** ** The snapshot assembled by the collector *)

Lemma dict_get_set (k k' : string) (v : node) (d : list (string * node)) :
  dict_get k (dict_set k' v d) = if String.eqb k' k then Some v else dict_get k d.
Proof.
  induction d as [| [k0 v0] d IH]; cbn.
  - reflexivity.
  - destruct (String.eqb_spec k0 k') as [E | E]; cbn.
    + subst k0. destruct (String.eqb k' k); reflexivity.
    + destruct (String.eqb_spec k0 k) as [E0 | E0]; [| exact IH].
      subst k0. destruct (String.eqb_spec k' k); [congruence | reflexivity].
Qed.

Lemma dict_set_keys (k : string) (v : node) (d : list (string * node)) :
  map fst (dict_set k v d)
  = match dict_get k d with
    | Some _ => map fst d
    | None => map fst d ++ [k]
    end.
Proof.
  induction d as [| [k0 v0] d IH]; cbn.
  - reflexivity.
  - destruct (String.eqb_spec k0 k) as [E | E]; cbn.
    + reflexivity.
    + rewrite IH. destruct (dict_get k d); reflexivity.
Qed.

Lemma dict_get_None_keys (k : string) (d : list (string * node)) :
  dict_get k d = None -> k ∉ map fst d.
Proof.
  induction d as [| [k0 v0] d IH]; cbn.
  - intros _. apply not_elem_of_nil.
  - destruct (String.eqb_spec k0 k) as [E | E]; [discriminate |].
    intros Hd. apply not_elem_of_cons. split; [congruence | now apply IH].
Qed.

Lemma foldl_snoc {A B : Type} (f : A -> B -> A) (a : A) (l : list B) (x : B) :
  foldl f a (l ++ [x]) = f (foldl f a l) x.
Proof. now rewrite foldl_app. Qed.

(** X18. In the snapshot [get_confirmation_context] assembles, looking a
    root up in [nodes] gives the last fork-choice node carrying that
    [block_root] (and nothing if there is none), no key occurs twice, and the
    committee size is the number of validators over all the committees of the
    slot, hence not negative. *)
Theorem get_confirmation_context_nodes (current_slot time_in_current_slot : Z)
    (justified_root finalized_root : string) (fork_choice_nodes : list node)
    (head_committee : list (list string)) :
  let ci := get_confirmation_context current_slot time_in_current_slot
              justified_root finalized_root fork_choice_nodes head_committee in
  (forall root : string,
     dict_get root (ci_nodes ci)
     = last (List.filter (fun n => String.eqb (node_block_root n) root) fork_choice_nodes))
  /\ NoDup (map fst (ci_nodes ci))
  /\ ci_committee_size ci = Z.of_nat (length (concat head_committee))
  /\ 0 <= ci_committee_size ci.
Proof.
  cbn. repeat split.
  - intros root. induction fork_choice_nodes as [| n l IH] using rev_ind.
    + reflexivity.
    + rewrite foldl_snoc, dict_get_set, List.filter_app. cbn.
      destruct (String.eqb (node_block_root n) root).
      * now rewrite last_snoc.
      * now rewrite app_nil_r.
  - induction fork_choice_nodes as [| n l IH] using rev_ind.
    + constructor.
    + rewrite foldl_snoc, dict_set_keys.
      destruct (dict_get (node_block_root n) _) eqn:Hget; [exact IH |].
      apply NoDup_app. split; [exact IH |]. split.
      * intros k Hk Hin. apply list_elem_of_singleton in Hin. subst k.
        now apply dict_get_None_keys in Hget.
      * apply NoDup_singleton.
  - induction head_committee as [| c l IH] using rev_ind.
    + reflexivity.
    + rewrite foldl_snoc, IH, concat_app, !length_app. cbn. rewrite app_nil_r. lia.
  - assert (H : forall l (a : Z), 0 <= a ->
               0 <= foldl (fun size (comm : list string) => size + Z.of_nat (length comm)) a l).
    { induction l as [| c l IH]; cbn; intros a Ha; [exact Ha | apply IH; lia]. }
    apply H. lia.
Qed.
